(** * The node-graph engine of the blueprint editor (graph.js)

    A shallow embedding of the [Pin] / [Node] / [WiringController] /
    [GraphController] core that [scripts/restore_graph.py] writes into
    [graph.js], and the properties of its operations.

    Conventions of the embedding.
    - JavaScript objects that are shared and mutated in place (Pin objects,
      which both a Node's pin array and the Links point to) live in a store
      [heap]; a reference is an index into it.  Node and Link objects are
      only reached through the two [Map]s that own them and are kept there
      by value; a Pin's [node] back-pointer is read for its [id] only and is
      kept as that identifier.
    - A JavaScript [Map] or [Set] iterates in insertion order: both are
      lists here ([omap], [oset]).
    - Numbers are integers ([Z]); the DOM (elements, rendering, wire paths)
      is outside the model, the layout being consulted through
      [getPinPosition] only.
    - [persistence.autoSave()] and [compiler.markDirty()] are recorded in
      [log]; the ones issued from inside a [requestAnimationFrame] callback
      are recorded in [pending]. *)

From Stdlib Require Import ZArith Lia Ascii String.
From stdpp Require Import base list strings pretty.

Open Scope Z_scope.
Open Scope string_scope.
Open Scope list_scope.

(** ** Strings *)

Module Str.

(** [split c s] is [s.split(c)] for a one-character separator. *)
Fixpoint split (c : ascii) (s : string) : list string :=
  match s with
  | EmptyString => [EmptyString]
  | String x s' =>
      if Ascii.eqb x c then EmptyString :: split c s'
      else match split c s' with
           | [] => [String x EmptyString]
           | h :: t => String x h :: t
           end
  end.

(** [drop_prefix pat s] is the rest of [s] after its prefix [pat]. *)
Fixpoint drop_prefix (pat s : string) : option string :=
  match pat, s with
  | EmptyString, _ => Some s
  | String a pat', String b s' =>
      if Ascii.eqb a b then drop_prefix pat' s' else None
  | String _ _, EmptyString => None
  end.


(** [includes pat s] is [s.includes(pat)]. *)
Fixpoint includes (pat s : string) : bool :=
  match drop_prefix pat s with
  | Some _ => true
  | None =>
      match s with
      | EmptyString => false
      | String _ s' => includes pat s'
      end
  end.

(** No occurrence of the character [c]. *)
Fixpoint free_of (c : ascii) (s : string) : bool :=
  match s with
  | EmptyString => true
  | String x s' => negb (Ascii.eqb x c) && free_of c s'
  end.

End Str.

(** ** Insertion-ordered maps and sets (JavaScript [Map] and [Set]) *)

Definition omap (V : Type) : Type := list (string * V).

Module OMap.
Section Ops.
Context {V : Type}.

Fixpoint get (m : omap V) (k : string) : option V :=
  match m with
  | [] => None
  | (k', v) :: m' => if decide (k' = k) then Some v else get m' k
  end.

(** [m.set(k, v)]: an existing key keeps its place. *)
Fixpoint set (m : omap V) (k : string) (v : V) : omap V :=
  match m with
  | [] => [(k, v)]
  | (k', v') :: m' =>
      if decide (k' = k) then (k, v) :: m' else (k', v') :: set m' k v
  end.

Fixpoint delete (m : omap V) (k : string) : omap V :=
  match m with
  | [] => []
  | (k', v') :: m' =>
      if decide (k' = k) then delete m' k else (k', v') :: delete m' k
  end.

Definition has (m : omap V) (k : string) : bool :=
  match get m k with Some _ => true | None => false end.

Definition keys (m : omap V) : list string := map fst m.
Definition values (m : omap V) : list V := map snd m.

End Ops.
End OMap.

Definition oset : Type := list string.

Module OSet.
Definition has (s : oset) (k : string) : bool := bool_decide (k ∈ s).
Definition add (s : oset) (k : string) : oset :=
  if has s k then s else s ++ [k].
Definition delete (s : oset) (k : string) : oset :=
  filter (fun x => x ≠ k) s.
End OSet.

(** ** Data model *)

(** A literal or default value of a pin; [VUndefined] is JavaScript's
    [undefined]. *)
Inductive value : Type :=
  | VUndefined
  | VBool (b : bool)
  | VNum (z : Z)
  | VStr (s : string).

Global Instance value_eq_dec : EqDecision value.
Proof. solve_decision. Defined.

Inductive direction : Type := DirIn | DirOut.

Global Instance direction_eq_dec : EqDecision direction.
Proof. solve_decision. Defined.

(** A pin specification of a catalog template. *)
Record PinSpec : Type := mkPinSpec {
  ps_id : string;
  ps_name : string;
  ps_type : string;
  ps_dir : direction;
  ps_containerType : string;
  ps_defaultValue : value;
  ps_isCustom : bool
}.

(** A catalog entry, as [nodeRegistry.get(key)] returns it. *)
Record Template : Type := mkTemplate {
  t_title : string;
  t_pins : list PinSpec;
  t_isSingleton : bool
}.

Definition ref : Type := nat.

Record Pin : Type := mkPin {
  pin_id : string;
  pin_node : string;          (* [pin.node.id] *)
  pin_name : string;
  pin_type : string;
  pin_dir : direction;
  pin_containerType : string;
  pin_defaultValue : value;
  pin_links : list string;
  pin_isCustom : bool
}.

Record Node : Type := mkNode {
  node_id : string;
  node_x : Z;
  node_y : Z;
  node_nodeKey : string;
  node_title : string;
  node_pins : list ref;
  node_pinLiterals : omap value
}.

Record Link : Type := mkLink {
  link_id : string;
  link_startPin : ref;
  link_endPin : ref
}.

Inductive Notification : Type := AutoSave | MarkDirty.

Global Instance Notification_eq_dec : EqDecision Notification.
Proof. solve_decision. Defined.

Record State : Type := mkState {
  heap : list Pin;                 (* the Pin objects *)
  nodes : omap Node;               (* GraphController.nodes *)
  links : omap Link;               (* WiringController.links *)
  selectedNodes : oset;            (* GraphController.selectedNodes *)
  selectedLinks : oset;            (* WiringController.selectedLinks *)
  nextId : nat;                    (* supply of Utils.uniqueId *)
  log : list Notification;         (* notifications fired *)
  pending : list Notification      (* notifications queued for the next frame *)
}.

Global Instance Pin_inhabited : Inhabited Pin :=
  populate (mkPin "" "" "" "" DirIn "" VUndefined [] false).

Definition set_pin_links (l : list string) (p : Pin) : Pin :=
  mkPin (pin_id p) (pin_node p) (pin_name p) (pin_type p) (pin_dir p)
        (pin_containerType p) (pin_defaultValue p) l (pin_isCustom p).


Definition set_node_pos (x y : Z) (n : Node) : Node :=
  mkNode (node_id n) x y (node_nodeKey n) (node_title n) (node_pins n)
         (node_pinLiterals n).




Definition set_node_pinLiterals (m : omap value) (n : Node) : Node :=
  mkNode (node_id n) (node_x n) (node_y n) (node_nodeKey n) (node_title n)
         (node_pins n) m.

Definition set_heap (h : list Pin) (s : State) : State :=
  mkState h (nodes s) (links s) (selectedNodes s) (selectedLinks s)
          (nextId s) (log s) (pending s).

Definition set_nodes (m : omap Node) (s : State) : State :=
  mkState (heap s) m (links s) (selectedNodes s) (selectedLinks s)
          (nextId s) (log s) (pending s).

Definition set_links (m : omap Link) (s : State) : State :=
  mkState (heap s) (nodes s) m (selectedNodes s) (selectedLinks s)
          (nextId s) (log s) (pending s).

Definition set_selectedNodes (l : oset) (s : State) : State :=
  mkState (heap s) (nodes s) (links s) l (selectedLinks s)
          (nextId s) (log s) (pending s).

Definition set_selectedLinks (l : oset) (s : State) : State :=
  mkState (heap s) (nodes s) (links s) (selectedNodes s) l
          (nextId s) (log s) (pending s).

Definition set_nextId (n : nat) (s : State) : State :=
  mkState (heap s) (nodes s) (links s) (selectedNodes s) (selectedLinks s)
          n (log s) (pending s).

(** Fire notifications now. *)
Definition notify (l : list Notification) (s : State) : State :=
  mkState (heap s) (nodes s) (links s) (selectedNodes s) (selectedLinks s)
          (nextId s) (log s ++ l) (pending s).

(** Fire notifications from a [requestAnimationFrame] callback. *)
Definition defer (l : list Notification) (s : State) : State :=
  mkState (heap s) (nodes s) (links s) (selectedNodes s) (selectedLinks s)
          (nextId s) (log s) (pending s ++ l).

(** The empty editor. *)
Definition initial : State := mkState [] [] [] [] [] 0 [] [].

(** [pin.field] through a reference. *)
Definition deref (s : State) (r : ref) : Pin := heap s !!! r.

(** In-place update of a Pin object. *)
Definition update_pin (r : ref) (f : Pin -> Pin) (s : State) : State :=
  set_heap (alter f r (heap s)) s.

(** A JavaScript call either returns or throws a [TypeError] (a property
    read on [null] or [undefined], a call of a missing method); the state
    reached so far is kept in both cases. *)
Inductive outcome : Type :=
  | Returned (s : State)
  | TypeError (s : State).

(** ** Serialized graph state (the argument of [loadState]) *)

Record SavedPin : Type := mkSavedPin {
  sp_id : string;
  sp_name : string;
  sp_type : string;
  sp_dir : direction;
  sp_containerType : string;
  sp_literalValue : value;
  sp_isCustom : bool
}.

Record SavedNode : Type := mkSavedNode {
  sn_id : string;
  sn_nodeKey : string;
  sn_x : Z;
  sn_y : Z;
  sn_pins : option (list SavedPin)
}.

Record SavedLink : Type := mkSavedLink {
  sl_id : string;
  sl_startPinId : string;
  sl_endPinId : string
}.

Record SavedState : Type := mkSavedState {
  st_nodes : list SavedNode;
  st_links : list SavedLink
}.

Inductive selectMode : Type := ModeAdd | ModeRemove | ModeToggle | ModeNew.

(** ** Pin and Node *)

(** Modelled from the spec: the [Pin] class is not in the sources.  A pin
    built by [new Pin(node, spec)] is scoped as [<nodeId>-<localId>], takes
    its name, type, direction, container type, default and custom flag from
    the specification and starts without links. *)
Definition new_Pin (nodeId : string) (p : PinSpec) : Pin :=
  mkPin (nodeId +:+ "-" +:+ ps_id p) nodeId (ps_name p) (ps_type p) (ps_dir p)
        (ps_containerType p) (ps_defaultValue p) [] (ps_isCustom p).

(** Modelled from the spec: [Pin.getMaxLinks] is not in the sources.  Input
    pins of non-exec type take at most one link; output pins and exec pins
    are unbounded ([None]). *)
Definition getMaxLinks (p : Pin) : option nat :=
  match pin_dir p with
  | DirIn => if decide (pin_type p = "exec") then None else Some 1%nat
  | DirOut => None
  end.

(** Modelled from the spec: [Pin.isConnected] is not in the sources; a pin
    is connected when its link list is not empty. *)
Definition isConnected (p : Pin) : bool :=
  match pin_links p with [] => false | _ :: _ => true end.


(** Modelled from the spec: the constructor of [Node] is not in the
    sources.  [new Node(id, data, x, y, key, app)] builds its pins in order
    from [data.pins], takes its title from [data] and starts with an empty
    literal map. *)
Definition new_Node (s : State) (id title : string) (pins : list PinSpec)
    (x y : Z) (key : string) : Node * State :=
  (mkNode id x y key title (seq (length (heap s)) (length pins)) [],
   set_heap (heap s ++ map (new_Pin id) pins) s).

(** Modelled from the spec: [Node.findPinById] is not in the sources; an
    exact lookup in the node's pin collection. *)
Definition node_findPinById (s : State) (n : Node) (fullId : string)
    : option ref :=
  List.find (fun r => bool_decide (pin_id (deref s r) = fullId)) (node_pins n).


(** Modelled from the spec: [Utils.uniqueId] is not in the sources.
    Identifiers are unique, and [findPinById] below takes the first two
    dash-separated parts of a pin identifier as a node identifier: the
    identifier is the prefix, a dash and a counter. *)
Definition uniqueId (s : State) (prefix : string) : string * State :=
  (prefix +:+ "-" +:+ pretty (nextId s), set_nextId (S (nextId s)) s).

(** ** The controllers *)

Section Controllers.

(** The node-type catalog, [nodeRegistry.get]. *)
Variable nodeRegistry : string -> option Template.
(** The adapter table, [Utils.getConversionNodeKey]. *)
Variable getConversionNodeKey : string -> string -> option string.
(** The layout, [Utils.getPinPosition(pin.element, app)]. *)
Variable getPinPosition : Pin -> Z * Z.

(** *** WiringController *)

Definition findLinksByNodeId (s : State) (nodeId : string) : list Link :=
  List.filter
    (fun l => bool_decide (pin_node (deref s (link_startPin l)) = nodeId)
           || bool_decide (pin_node (deref s (link_endPin l)) = nodeId))
    (OMap.values (links s)).

Definition findLinksByPinId (s : State) (pinId : string) : list Link :=
  List.filter
    (fun l => bool_decide (pin_id (deref s (link_startPin l)) = pinId)
           || bool_decide (pin_id (deref s (link_endPin l)) = pinId))
    (OMap.values (links s)).

Definition clearLinkSelection (s : State) : State :=
  set_selectedLinks [] s.

Definition _addLink (s : State) (startPin endPin : ref) : State :=
  let '(id, s) := uniqueId s "link" in
  let s := set_links (OMap.set (links s) id (mkLink id startPin endPin)) s in
  let s := update_pin startPin
             (fun p => set_pin_links (pin_links p ++ [id]) p) s in
  update_pin endPin (fun p => set_pin_links (pin_links p ++ [id]) p) s.

Definition breakLinkById (s : State) (linkId : string) : State :=
  match OMap.get (links s) linkId with
  | None => s
  | Some link =>
      let keep := List.filter (fun id => negb (bool_decide (id = linkId))) in
      let s := update_pin (link_startPin link)
                 (fun p => set_pin_links (keep (pin_links p)) p) s in
      let s := update_pin (link_endPin link)
                 (fun p => set_pin_links (keep (pin_links p)) p) s in
      let s := set_links (OMap.delete (links s) linkId) s in
      let s := set_selectedLinks (OSet.delete (selectedLinks s) linkId) s in
      defer [AutoSave; MarkDirty] s
  end.

Definition breakPinLinks (s : State) (pinId : string) : State :=
  fold_left (fun s link => breakLinkById s (link_id link))
            (findLinksByPinId s pinId) s.

(** *** GraphController: selection *)

Definition clearSelection (s : State) : State :=
  set_selectedNodes [] s.

Definition selectNode (s : State) (nodeId : string) (addToSelection : bool)
    (mode : selectMode) : State :=
  match OMap.get (nodes s) nodeId with
  | None => s
  | Some _ =>
      let s := if addToSelection then s else clearSelection s in
      match mode with
      | ModeAdd => set_selectedNodes (OSet.add (selectedNodes s) nodeId) s
      | ModeRemove =>
          set_selectedNodes (OSet.delete (selectedNodes s) nodeId) s
      | ModeToggle =>
          if OSet.has (selectedNodes s) nodeId
          then set_selectedNodes (OSet.delete (selectedNodes s) nodeId) s
          else set_selectedNodes (OSet.add (selectedNodes s) nodeId) s
      | ModeNew => set_selectedNodes (OSet.add (selectedNodes s) nodeId) s
      end
  end.

(** *** GraphController: nodes *)

Definition addNode (s : State) (nodeKey : string) (x y : Z)
    : option Node * State :=
  match nodeRegistry nodeKey with
  | None => (None, s)
  | Some nodeData =>
      let existingNode :=
        if t_isSingleton nodeData
        then List.find (fun n => bool_decide (node_nodeKey n = nodeKey))
                       (OMap.values (nodes s))
        else None in
      match existingNode with
      | Some existing => (None, selectNode s (node_id existing) false ModeNew)
      | None =>
          let '(id, s) := uniqueId s "node" in
          let '(node, s) :=
            new_Node s id (t_title nodeData) (t_pins nodeData) x y nodeKey in
          let s := set_nodes (OMap.set (nodes s) id node) s in
          (Some node, notify [MarkDirty] s)
      end
  end.

Definition findPinById (s : State) (pinId : option string) : option ref :=
  match pinId with
  | None => None
  | Some pinId =>
      if decide (pinId = "") then None
      else match Str.split "-" pinId with
           | p0 :: p1 :: _ =>
               match OMap.get (nodes s) (p0 +:+ "-" +:+ p1) with
               | Some node => node_findPinById s node pinId
               | None => None
               end
           | _ => None
           end
  end.

Definition canConnect (s : State) (pinA pinB : option ref) : bool :=
  match pinA, pinB with
  | Some a, Some b =>
      let pinA := deref s a in
      let pinB := deref s b in
      if decide (pin_node pinA = pin_node pinB) then false
      else if decide (pin_dir pinA = pin_dir pinB) then false
      else
        let startPin := if decide (pin_dir pinA = DirOut) then pinA else pinB in
        let endPin := if decide (pin_dir pinA = DirIn) then pinA else pinB in
        if decide (pin_containerType startPin = pin_containerType endPin)
        then
          if decide (pin_type startPin = pin_type endPin) then true
          else if bool_decide (pin_type startPin = "exec")
                  && bool_decide (pin_type endPin = "exec") then true
          else match getConversionNodeKey (pin_type startPin)
                                          (pin_type endPin) with
               | Some _ => true
               | None => false
               end
        else false
  | _, _ => false
  end.

(** *** WiringController: connections *)

(** [startPin] and [endPin] of [createConnection] and [canConnect]. *)
Definition startPinOf (s : State) (a b : ref) : ref :=
  if decide (pin_dir (deref s a) = DirOut) then a else b.

Definition endPinOf (s : State) (a b : ref) : ref :=
  if decide (pin_dir (deref s a) = DirIn) then a else b.

(** The first step of [createConnection]: a connected end pin of capacity
    one loses its links. *)
Definition replaceOnConnect (s : State) (endPin : ref) : State :=
  if bool_decide (getMaxLinks (deref s endPin) = Some 1%nat)
     && isConnected (deref s endPin)
  then breakPinLinks s (pin_id (deref s endPin))
  else s.

Definition createConnection (s : State) (pinA pinB : option ref) : State :=
  match pinA, pinB with
  | Some a, Some b =>
      let startPin := startPinOf s a b in
      let endPin := endPinOf s a b in
      let s := replaceOnConnect s endPin in
      let isExecPin :=
        bool_decide (pin_type (deref s startPin) = "exec")
        || bool_decide (pin_type (deref s endPin) = "exec") in
      let typesMatch :=
        bool_decide (pin_type (deref s startPin)
                     = pin_type (deref s endPin)) in
      let direct (s : State) : State :=
        notify [AutoSave; MarkDirty] (_addLink s startPin endPin) in
      if negb isExecPin && negb typesMatch then
        match getConversionNodeKey (pin_type (deref s startPin))
                                   (pin_type (deref s endPin)) with
        | Some convKey =>
            let startPos := getPinPosition (deref s startPin) in
            let endPos := getPinPosition (deref s endPin) in
            let midX := (fst startPos + fst endPos) / 2 in
            let midY := (snd startPos + snd endPos) / 2 in
            match addNode s convKey (midX - 40) (midY - 15) with
            | (Some convNode, s) =>
                match node_findPinById s convNode
                        (node_id convNode +:+ "-val_in"),
                      node_findPinById s convNode
                        (node_id convNode +:+ "-val_out") with
                | Some convIn, Some convOut =>
                    let s := _addLink s startPin convIn in
                    let s := _addLink s convOut endPin in
                    notify [AutoSave; MarkDirty] s
                | _, _ =>
                    direct (set_nodes
                              (OMap.delete (nodes s) (node_id convNode)) s)
                end
            | (None, s) => direct s
            end
        | None => direct s
        end
      else direct s
  | _, _ => s
  end.

(** *** GraphController: delete and duplicate *)




(** The inner loop of [duplicateSelectedNodes]:
    [oldNode.pins.forEach((oldPin, index) => ...)].  Reading [.id] of a
    missing [newNode.pins[index]] throws. *)
Fixpoint mapPinIds (s : State) (oldPins newPins : list ref)
    (oldToNewPinIds : omap string) : option (omap string) :=
  match oldPins with
  | [] => Some oldToNewPinIds
  | oldPin :: oldPins' =>
      match newPins with
      | [] => None
      | newPin :: newPins' =>
          mapPinIds s oldPins' newPins'
            (OMap.set oldToNewPinIds (pin_id (deref s oldPin))
                      (pin_id (deref s newPin)))
      end
  end.

(** The first loop of [duplicateSelectedNodes], over the selection.
    [inl] is a [TypeError]: [addNode] returned [null], or the copy has
    fewer pins than the original. *)
Fixpoint duplicateNodes (s : State) (selection : list string)
    (oldToNewPinIds : omap string) (newSelection : list string)
    : State + State * omap string * list string :=
  match selection with
  | [] => inr (s, oldToNewPinIds, newSelection)
  | nodeId :: selection' =>
      match OMap.get (nodes s) nodeId with
      | None => duplicateNodes s selection' oldToNewPinIds newSelection
      | Some oldNode =>
          match addNode s (node_nodeKey oldNode)
                        (node_x oldNode + 20) (node_y oldNode + 20) with
          | (None, s) => inl s
          | (Some newNode, s) =>
              match mapPinIds s (node_pins oldNode) (node_pins newNode)
                              oldToNewPinIds with
              | None => inl s
              | Some oldToNewPinIds =>
                  duplicateNodes s selection' oldToNewPinIds
                                 (newSelection ++ [node_id newNode])
              end
          end
      end
  end.

(** One round of the second loop of [duplicateSelectedNodes]. *)
Definition duplicateLink (oldToNewPinIds : omap string) (s : State)
    (link : Link) : State :=
  let startNodeIsSelected :=
    OSet.has (selectedNodes s) (pin_node (deref s (link_startPin link))) in
  let endNodeIsSelected :=
    OSet.has (selectedNodes s) (pin_node (deref s (link_endPin link))) in
  if startNodeIsSelected && endNodeIsSelected then
    let newStartPin :=
      findPinById s (OMap.get oldToNewPinIds
                              (pin_id (deref s (link_startPin link)))) in
    let newEndPin :=
      findPinById s (OMap.get oldToNewPinIds
                              (pin_id (deref s (link_endPin link)))) in
    match newStartPin, newEndPin with
    | Some _, Some _ => createConnection s newStartPin newEndPin
    | _, _ => s
    end
  else s.

(** A round of that loop for the link stored under [linkId], if it is
    still there. *)
Definition duplicateLinkById (oldToNewPinIds : omap string) (s : State)
    (linkId : string) : State :=
  match OMap.get (links s) linkId with
  | Some link => duplicateLink oldToNewPinIds s link
  | None => s
  end.

(** [duplicateSelectedNodes].  With an empty selection the source calls
    [this.app.wiring.deleteSelectedLinks()], a method that
    [WiringController] does not have: a [TypeError].
    The second loop runs over the links that exist when it starts and are
    still there when their turn comes; the links made during the loop join
    pins of nodes made by this call, whose identifiers are fresh and so not
    selected: visiting them does nothing. *)
Definition duplicateSelectedNodes (s : State) : outcome :=
  match selectedNodes s with
  | [] => TypeError s
  | _ :: _ =>
      match duplicateNodes s (selectedNodes s) [] [] with
      | inl s => TypeError s
      | inr (s, oldToNewPinIds, newSelection) =>
          let s :=
            fold_left (duplicateLinkById oldToNewPinIds)
                      (OMap.keys (links s)) s in
          let s := clearLinkSelection s in
          let s := clearSelection s in
          let s :=
            fold_left (fun s nodeId => selectNode s nodeId true ModeAdd)
                      newSelection s in
          Returned (notify [AutoSave] s)
      end
  end.

(** *** GraphController: template resynchronization *)





(** *** GraphController: node-move completion *)

(** [Math.round(v / 10) * 10] on an integer. *)
Definition snap (v : Z) : Z := ((v + 5) / 10) * 10.

Definition snapSelectedNodesToGrid (s : State) : State :=
  fold_left
    (fun s nodeId =>
       match OMap.get (nodes s) nodeId with
       | Some node =>
           set_nodes
             (OMap.set (nodes s) nodeId
                (set_node_pos (snap (node_x node)) (snap (node_y node)) node))
             s
       | None => s
       end)
    (selectedNodes s) s.


(** *** GraphController: loadState *)

(** A saved pin used as a pin specification, [new Pin(node, savedPin)]:
    saved pins carry no default. *)
Definition spec_of_saved (p : SavedPin) : PinSpec :=
  mkPinSpec (sp_id p) (sp_name p) (sp_type p) (sp_dir p)
            (sp_containerType p) VUndefined (sp_isCustom p).

(** The body of [nodeData.pins.forEach(savedPin => ...)]. *)
Definition restoreLiteral (s : State) (node : Node) (savedPin : SavedPin)
    : Node :=
  let fullPinId :=
    if Str.includes (node_id node) (sp_id savedPin) then sp_id savedPin
    else node_id node +:+ "-" +:+ sp_id savedPin in
  match node_findPinById s node fullPinId with
  | Some pin =>
      if decide (sp_literalValue savedPin = VUndefined)
      then set_node_pinLiterals
             (OMap.set (node_pinLiterals node) (pin_id (deref s pin))
                       (pin_defaultValue (deref s pin))) node
      else set_node_pinLiterals
             (OMap.set (node_pinLiterals node) (pin_id (deref s pin))
                       (sp_literalValue savedPin)) node
  | None => node
  end.

(** The body of [state.nodes.forEach(nodeData => ...)]. *)
Definition loadNode (s : State) (nodeData : SavedNode) : State :=
  match nodeRegistry (sn_nodeKey nodeData) with
  | None => s
  | Some template =>
      let isCustomEvent := bool_decide (sn_nodeKey nodeData = "CustomEvent") in
      let savedPins :=
        if isCustomEvent then
          option_map
            (List.filter
               (fun p => negb (bool_decide (sp_id p = "delegate_out"))
                      && negb (bool_decide (sp_name p = "Output Delegate"))))
            (sn_pins nodeData)
        else sn_pins nodeData in
      let pinsToLoad :=
        if isCustomEvent then
          match savedPins with
          | Some pins =>
              if bool_decide (length (t_pins template) < length pins)%nat
              then map spec_of_saved pins else t_pins template
          | None => t_pins template
          end
        else t_pins template in
      let '(node, s) :=
        new_Node s (sn_id nodeData) (t_title template) pinsToLoad
                 (sn_x nodeData) (sn_y nodeData) (sn_nodeKey nodeData) in
      let node :=
        match savedPins with
        | Some pins => fold_left (restoreLiteral s) pins node
        | None => node
        end in
      set_nodes (OMap.set (nodes s) (node_id node) node) s
  end.

(** The body of [state.links.forEach(linkData => ...)]. *)
Definition loadLink (s : State) (linkData : SavedLink) : State :=
  match findPinById s (Some (sl_startPinId linkData)),
        findPinById s (Some (sl_endPinId linkData)) with
  | Some startPin, Some endPin =>
      let id := sl_id linkData in
      let s := set_links (OMap.set (links s) id
                            (mkLink id startPin endPin)) s in
      let s := update_pin startPin
                 (fun p => set_pin_links (pin_links p ++ [id]) p) s in
      update_pin endPin (fun p => set_pin_links (pin_links p ++ [id]) p) s
  | _, _ => s
  end.

Definition loadState (s : State) (state : SavedState) : State :=
  let s := set_nodes [] s in
  let s := set_links [] s in
  let s := fold_left loadNode (st_nodes state) s in
  fold_left loadLink (st_links state) s.

End Controllers.




(** * Properties *)

(** ** Facts on insertion-ordered maps *)

Module OMapFacts.
Section Facts.
Context {V : Type}.
Implicit Types (m : omap V) (k : string) (v : V).

Lemma get_set_eq m k v : OMap.get (OMap.set m k v) k = Some v.
Proof.
  induction m as [|[k' v'] m IH]; simpl.
  - by rewrite decide_True.
  - destruct (decide (k' = k)) as [->|Hne]; simpl.
    + by rewrite decide_True.
    + by rewrite decide_False.
Qed.

Lemma get_set_ne m k k' v :
  k ≠ k' → OMap.get (OMap.set m k v) k' = OMap.get m k'.
Proof.
  intros Hne. induction m as [|[k0 v0] m IH]; simpl.
  - by rewrite decide_False.
  - destruct (decide (k0 = k)) as [->|Hne0]; simpl.
    + by rewrite !decide_False.
    + by rewrite IH.
Qed.

Lemma get_delete_eq m k : OMap.get (OMap.delete m k) k = None.
Proof.
  induction m as [|[k' v'] m IH]; simpl; [done|].
  destruct (decide (k' = k)); simpl; [done|]. by rewrite decide_False.
Qed.

Lemma get_delete_ne m k k' :
  k ≠ k' → OMap.get (OMap.delete m k) k' = OMap.get m k'.
Proof.
  intros Hne. induction m as [|[k0 v0] m IH]; simpl; [done|].
  destruct (decide (k0 = k)) as [->|Hne0]; simpl.
  - by rewrite decide_False.
  - by rewrite IH.
Qed.

Lemma get_delete_None m k k' :
  OMap.get m k' = None → OMap.get (OMap.delete m k) k' = None.
Proof.
  intros H. destruct (decide (k = k')) as [->|Hne].
  - apply get_delete_eq.
  - by rewrite get_delete_ne.
Qed.

Lemma set_fresh m k v :
  OMap.get m k = None → OMap.set m k v = m ++ [(k, v)].
Proof.
  induction m as [|[k' v'] m IH]; simpl; [done|].
  destruct (decide (k' = k)); [done|]. intros H. by rewrite IH.
Qed.

Lemma delete_fresh m k : OMap.get m k = None → OMap.delete m k = m.
Proof.
  induction m as [|[k' v'] m IH]; simpl; [done|].
  destruct (decide (k' = k)); [done|]. intros H. by rewrite IH.
Qed.

Lemma delete_app m1 m2 k :
  OMap.delete (m1 ++ m2) k = OMap.delete m1 k ++ OMap.delete m2 k.
Proof.
  induction m1 as [|[k' v'] m1 IH]; simpl; [done|].
  destruct (decide (k' = k)); simpl; by rewrite IH.
Qed.

Lemma delete_set_fresh m k v :
  OMap.get m k = None → OMap.delete (OMap.set m k v) k = m.
Proof.
  intros H. rewrite set_fresh by done. rewrite delete_app, delete_fresh by done.
  simpl. rewrite decide_True by done. by rewrite app_nil_r.
Qed.

Lemma get_app m1 m2 k :
  OMap.get (m1 ++ m2) k =
  match OMap.get m1 k with Some v => Some v | None => OMap.get m2 k end.
Proof.
  induction m1 as [|[k' v'] m1 IH]; simpl; [done|].
  by destruct (decide (k' = k)).
Qed.

Lemma get_Some_elem m k v : OMap.get m k = Some v → (k, v) ∈ m.
Proof.
  induction m as [|[k' v'] m IH]; simpl; [done|].
  destruct (decide (k' = k)) as [->|Hne]; intros H.
  - simplify_eq. left.
  - right. by apply IH.
Qed.

Lemma get_None_keys m k : OMap.get m k = None ↔ k ∉ OMap.keys m.
Proof.
  unfold OMap.keys. induction m as [|[k' v'] m IH]; simpl.
  - split; [intros _; apply not_elem_of_nil|done].
  - rewrite not_elem_of_cons. destruct (decide (k' = k)) as [->|Hne].
    + split; [done|]. intros [? _]. done.
    + rewrite IH. split; [|tauto]. intros; split; [congruence|done].
Qed.

Lemma elem_get m k v : (k, v) ∈ m → is_Some (OMap.get m k).
Proof.
  intros H. destruct (OMap.get m k) eqn:E; [eauto|].
  apply get_None_keys in E. exfalso. apply E. unfold OMap.keys.
  apply list_elem_of_fmap. by exists (k, v).
Qed.

Lemma get_NoDup m k v :
  NoDup (OMap.keys m) → (k, v) ∈ m → OMap.get m k = Some v.
Proof.
  unfold OMap.keys. induction m as [|[k' v'] m IH]; simpl.
  - intros _ H. by apply elem_of_nil in H.
  - intros Hnd H. apply NoDup_cons in Hnd as [Hk Hnd].
    apply elem_of_cons in H as [H|H].
    + simplify_eq. by rewrite decide_True.
    + destruct (decide (k' = k)) as [->|Hne]; [|by apply IH].
      exfalso. apply Hk. apply list_elem_of_fmap. by exists (k, v).
Qed.

Lemma elem_delete m k k' v :
  (k', v) ∈ OMap.delete m k ↔ (k', v) ∈ m ∧ k' ≠ k.
Proof.
  induction m as [|[k0 v0] m IH]; simpl.
  - split; [intros H; by apply elem_of_nil in H|].
    intros [H _]; by apply elem_of_nil in H.
  - destruct (decide (k0 = k)) as [->|Hne].
    + rewrite IH, elem_of_cons. split; [tauto|].
      intros [[H|H] Hne]; [by simplify_eq|done].
    + rewrite !elem_of_cons, IH. split; [|tauto].
      intros [H|[H1 H2]]; [simplify_eq; tauto|tauto].
Qed.

Lemma keys_delete_NoDup m k :
  NoDup (OMap.keys m) → NoDup (OMap.keys (OMap.delete m k)).
Proof.
  unfold OMap.keys. induction m as [|[k0 v0] m IH]; simpl; [done|].
  intros Hnd. apply NoDup_cons in Hnd as [Hk Hnd].
  destruct (decide (k0 = k)); [by apply IH|]. simpl.
  apply NoDup_cons. split; [|by apply IH].
  intros Hin. apply Hk. apply list_elem_of_fmap in Hin as [[k1 v1] [-> Hin]].
  apply elem_delete in Hin as [Hin _]. apply list_elem_of_fmap.
  by exists (k1, v1).
Qed.

Lemma keys_set_present m k v :
  is_Some (OMap.get m k) → OMap.keys (OMap.set m k v) = OMap.keys m.
Proof.
  unfold OMap.keys. induction m as [|[k0 v0] m IH]; simpl.
  - intros [? ?]. done.
  - destruct (decide (k0 = k)) as [->|Hne]; simpl; [done|].
    intros H. by rewrite IH.
Qed.

Lemma elem_set m k v k' v' :
  (k', v') ∈ OMap.set m k v → (k' = k ∧ v' = v) ∨ (k', v') ∈ m.
Proof.
  induction m as [|[k0 v0] m IH]; simpl.
  - intros H. apply list_elem_of_singleton in H. simplify_eq. by left.
  - destruct (decide (k0 = k)) as [->|Hne].
    + rewrite !elem_of_cons. intros [H|H]; [simplify_eq; by left|].
      right. by right.
    + rewrite !elem_of_cons. intros [H|H].
      * simplify_eq. right. by left.
      * destruct (IH H) as [?|?]; [by left|]. right. by right.
Qed.
Lemma get_fold_set_other (l : list (string * V)) m k :
  k ∉ map fst l →
  OMap.get (fold_left (fun m kv => OMap.set m (fst kv) (snd kv)) l m) k
  = OMap.get m k.
Proof.
  revert m. induction l as [|[k0 v0] l IH]; intros m Hk; simpl; [done|].
  simpl in Hk. apply not_elem_of_cons in Hk as [Hne Hk].
  rewrite IH by done. by apply get_set_ne.
Qed.


Lemma get_fold_set_NoDup (l : list (string * V)) m k v :
  NoDup (map fst l) → (k, v) ∈ l →
  OMap.get (fold_left (fun m kv => OMap.set m (fst kv) (snd kv)) l m) k
  = Some v.
Proof.
  revert m. induction l as [|[k0 v0] l IH]; intros m Hnd Hin; simpl in *.
  - by apply elem_of_nil in Hin.
  - apply NoDup_cons in Hnd as [Hk0 Hnd].
    apply elem_of_cons in Hin as [Hin|Hin].
    + simplify_eq. rewrite get_fold_set_other by done. apply get_set_eq.
    + by apply IH.
Qed.


End Facts.
End OMapFacts.

(** ** Facts on strings *)

Module StrFacts.

Lemma append_nil (s : string) : "" +:+ s = s.
Proof. reflexivity. Qed.

Lemma append_cons (x : ascii) (a b : string) :
  String x a +:+ b = String x (a +:+ b).
Proof. reflexivity. Qed.

Lemma app_assoc (a b c : string) : (a +:+ b) +:+ c = a +:+ (b +:+ c).
Proof.
  induction a as [|x a IH]; [done|]. rewrite !append_cons. by f_equal.
Qed.

Lemma app_inv_head (p a b : string) : p +:+ a = p +:+ b → a = b.
Proof.
  induction p as [|x p IH]; [done|]. rewrite !append_cons.
  intros H. apply IH. congruence.
Qed.

Lemma drop_prefix_app (p s : string) : Str.drop_prefix p (p +:+ s) = Some s.
Proof.
  induction p as [|x p IH]; [by destruct s|].
  rewrite append_cons. simpl. by rewrite Ascii.eqb_refl.
Qed.


Lemma split_nonempty c s : Str.split c s ≠ [].
Proof.
  induction s as [|x s IH]; simpl; [done|].
  destruct (Ascii.eqb x c); [done|]. by destruct (Str.split c s).
Qed.

Lemma split_free c s : Str.free_of c s = true → Str.split c s = [s].
Proof.
  induction s as [|x s IH]; simpl; [done|].
  destruct (Ascii.eqb x c); simpl; [done|]. intros H. by rewrite IH.
Qed.

Lemma split_app c a b :
  Str.split c (a +:+ String c b) = Str.split c a ++ Str.split c b.
Proof.
  induction a as [|x a IH].
  - rewrite append_nil. simpl. by rewrite Ascii.eqb_refl.
  - rewrite append_cons. simpl.
    destruct (Ascii.eqb x c); simpl; [by rewrite IH|].
    rewrite IH. pose proof (split_nonempty c a).
    by destruct (Str.split c a).
Qed.

Lemma free_app c a b :
  Str.free_of c (a +:+ b) = Str.free_of c a && Str.free_of c b.
Proof.
  induction a as [|x a IH]; [done|]. rewrite append_cons. simpl.
  rewrite IH. by rewrite andb_assoc.
Qed.

Lemma free_pretty_N_go (x : N) (s : string) :
  Str.free_of "-" s = true → Str.free_of "-" (pretty_N_go x s) = true.
Proof.
  revert s. induction (N.lt_wf_0 x) as [x _ IH]; intros s Hs.
  destruct (decide (x = 0)%N) as [->|Hx].
  - by rewrite pretty_N_go_0.
  - rewrite pretty_N_go_step by lia. apply IH.
    + apply N.div_lt; lia.
    + simpl. rewrite Hs, andb_true_r.
      unfold pretty_N_char. by repeat case_match.
Qed.

Lemma free_pretty_nat (n : nat) : Str.free_of "-" (pretty n) = true.
Proof.
  unfold pretty, pretty_nat, pretty, pretty_N.
  case_decide; [done|]. by apply free_pretty_N_go.
Qed.

(** A pin identifier [<prefix>-<counter>-<local>] splits into the two
    parts of the node identifier and the parts of the local one. *)
Lemma split_unique_pin (prefix loc : string) (n : nat) :
  Str.free_of "-" prefix = true →
  Str.split "-" ((prefix +:+ "-" +:+ pretty n) +:+ "-" +:+ loc)
  = prefix :: pretty n :: Str.split "-" loc.
Proof.
  intros Hp. change ("-" +:+ loc) with (String "-" loc).
  rewrite split_app. change ("-" +:+ pretty n) with (String "-" (pretty n)).
  rewrite split_app, !split_free by (done || apply free_pretty_nat). done.
Qed.

Lemma split_one c s b : Str.split c s = [b] → s = b.
Proof.
  revert b. induction s as [|x s IH]; intros b; simpl.
  - by intros [= <-].
  - destruct (Ascii.eqb x c).
    + intros [= <- H]. by apply split_nonempty in H.
    + destruct (Str.split c s) as [|h t] eqn:E;
        [by apply split_nonempty in E|].
      intros [= <- ->]. f_equal. by apply IH.
Qed.

Lemma split_two c s a b : Str.split c s = [a; b] → s = a +:+ String c b.
Proof.
  revert a. induction s as [|x s IH]; intros a; simpl; [done|].
  destruct (Ascii.eqb x c) eqn:Ex.
  - intros [= <- H]. apply Ascii.eqb_eq in Ex as ->.
    rewrite append_nil. f_equal. by apply split_one in H.
  - destruct (Str.split c s) as [|h t] eqn:E; [intros H; discriminate H|].
    intros [= <- ->]. rewrite append_cons. f_equal. by apply IH.
Qed.

End StrFacts.

(** ** Facts on sets, pins and the store *)

Lemma OSet_elem_add (s : oset) (k j : string) :
  j ∈ OSet.add s k ↔ j = k ∨ j ∈ s.
Proof.
  unfold OSet.add, OSet.has. case_bool_decide as Hk.
  - split; [by right|]. intros [->|?]; done.
  - rewrite elem_of_app, list_elem_of_singleton. tauto.
Qed.

Lemma OSet_elem_delete (s : oset) (k j : string) :
  j ∈ OSet.delete s k ↔ j ≠ k ∧ j ∈ s.
Proof. unfold OSet.delete. by rewrite list_elem_of_filter. Qed.

Lemma deref_update_pin (r r' : ref) (f : Pin -> Pin) (s : State) :
  deref (update_pin r f s) r'
  = if decide (r = r' ∧ (r < length (heap s))%nat) then f (deref s r)
    else deref s r'.
Proof. unfold deref, update_pin. simpl. apply list_lookup_total_alter. Qed.

Lemma deref_update_pin_ne (r r' : ref) (f : Pin -> Pin) (s : State) :
  r ≠ r' → deref (update_pin r f s) r' = deref s r'.
Proof. intros H. rewrite deref_update_pin. rewrite decide_False; [done|tauto]. Qed.

(** Updating the link list of a pin leaves every other attribute of every
    pin as it is. *)
Lemma deref_update_links (r r' : ref) (g : Pin -> list string) (s : State) :
  set_pin_links [] (deref (update_pin r (fun p => set_pin_links (g p) p) s) r')
  = set_pin_links [] (deref s r').
Proof.
  rewrite deref_update_pin. case_decide as H; [|done].
  destruct H as [-> _]. done.
Qed.

Lemma alter_links_lookup (h : list Pin) (r r' : ref) (g : Pin -> list string) :
  set_pin_links [] (alter (fun p => set_pin_links (g p) p) r h !!! r')
  = set_pin_links [] (h !!! r').
Proof.
  rewrite list_lookup_total_alter. case_decide as H; [|done].
  destruct H as [-> _]. done.
Qed.

(** Two pins that differ in their link lists only. *)
Definition same_pin (p q : Pin) : Prop :=
  set_pin_links [] p = set_pin_links [] q.

Lemma same_pin_fields (p q : Pin) :
  same_pin p q →
  pin_id p = pin_id q ∧ pin_node p = pin_node q ∧ pin_type p = pin_type q
  ∧ pin_dir p = pin_dir q ∧ pin_containerType p = pin_containerType q
  ∧ pin_defaultValue p = pin_defaultValue q ∧ pin_name p = pin_name q
  ∧ pin_isCustom p = pin_isCustom q.
Proof. unfold same_pin, set_pin_links. intros H. by inversion H. Qed.

(** ** The state invariants the properties rely on *)

(** The two [Map]s are keyed by the identifier of the object they hold. *)
Definition nodes_keyed (s : State) : Prop :=
  ∀ k n, (k, n) ∈ nodes s → node_id n = k.

Definition links_keyed (s : State) : Prop :=
  ∀ k l, (k, l) ∈ links s → link_id l = k.


(** The identifiers that [Utils.uniqueId] will hand out are not in use. *)
Definition fresh_link_ids (s : State) : Prop :=
  ∀ n, (nextId s ≤ n)%nat → OMap.get (links s) ("link-" +:+ pretty n) = None.

Definition fresh_node_ids (s : State) : Prop :=
  ∀ n, (nextId s ≤ n)%nat → OMap.get (nodes s) ("node-" +:+ pretty n) = None.

Section Properties.

Variable nodeRegistry : string -> option Template.
Variable getConversionNodeKey : string -> string -> option string.
Variable getPinPosition : Pin -> Z * Z.

(** *** canConnect *)

(** C2. [canConnect] is false when a pin is missing, when both pins are
    on one node, when they have one direction, when their container
    types differ; otherwise it is true when the value types are equal or
    both [exec], and else exactly when an adapter is registered from the
    type of the output pin to the type of the input pin. *)
Theorem canConnect_rules (s : State) :
  (∀ q, canConnect getConversionNodeKey s None q = false
        ∧ canConnect getConversionNodeKey s q None = false)
  ∧ (∀ a b, pin_node (deref s a) = pin_node (deref s b) →
            canConnect getConversionNodeKey s (Some a) (Some b) = false)
  ∧ (∀ a b, pin_dir (deref s a) = pin_dir (deref s b) →
            canConnect getConversionNodeKey s (Some a) (Some b) = false)
  ∧ (∀ a b, pin_containerType (deref s a) ≠ pin_containerType (deref s b) →
            canConnect getConversionNodeKey s (Some a) (Some b) = false)
  ∧ (∀ a b,
       pin_node (deref s a) ≠ pin_node (deref s b) →
       pin_dir (deref s a) ≠ pin_dir (deref s b) →
       pin_containerType (deref s a) = pin_containerType (deref s b) →
       let src := deref s (startPinOf s a b) in
       let dst := deref s (endPinOf s a b) in
       pin_dir src = DirOut ∧ pin_dir dst = DirIn
       ∧ (pin_type src = pin_type dst →
          canConnect getConversionNodeKey s (Some a) (Some b) = true)
       ∧ (pin_type src = "exec" ∧ pin_type dst = "exec" →
          canConnect getConversionNodeKey s (Some a) (Some b) = true)
       ∧ (pin_type src ≠ pin_type dst →
          (canConnect getConversionNodeKey s (Some a) (Some b) = true
           ↔ is_Some (getConversionNodeKey (pin_type src) (pin_type dst))))).
Proof.
  split; [intros q; by destruct q|].
  split; [intros a b H; unfold canConnect; by rewrite decide_True|].
  split.
  { intros a b H. unfold canConnect.
    case_decide; [done|]. by rewrite decide_True. }
  split.
  { intros a b H. unfold canConnect.
    destruct (pin_dir (deref s a)) eqn:Ea;
      destruct (pin_dir (deref s b)) eqn:Eb; simpl;
      repeat case_decide; try done; congruence. }
  intros a b Hn Hd Hc. unfold startPinOf, endPinOf, canConnect.
  destruct (decide (pin_node (deref s a) = pin_node (deref s b))); [done|].
  destruct (decide (pin_dir (deref s a) = pin_dir (deref s b))); [done|].
  destruct (pin_dir (deref s a)) eqn:Ea, (pin_dir (deref s b)) eqn:Eb;
    try done; simpl.
  all: rewrite (decide_True (P := pin_containerType _ = pin_containerType _))
    by done.
  all: split; [done|split; [done|]].
  all: destruct (decide (pin_type _ = pin_type _)) as [Ht|Ht];
    [split; [done|split; [done|intros ?; done]]|].
  all: split; [done|].
  all: split; [intros [H1 H2]; congruence|].
  all: intros _; destruct (bool_decide _ && bool_decide _) eqn:Ex;
    [apply andb_true_iff in Ex as [H1%bool_decide_eq_true H2%bool_decide_eq_true];
     congruence|].
  all: destruct (getConversionNodeKey _ _); split; eauto; try done.
  all: intros [? ?]; done.
Qed.

(** *** selectNode *)

(** C9, as the code has it.  On an existing node, the prior selection is
    dropped exactly when [addToSelection] is false, in every mode; on
    what is kept, [add] and [new] insert the node, [remove] takes it out
    and [toggle] flips it.  Nothing but the selection changes. *)
Theorem selectNode_membership (s : State) (nodeId : string)
    (addToSelection : bool) (mode : selectMode) :
  is_Some (OMap.get (nodes s) nodeId) →
  let kept := if addToSelection then selectedNodes s else [] in
  let s' := selectNode s nodeId addToSelection mode in
  (∀ j, j ∈ selectedNodes s' ↔
        match mode with
        | ModeAdd | ModeNew => j = nodeId ∨ j ∈ kept
        | ModeRemove => j ≠ nodeId ∧ j ∈ kept
        | ModeToggle =>
            (j = nodeId ∧ nodeId ∉ kept) ∨ (j ≠ nodeId ∧ j ∈ kept)
        end)
  ∧ s' = set_selectedNodes (selectedNodes s') s.
Proof.
  clear nodeRegistry getConversionNodeKey getPinPosition.
  intros [n Hn]. unfold selectNode. rewrite Hn. simpl.
  assert (Hk : selectedNodes
                 (if addToSelection then s else clearSelection s)
               = (if addToSelection then selectedNodes s else []))
    by (by destruct addToSelection).
  split.
  - intros j. destruct mode; simpl.
    + rewrite Hk. apply OSet_elem_add.
    + rewrite Hk. apply OSet_elem_delete.
    + rewrite Hk. unfold OSet.has. case_bool_decide as Hin; simpl.
      * rewrite OSet_elem_delete. split; [tauto|].
        intros [[_ ?]|?]; [done|tauto].
      * rewrite OSet_elem_add. split.
        -- intros [->|Hj]; [by left|]. right. split; [|done].
           intros ->. done.
        -- intros [[-> _]|[_ ?]]; [by left|by right].
    + rewrite Hk. apply OSet_elem_add.
  - clear Hk. destruct addToSelection, mode; simpl; try done;
      by destruct (OSet.has _ _).
Qed.

(** *** addNode on a singleton *)

(** C4, as the code has it.  Adding a singleton-flagged key that already
    has an instance returns no node and leaves the nodes, the links, the
    pins and the notifications as they are; the selection is replaced by
    the existing instance. *)
Theorem addNode_singleton_rejected (s : State) (nodeKey : string) (x y : Z)
    (t : Template) (k : string) (n : Node) :
  nodeRegistry nodeKey = Some t →
  t_isSingleton t = true →
  nodes_keyed s →
  (k, n) ∈ nodes s →
  node_nodeKey n = nodeKey →
  ∃ existing,
    existing ∈ OMap.values (nodes s)
    ∧ node_nodeKey existing = nodeKey
    ∧ addNode nodeRegistry s nodeKey x y
      = (None, set_selectedNodes [node_id existing] s).
Proof.
  intros Ht Hsing Hkeyed Hin Hkey. unfold addNode. rewrite Ht, Hsing.
  destruct (List.find _ (OMap.values (nodes s))) as [existing|] eqn:Ef.
  - apply find_some in Ef as [Hex Hk%bool_decide_eq_true].
    exists existing. split; [by apply list_elem_of_In|]. split; [done|].
    unfold selectNode.
    assert (is_Some (OMap.get (nodes s) (node_id existing))) as [e He].
    { apply list_elem_of_In in Hex. unfold OMap.values in Hex.
      apply list_elem_of_fmap in Hex as [[k' n'] [-> Hex]]. simpl.
      rewrite (Hkeyed _ _ Hex). by eapply OMapFacts.elem_get. }
    by rewrite He.
  - exfalso. eapply find_none in Ef.
    + apply bool_decide_eq_false in Ef. done.
    + apply list_elem_of_In. unfold OMap.values. apply list_elem_of_fmap.
      by exists (k, n).
Qed.

(** *** Breaking links only takes links away *)

(** [shrinks s s']: from [s] to [s'] links were removed and nothing else
    of the graph changed (pins keep all attributes but their link
    lists). *)
Record shrinks (s s' : State) : Prop := mkShrinks {
  shr_nodes : nodes s' = nodes s;
  shr_nextId : nextId s' = nextId s;
  shr_log : log s' = log s;
  shr_sel : selectedNodes s' = selectedNodes s;
  shr_len : length (heap s') = length (heap s);
  shr_pin : ∀ r, same_pin (deref s' r) (deref s r);
  shr_links : ∀ kv, kv ∈ links s' → kv ∈ links s;
  shr_get : ∀ k, OMap.get (links s) k = None → OMap.get (links s') k = None
}.

Lemma shrinks_refl (s : State) : shrinks s s.
Proof. by constructor. Qed.

Lemma shrinks_trans (s1 s2 s3 : State) :
  shrinks s1 s2 → shrinks s2 s3 → shrinks s1 s3.
Proof.
  intros H1 H2. constructor.
  - by rewrite (shr_nodes _ _ H2), (shr_nodes _ _ H1).
  - by rewrite (shr_nextId _ _ H2), (shr_nextId _ _ H1).
  - by rewrite (shr_log _ _ H2), (shr_log _ _ H1).
  - by rewrite (shr_sel _ _ H2), (shr_sel _ _ H1).
  - by rewrite (shr_len _ _ H2), (shr_len _ _ H1).
  - intros r. unfold same_pin.
    rewrite (shr_pin _ _ H2 r). apply (shr_pin _ _ H1 r).
  - intros kv Hkv. apply (shr_links _ _ H1), (shr_links _ _ H2), Hkv.
  - intros k Hk. apply (shr_get _ _ H2), (shr_get _ _ H1), Hk.
Qed.

Lemma shrinks_fold {A : Type} (f : State → A → State) (l : list A) :
  (∀ s x, shrinks s (f s x)) → ∀ s, shrinks s (fold_left f l s).
Proof.
  intros Hf. induction l as [|x l IH]; intros s; simpl.
  - apply shrinks_refl.
  - eapply shrinks_trans; [apply Hf|apply IH].
Qed.

Lemma breakLinkById_shrinks (s : State) (linkId : string) :
  shrinks s (breakLinkById s linkId).
Proof.
  unfold breakLinkById. destruct (OMap.get (links s) linkId) as [link|];
    [|apply shrinks_refl].
  constructor; simpl; try done.
  - by rewrite !length_alter.
  - intros r. unfold same_pin, deref. simpl.
    by rewrite !alter_links_lookup.
  - intros [k v] H. by apply OMapFacts.elem_delete in H as [? _].
  - intros k H. by apply OMapFacts.get_delete_None.
Qed.

Lemma breakPinLinks_shrinks (s : State) (pinId : string) :
  shrinks s (breakPinLinks s pinId).
Proof.
  unfold breakPinLinks. apply shrinks_fold.
  intros; apply breakLinkById_shrinks.
Qed.

Lemma replaceOnConnect_shrinks (s : State) (endPin : ref) :
  shrinks s (replaceOnConnect s endPin).
Proof.
  unfold replaceOnConnect.
  destruct (_ && _); [apply breakPinLinks_shrinks|apply shrinks_refl].
Qed.

Lemma shrinks_fresh_links (s s' : State) :
  shrinks s s' → fresh_link_ids s → fresh_link_ids s'.
Proof.
  intros Hs Hf n Hn. apply (shr_get _ _ Hs). apply Hf.
  rewrite <- (shr_nextId _ _ Hs). done.
Qed.

(** *** Adding a link *)

Lemma addLink_links (s : State) (a b : ref) :
  let id := "link-" +:+ pretty (nextId s) in
  links (_addLink s a b) = OMap.set (links s) id (mkLink id a b).
Proof. done. Qed.

Lemma addLink_frame (s : State) (a b : ref) :
  nodes (_addLink s a b) = nodes s
  ∧ nextId (_addLink s a b) = S (nextId s)
  ∧ log (_addLink s a b) = log s
  ∧ pending (_addLink s a b) = pending s
  ∧ selectedNodes (_addLink s a b) = selectedNodes s
  ∧ length (heap (_addLink s a b)) = length (heap s).
Proof.
  repeat split; try done. unfold _addLink; simpl. by rewrite !length_alter.
Qed.

Lemma addLink_pin (s : State) (a b r : ref) :
  same_pin (deref (_addLink s a b) r) (deref s r).
Proof.
  unfold same_pin, _addLink, uniqueId, deref. simpl.
  by rewrite !alter_links_lookup.
Qed.

Lemma addLink_pin_links (s : State) (a b r : ref) :
  (r < length (heap s))%nat →
  let id := "link-" +:+ pretty (nextId s) in
  pin_links (deref (_addLink s a b) r)
  = pin_links (deref s r) ++ (if decide (r = a) then [id] else [])
      ++ (if decide (r = b) then [id] else []).
Proof.
  intros Hr id. unfold _addLink, uniqueId, deref, update_pin. simpl.
  rewrite !list_lookup_total_alter, !length_alter.
  repeat case_decide; destruct_and?; subst; simpl;
    rewrite ?app_nil_r, <- ?app_assoc; try done;
    exfalso; intuition (lia || congruence).
Qed.

(** *** What addNode leaves alone *)

Lemma selectNode_frame (s : State) (id : string) (b : bool) (m : selectMode) :
  let s' := selectNode s id b m in
  heap s' = heap s ∧ nodes s' = nodes s ∧ links s' = links s
  ∧ nextId s' = nextId s ∧ log s' = log s ∧ pending s' = pending s.
Proof.
  unfold selectNode. destruct (OMap.get _ _); [|done].
  destruct b, m; simpl; try done; by destruct (OSet.has _ _).
Qed.

Lemma addNode_frame (s : State) (key : string) (x y : Z) :
  let s' := snd (addNode nodeRegistry s key x y) in
  links s' = links s
  ∧ (nextId s ≤ nextId s')%nat
  ∧ (∀ r, (r < length (heap s))%nat → deref s' r = deref s r)
  ∧ (length (heap s) ≤ length (heap s'))%nat.
Proof.
  unfold addNode. destruct (nodeRegistry key) as [t|]; [|by simpl].
  assert (∃ o : option Node,
            (if t_isSingleton t
             then List.find (fun n => bool_decide (node_nodeKey n = key))
                            (OMap.values (nodes s))
             else None) = o) as [[e|] ->] by eauto; simpl.
  - destruct (selectNode_frame s (node_id e) false ModeNew)
      as (Hh & _ & Hl & Hn & _ & _).
    rewrite Hl, Hn. unfold deref. rewrite Hh. by repeat split.
  - repeat split; try done; try lia.
    + intros r Hr. unfold deref; simpl. by rewrite lookup_total_app_l.
    + rewrite length_app. lia.
Qed.

(** *** createConnection *)

(** Every path of [createConnection] on two pins ends with [_addLink]
    into the end pin, followed by the two notifications. *)
Lemma createConnection_ends_with_addLink (s : State) (a b : ref) :
  ∃ s2 x,
    createConnection nodeRegistry getConversionNodeKey getPinPosition
      s (Some a) (Some b)
    = notify [AutoSave; MarkDirty] (_addLink s2 x (endPinOf s a b))
    ∧ (nextId s ≤ nextId s2)%nat
    ∧ (∀ k, OMap.get (links s) k = None → (∀ n : nat, k ≠ "link-" +:+ pretty n) →
            OMap.get (links s2) k = None).
Proof.
  unfold createConnection.
  pose proof (replaceOnConnect_shrinks s (endPinOf s a b)) as Hs1.
  set (s1 := replaceOnConnect s (endPinOf s a b)) in *.
  assert (Hn1 : nextId s1 = nextId s) by apply (shr_nextId _ _ Hs1).
  assert (Hdirect : ∃ s2 x,
             notify [AutoSave; MarkDirty]
               (_addLink s1 (startPinOf s a b) (endPinOf s a b))
             = notify [AutoSave; MarkDirty] (_addLink s2 x (endPinOf s a b))
             ∧ (nextId s ≤ nextId s2)%nat
             ∧ (∀ k, OMap.get (links s) k = None →
                     (∀ n : nat, k ≠ "link-" +:+ pretty n) →
                     OMap.get (links s2) k = None)).
  { exists s1, (startPinOf s a b). split; [done|]. split; [lia|].
    intros k Hk _. by apply (shr_get _ _ Hs1). }
  destruct (negb _ && negb _); [|exact Hdirect].
  destruct (getConversionNodeKey _ _) as [convKey|]; [|exact Hdirect].
  match goal with
  | |- context [addNode nodeRegistry s1 convKey ?x ?y] =>
      pose proof (addNode_frame s1 convKey x y) as Hadd;
      destruct (addNode nodeRegistry s1 convKey x y) as [[convNode|] s2]
  end; simpl in Hadd; destruct Hadd as (Hl2 & Hn2 & _ & _).
  - destruct (node_findPinById s2 convNode _) as [convIn|];
      [destruct (node_findPinById s2 convNode _) as [convOut|]|].
    + exists (_addLink s2 (startPinOf s a b) convIn), convOut.
      split; [done|]. split; [simpl; lia|].
      intros k Hk Hne. rewrite addLink_links. cbv zeta.
      rewrite OMapFacts.get_set_ne by (intros <-; by eapply Hne).
      rewrite Hl2. by apply (shr_get _ _ Hs1).
    + eexists _, _. split; [done|]. split; [simpl; lia|].
      intros k Hk _. simpl. rewrite Hl2. by apply (shr_get _ _ Hs1).
    + eexists _, _. split; [done|]. split; [simpl; lia|].
      intros k Hk _. simpl. rewrite Hl2. by apply (shr_get _ _ Hs1).
  - exists s2, (startPinOf s a b). split; [done|]. split; [lia|].
    intros k Hk _. rewrite Hl2. by apply (shr_get _ _ Hs1).
Qed.

(** C10. [createConnection] checks no legality rule: on any two pins,
    whatever their nodes, directions and container types, and provided
    only that the identifiers still to be generated are unused, the link
    collection afterwards holds a link, ending in the end pin, under an
    identifier that was not there before. *)
Theorem createConnection_always_links (s : State) (a b : ref) :
  fresh_link_ids s →
  ∃ id link,
    OMap.get
      (links (createConnection nodeRegistry getConversionNodeKey
                getPinPosition s (Some a) (Some b))) id = Some link
    ∧ OMap.get (links s) id = None
    ∧ link_endPin link = endPinOf s a b.
Proof.
  intros Hfresh.
  destruct (createConnection_ends_with_addLink s a b)
    as (s2 & x & -> & Hn & _).
  exists ("link-" +:+ pretty (nextId s2)), 
         (mkLink ("link-" +:+ pretty (nextId s2)) x (endPinOf s a b)).
  split; [|split; [by apply Hfresh|done]].
  simpl. apply OMapFacts.get_set_eq.
Qed.

(** *** Nodes built from a template *)

(** The pins [refs] are what [new Node] builds from [specs] for the node
    [id], apart from their link lists. *)
Definition pins_built (s : State) (id : string) (specs : list PinSpec)
    (refs : list ref) : Prop :=
  Forall2 (fun r p => same_pin (deref s r) (new_Pin id p)) refs specs.

Lemma pins_built_new (h : list Pin) (s : State) (id : string)
    (specs : list PinSpec) :
  heap s = h ++ map (new_Pin id) specs →
  pins_built s id specs (seq (length h) (length specs)).
Proof.
  intros Hh. apply Forall2_same_length_lookup_2.
  - by rewrite length_seq.
  - intros i r p Hr Hp. apply lookup_seq in Hr as [-> Hi].
    unfold deref. rewrite Hh.
    rewrite lookup_total_app_r by lia.
    replace (length h + i - length h)%nat with i by lia.
    erewrite list_lookup_total_correct; [done|].
    by rewrite list_lookup_fmap, Hp.
Qed.

Lemma pins_built_id (s : State) (id : string) (specs : list PinSpec)
    (refs : list ref) (i : nat) (r : ref) (p : PinSpec) :
  pins_built s id specs refs → refs !! i = Some r → specs !! i = Some p →
  same_pin (deref s r) (new_Pin id p).
Proof.
  intros H Hr Hp. unfold pins_built in H.
  by pose proof (Forall2_lookup_lr _ _ _ _ _ _ H Hr Hp).
Qed.

Lemma find_pins_built_None (s : State) (id loc : string)
    (specs : list PinSpec) (refs : list ref) :
  pins_built s id specs refs → loc ∉ map ps_id specs →
  List.find (fun r => bool_decide (pin_id (deref s r) = id +:+ "-" +:+ loc))
            refs = None.
Proof.
  induction 1 as [|r p refs specs Hrp _ IH]; simpl; [done|].
  intros Hnin. apply not_elem_of_cons in Hnin as [Hne Hnin].
  apply same_pin_fields in Hrp as (Hid & _). rewrite Hid. simpl.
  rewrite bool_decide_eq_false_2; [by apply IH|].
  intros Heq. apply StrFacts.app_inv_head, StrFacts.app_inv_head in Heq.
  done.
Qed.

Lemma find_pins_built_Some (s : State) (id : string)
    (specs : list PinSpec) (refs : list ref) (i : nat) (r : ref)
    (p : PinSpec) :
  pins_built s id specs refs → NoDup (map ps_id specs) →
  refs !! i = Some r → specs !! i = Some p →
  List.find (fun r => bool_decide (pin_id (deref s r)
                                   = id +:+ "-" +:+ ps_id p))
            refs = Some r.
Proof.
  intros H. revert i. induction H as [|r0 p0 refs specs Hrp _ IH];
    intros i Hnd Hr Hp; [done|].
  simpl in Hnd. apply NoDup_cons in Hnd as [Hnin Hnd].
  apply same_pin_fields in Hrp as (Hid & _). simpl. rewrite Hid. simpl.
  destruct i as [|i]; simpl in *.
  - simplify_eq. by rewrite bool_decide_eq_true_2.
  - rewrite bool_decide_eq_false_2; [by eapply IH|].
    intros Heq. apply StrFacts.app_inv_head, StrFacts.app_inv_head in Heq.
    apply Hnin. rewrite Heq. apply list_elem_of_fmap. exists p.
    split; [done|]. by eapply list_elem_of_lookup_2.
Qed.

(** [addNode] on a key of the catalog that is not singleton-flagged. *)
Lemma addNode_plain (s : State) (key : string) (x y : Z) (t : Template) :
  nodeRegistry key = Some t → t_isSingleton t = false →
  let id := "node-" +:+ pretty (nextId s) in
  let node := mkNode id x y key (t_title t)
                (seq (length (heap s)) (length (t_pins t))) [] in
  addNode nodeRegistry s key x y
  = (Some node,
     mkState (heap s ++ map (new_Pin id) (t_pins t))
             (OMap.set (nodes s) id node) (links s) (selectedNodes s)
             (selectedLinks s) (S (nextId s)) (log s ++ [MarkDirty])
             (pending s)).
Proof. intros Ht Hs. unfold addNode. by rewrite Ht, Hs. Qed.

(** C3, as the code has it.  When the pin types differ, an adapter key is
    registered and the adapter node just built lacks one of the ports
    [val_in], [val_out]: the adapter node is taken out of the node
    collection again, and the two pins are then linked directly: one link
    from the start pin to the end pin is added to what the
    replace-on-connect step left, and its identifier is appended to the
    link lists of both pins. *)
Theorem createConnection_adapter_rollback (s : State) (a b : ref)
    (convKey : string) (t : Template) :
  let startPin := startPinOf s a b in
  let endPin := endPinOf s a b in
  let s1 := replaceOnConnect s endPin in
  let s' := createConnection nodeRegistry getConversionNodeKey
              getPinPosition s (Some a) (Some b) in
  let id := "link-" +:+ pretty (S (nextId s)) in
  pin_type (deref s startPin) ≠ "exec" →
  pin_type (deref s endPin) ≠ "exec" →
  pin_type (deref s startPin) ≠ pin_type (deref s endPin) →
  getConversionNodeKey (pin_type (deref s startPin))
                       (pin_type (deref s endPin)) = Some convKey →
  nodeRegistry convKey = Some t →
  t_isSingleton t = false →
  ¬ ("val_in" ∈ map ps_id (t_pins t) ∧ "val_out" ∈ map ps_id (t_pins t)) →
  (startPin < length (heap s))%nat → (endPin < length (heap s))%nat →
  fresh_node_ids s → fresh_link_ids s →
  nodes s' = nodes s
  ∧ links s' = links s1 ++ [(id, mkLink id startPin endPin)]
  ∧ pin_links (deref s' startPin) = pin_links (deref s1 startPin) ++ [id]
  ∧ pin_links (deref s' endPin) = pin_links (deref s1 endPin) ++ [id].
Proof.
  intros startPin endPin s1 s' id Hes Hee Hty Hconv Ht Hsing Hports
    Hsv Hev Hfn Hfl.
  pose proof (replaceOnConnect_shrinks s endPin) as Hs1. fold s1 in Hs1.
  assert (Hts : pin_type (deref s1 startPin) = pin_type (deref s startPin))
    by (by destruct (same_pin_fields _ _ (shr_pin _ _ Hs1 startPin))
          as (_ & _ & ? & _)).
  assert (Hte : pin_type (deref s1 endPin) = pin_type (deref s endPin))
    by (by destruct (same_pin_fields _ _ (shr_pin _ _ Hs1 endPin))
          as (_ & _ & ? & _)).
  subst s'. unfold createConnection. fold startPin endPin s1.
  rewrite Hts, Hte.
  rewrite (bool_decide_eq_false_2 _ Hes), (bool_decide_eq_false_2 _ Hee),
    (bool_decide_eq_false_2 _ Hty). simpl. rewrite Hconv.
  rewrite (addNode_plain _ _ _ _ _ Ht Hsing). cbv zeta.
  rewrite (shr_nextId _ _ Hs1).
  set (nid := "node-" +:+ pretty (nextId s)).
  set (s2 := mkState _ _ _ _ _ _ _ _).
  set (convNode := mkNode _ _ _ _ _ _ _).
  assert (Hbuilt : pins_built s2 nid (t_pins t) (node_pins convNode)).
  { subst convNode; simpl. by apply pins_built_new. }
  assert (Hnone :
    node_findPinById s2 convNode (node_id convNode +:+ "-val_in") = None
    ∨ node_findPinById s2 convNode (node_id convNode +:+ "-val_out") = None).
  { destruct (decide ("val_in" ∈ map ps_id (t_pins t))) as [Hin|Hin].
    - right. apply (find_pins_built_None s2 nid "val_out" _ _ Hbuilt). tauto.
    - left. by apply (find_pins_built_None s2 nid "val_in" _ _ Hbuilt). }
  assert (Hroll :
    match node_findPinById s2 convNode (node_id convNode +:+ "-val_in"),
          node_findPinById s2 convNode (node_id convNode +:+ "-val_out") with
    | Some convIn, Some convOut =>
        notify [AutoSave; MarkDirty]
          (_addLink (_addLink s2 startPin convIn) convOut endPin)
    | _, _ =>
        notify [AutoSave; MarkDirty]
          (_addLink (set_nodes (OMap.delete (nodes s2) (node_id convNode)) s2)
             startPin endPin)
    end
    = notify [AutoSave; MarkDirty]
        (_addLink (set_nodes (OMap.delete (nodes s2) (node_id convNode)) s2)
           startPin endPin)).
  { destruct Hnone as [-> | ->]; [done|]. by destruct (node_findPinById _ _ _). }
  rewrite Hroll. clear Hroll Hnone.
  assert (Hdel : OMap.delete (nodes s2) (node_id convNode) = nodes s).
  { subst s2 convNode; simpl. rewrite (shr_nodes _ _ Hs1).
    apply OMapFacts.delete_set_fresh. by apply Hfn. }
  assert (Hstartend : startPin ≠ endPin) by (intros E; rewrite E in Hty; done).
  split; [exact Hdel|]. split.
  - simpl. apply OMapFacts.set_fresh.
    apply (shr_get _ _ Hs1). apply Hfl. lia.
  - assert (Hlen : length (heap s1) = length (heap s))
      by apply (shr_len _ _ Hs1).
    assert (Hd : ∀ r, (r < length (heap s))%nat →
                      deref (set_nodes (OMap.delete (nodes s2)
                                          (node_id convNode)) s2) r
                      = deref s1 r).
    { intros r Hr. unfold deref. simpl. by rewrite lookup_total_app_l by lia. }
    change (deref (notify ?l ?x)) with (deref x).
    rewrite !addLink_pin_links by (simpl; rewrite length_app; lia).
    rewrite !Hd by done. simpl.
    rewrite (decide_True (P := startPin = startPin)) by done.
    rewrite (decide_True (P := endPin = endPin)) by done.
    rewrite (decide_False (P := startPin = endPin)) by done.
    rewrite (decide_False (P := endPin = startPin)) by done.
    by rewrite !app_nil_r.
Qed.

(** *** Notifications *)

(** The log only grows. *)
Definition log_extends (s s' : State) : Prop :=
  ∃ evs, log s' = log s ++ evs.



Lemma log_extends_eq (s s' : State) : log s' = log s → log_extends s s'.
Proof. intros H. exists []. by rewrite app_nil_r. Qed.


Lemma addNode_log (s : State) (key : string) (x y : Z) :
  match addNode nodeRegistry s key x y with
  | (Some _, s') => log s' = log s ++ [MarkDirty] ∧ pending s' = pending s
  | (None, s') => log s' = log s ∧ pending s' = pending s
  end.
Proof.
  unfold addNode. destruct (nodeRegistry key) as [t|]; [|done].
  assert (∃ o : option Node,
            (if t_isSingleton t
             then List.find (fun n => bool_decide (node_nodeKey n = key))
                            (OMap.values (nodes s))
             else None) = o) as [[e|] ->] by eauto; simpl; [|done].
  by destruct (selectNode_frame s (node_id e) false ModeNew)
    as (_ & _ & _ & _ & ? & ?).
Qed.

Lemma addNode_log_extends (s : State) (key : string) (x y : Z) :
  log_extends s (snd (addNode nodeRegistry s key x y)).
Proof.
  pose proof (addNode_log s key x y) as H.
  destruct (addNode nodeRegistry s key x y) as [[n|] s']; simpl.
  - exists [MarkDirty]. tauto.
  - apply log_extends_eq. tauto.
Qed.













(** *** deleteSelectedNodes *)


Lemma breakLinkById_gone (s : State) (linkId : string) :
  OMap.get (links (breakLinkById s linkId)) linkId = None.
Proof.
  unfold breakLinkById. destruct (OMap.get (links s) linkId) eqn:E; [|done].
  simpl. apply OMapFacts.get_delete_eq.
Qed.

Lemma break_fold_gone (found : list Link) (s : State) (x : Link) :
  x ∈ found →
  OMap.get
    (links (fold_left (fun s link => breakLinkById s (link_id link)) found s))
    (link_id x) = None.
Proof.
  revert s. induction found as [|y found IH]; intros s Hin.
  - by apply elem_of_nil in Hin.
  - simpl. apply elem_of_cons in Hin as [->|Hin]; [|by apply IH].
    match goal with
    | |- OMap.get (links (fold_left ?f found ?s0)) _ = None =>
        apply (shr_get s0 (fold_left f found s0))
    end.
    + apply shrinks_fold. intros; apply breakLinkById_shrinks.
    + apply breakLinkById_gone.
Qed.

(** After [breakPinLinks(pinId)] no link has an endpoint with that
    identifier. *)
Lemma breakPinLinks_clears (s : State) (pinId : string) (k : string)
    (l : Link) :
  links_keyed s → (k, l) ∈ links (breakPinLinks s pinId) →
  pin_id (deref s (link_startPin l)) ≠ pinId
  ∧ pin_id (deref s (link_endPin l)) ≠ pinId.
Proof.
  intros Hkeyed Hin.
  pose proof (breakPinLinks_shrinks s pinId) as Hs.
  pose proof (shr_links _ _ Hs _ Hin) as Hin0.
  assert (Hnot : l ∉ findLinksByPinId s pinId).
  { intros Hf. apply (break_fold_gone _ s) in Hf.
    fold (breakPinLinks s pinId) in Hf.
    apply OMapFacts.elem_get in Hin as [v Hv].
    rewrite (Hkeyed _ _ Hin0) in Hf. congruence. }
  unfold findLinksByPinId in Hnot.
  rewrite list_elem_of_In, filter_In, <- list_elem_of_In in Hnot.
  assert (Hv : l ∈ OMap.values (links s)).
  { unfold OMap.values. apply list_elem_of_fmap. by exists (k, l). }
  split; intros Heq; apply Hnot; (split; [done|]);
    apply orb_true_iff; [left|right]; by apply bool_decide_eq_true.
Qed.









(** *** synchronizeNodeWithTemplate *)


















(** *** loadState after serialize *)





Lemma pin_id_nonempty (nodeId loc : string) : nodeId +:+ "-" +:+ loc ≠ "".
Proof. by destruct nodeId. Qed.









Lemma pins_built_same (s s' : State) (id : string) (specs : list PinSpec)
    (refs : list ref) :
  (∀ r, r ∈ refs → same_pin (deref s' r) (deref s r)) →
  pins_built s id specs refs → pins_built s' id specs refs.
Proof.
  intros Hsame H. induction H as [|r p refs specs Hrp _ IH];
    constructor.
  - unfold same_pin in *. rewrite Hsame by left. exact Hrp.
  - apply IH. intros r' Hr'. apply Hsame. by right.
Qed.

Lemma pins_built_grow (s s' : State) (id : string) (specs : list PinSpec)
    (refs : list ref) (ext : list Pin) :
  heap s' = heap s ++ ext →
  (∀ r, r ∈ refs → (r < length (heap s))%nat) →
  pins_built s id specs refs → pins_built s' id specs refs.
Proof.
  intros Hh Hv. apply pins_built_same. intros r Hr.
  unfold same_pin, deref. by rewrite Hh, lookup_total_app_l by auto.
Qed.



Lemma find_ext_in {A : Type} (f g : A → bool) (l : list A) :
  (∀ x, x ∈ l → f x = g x) → List.find f l = List.find g l.
Proof.
  induction l as [|x l IH]; intros H; simpl; [done|].
  rewrite (H x) by left. destruct (g x); [done|].
  apply IH. intros y Hy. apply H. by right.
Qed.

Lemma findPinById_stable (s s' : State) (x : option string) :
  nodes s' = nodes s →
  (∀ r, pin_id (deref s' r) = pin_id (deref s r)) →
  findPinById s' x = findPinById s x.
Proof.
  intros Hn Hid. unfold findPinById. destruct x as [pinId|]; [|done].
  case_decide; [done|]. destruct (Str.split "-" pinId) as [|p0 [|p1 ?]];
    try done.
  rewrite Hn. destruct (OMap.get (nodes s) _) as [node|]; [|done].
  unfold node_findPinById. apply find_ext_in. intros r _. by rewrite Hid.
Qed.



Lemma keyed_ids {V : Type} (f : V → string) (m : omap V) :
  (∀ k v, (k, v) ∈ m → f v = k) → map f (OMap.values m) = OMap.keys m.
Proof.
  unfold OMap.values, OMap.keys. intros H. rewrite map_map.
  induction m as [|[k v] m IH]; simpl; [done|]. f_equal.
  - apply H. by left.
  - apply IH. intros k' v' Hin. apply H. by right.
Qed.





(** *** duplicateSelectedNodes *)

(** The map from old to new pin identifiers that one copied node
    contributes. *)
Definition dupMap (id nid : string) (specs : list PinSpec)
    (m : omap string) : omap string :=
  fold_left
    (fun m p => OMap.set m (id +:+ "-" +:+ ps_id p) (nid +:+ "-" +:+ ps_id p))
    specs m.

Lemma dupMap_entries (id nid : string) (specs : list PinSpec)
    (m : omap string) :
  dupMap id nid specs m
  = fold_left (fun m kv => OMap.set m (fst kv) (snd kv))
      (map (fun p => (id +:+ "-" +:+ ps_id p, nid +:+ "-" +:+ ps_id p)) specs)
      m.
Proof.
  unfold dupMap. revert m.
  induction specs as [|x l IH]; intros m; simpl; [done|]. by rewrite IH.
Qed.

Lemma dupMap_get_in (id nid : string) (specs : list PinSpec)
    (m : omap string) (p : PinSpec) :
  NoDup (map ps_id specs) → p ∈ specs →
  OMap.get (dupMap id nid specs m) (id +:+ "-" +:+ ps_id p)
  = Some (nid +:+ "-" +:+ ps_id p).
Proof.
  intros Hnd Hp. rewrite dupMap_entries.
  apply OMapFacts.get_fold_set_NoDup.
  - rewrite map_map. simpl.
    replace (map (fun x => id +:+ "-" +:+ ps_id x) specs)
      with (map (fun x => id +:+ "-" +:+ x) (map ps_id specs))
      by (by rewrite map_map).
    assert (Hinj : Inj (=) (=) (fun x : string => id +:+ "-" +:+ x)).
    { intros a b Hab.
      by apply StrFacts.app_inv_head, StrFacts.app_inv_head in Hab. }
    by apply (NoDup_fmap_2 (fun x : string => id +:+ "-" +:+ x)).
  - apply list_elem_of_fmap. by exists p.
Qed.

Lemma dupMap_get_out (id nid : string) (specs : list PinSpec)
    (m : omap string) (key : string) :
  (∀ p, p ∈ specs → key ≠ id +:+ "-" +:+ ps_id p) →
  OMap.get (dupMap id nid specs m) key = OMap.get m key.
Proof.
  intros Hout. rewrite dupMap_entries.
  apply OMapFacts.get_fold_set_other. rewrite map_map. simpl.
  intros Hin. apply list_elem_of_fmap in Hin as (p & -> & Hp).
  by apply (Hout p).
Qed.

Lemma mapPinIds_built (s : State) (id nid : string) (specs : list PinSpec)
    (olds news : list ref) (m : omap string) :
  pins_built s id specs olds → pins_built s nid specs news →
  mapPinIds s olds news m = Some (dupMap id nid specs m).
Proof.
  intros Ho. revert news m. induction Ho as [|r p olds specs Hrp _ IH];
    intros news m Hn.
  - by inversion Hn.
  - inversion Hn as [|r' p' news' specs' Hrp' Hn']; subst. simpl.
    apply same_pin_fields in Hrp as (-> & _).
    apply same_pin_fields in Hrp' as (-> & _).
    by apply IH.
Qed.

(** A selected node that can be copied: a live node, stored under its
    identifier, of a template that is not singleton-flagged, with the
    pins that the template gives it. *)
Definition dup_node (G : State) (id : string) (n : Node) (t : Template)
    : Prop :=
  OMap.get (nodes G) id = Some n ∧ node_id n = id
  ∧ nodeRegistry (node_nodeKey n) = Some t ∧ t_isSingleton t = false
  ∧ NoDup (map ps_id (t_pins t))
  ∧ pins_built G id (t_pins t) (node_pins n)
  ∧ (∀ r, r ∈ node_pins n → (r < length (heap G))%nat).

(** [s] is [G] with more pins and more nodes. *)
Record extends_graph (G s : State) : Prop := mkExtends {
  eg_heap : ∃ ext, heap s = heap G ++ ext;
  eg_nodes : ∃ extra, nodes s = nodes G ++ extra;
  eg_links : links s = links G;
  eg_sel : selectedNodes s = selectedNodes G;
  eg_next : (nextId G ≤ nextId s)%nat;
  eg_fresh : fresh_node_ids s;
  eg_new : ∀ r, (length (heap G) ≤ r)%nat → pin_links (deref s r) = []
}.

Lemma unlinked_lookup (l : list Pin) (i : nat) :
  Forall (fun p => pin_links p = []) l → pin_links (l !!! i) = [].
Proof.
  intros H. rewrite list_lookup_total_alt.
  destruct (l !! i) eqn:E; [|done]. simpl.
  by apply (Forall_lookup_1 _ _ _ _ H E).
Qed.

(** The copy [kn] of the selected node [id], in the state [s1] and with
    the identifier map [m1] that the first loop ends with. *)
Definition copy_node (G s1 : State) (m1 : omap string) (id : string)
    (kn : string * Node) : Prop :=
  ∃ (n : Node) (t : Template) (c base : nat),
    dup_node G id n t
    ∧ kn = ("node-" +:+ pretty c,
            mkNode ("node-" +:+ pretty c) (node_x n + 20) (node_y n + 20)
                   (node_nodeKey n) (t_title t)
                   (seq base (length (t_pins t))) [])
    ∧ (length (heap G) ≤ base)%nat
    ∧ pins_built s1 ("node-" +:+ pretty c) (t_pins t)
                 (seq base (length (t_pins t)))
    ∧ (∀ p, p ∈ t_pins t →
            OMap.get m1 (id +:+ "-" +:+ ps_id p)
            = Some (("node-" +:+ pretty c) +:+ "-" +:+ ps_id p)).

Lemma unique_id_inj (prefix : string) (n m : nat) :
  prefix +:+ pretty n = prefix +:+ pretty m → n = m.
Proof. intros H. apply StrFacts.app_inv_head in H. by apply (inj pretty). Qed.

Lemma fresh_node_ids_add (s : State) (node : Node) (h : list Pin)
    (l : list Notification) :
  fresh_node_ids s →
  fresh_node_ids
    (mkState h (OMap.set (nodes s) ("node-" +:+ pretty (nextId s)) node)
             (links s) (selectedNodes s) (selectedLinks s) (S (nextId s))
             l (pending s)).
Proof.
  intros Hf n Hn. simpl in *. rewrite OMapFacts.get_set_ne.
  - apply Hf. lia.
  - intros E. apply unique_id_inj in E. lia.
Qed.

(** The first loop of [duplicateSelectedNodes] on nodes that can be
    copied. *)
Lemma duplicateNodes_ok (G : State) (rest : list string) (s : State)
    (m : omap string) (ns : list string) :
  (∀ id, id ∈ rest → ∃ n t, dup_node G id n t) →
  NoDup rest →
  (∀ id1 id2 loc1 loc2, id1 ∈ rest → id2 ∈ rest →
     id1 +:+ "-" +:+ loc1 = id2 +:+ "-" +:+ loc2 → id1 = id2) →
  extends_graph G s →
  ∃ s1 m1 newNodes,
    duplicateNodes nodeRegistry s rest m ns
    = inr (s1, m1, ns ++ map fst newNodes)
    ∧ extends_graph G s1
    ∧ (∃ ext, heap s1 = heap s ++ ext)
    ∧ nodes s1 = nodes s ++ newNodes
    ∧ NoDup (map fst newNodes)
    ∧ (∀ kn, kn ∈ newNodes → OMap.get (nodes s) (fst kn) = None)
    ∧ Forall2 (copy_node G s1 m1) rest newNodes
    ∧ (∀ key,
         (∀ id n t p, id ∈ rest → dup_node G id n t → p ∈ t_pins t →
                      key ≠ id +:+ "-" +:+ ps_id p) →
         OMap.get m1 key = OMap.get m key).
Proof.
  revert s m ns. induction rest as [|id rest IH];
    intros s m ns Hinfo Hnd Hdist Hext.
  - exists s, m, []. simpl. rewrite app_nil_r. split; [done|].
    split; [done|]. split; [exists []; by rewrite app_nil_r|].
    split; [by rewrite app_nil_r|]. split; [constructor|].
    split; [intros kn Hkn; by apply elem_of_nil in Hkn|].
    split; [constructor|done].
  - destruct (Hinfo id) as (n & t & Hdn); [by left|].
    pose proof Hdn as (Hget & Hid & Ht & Hsing & Hndt & Hb & Hvalid).
    destruct Hext
      as [[ext Hheap] [extra Hnodes] Hlinks Hsel Hnext Hfresh Hunl].
    assert (Hget_s : OMap.get (nodes s) id = Some n)
      by (by rewrite Hnodes, OMapFacts.get_app, Hget).
    apply NoDup_cons in Hnd as [Hnotin Hnd].
    cbn [duplicateNodes]. rewrite Hget_s.
    rewrite (addNode_plain s _ _ _ t Ht Hsing). cbv zeta.
    set (nid := "node-" +:+ pretty (nextId s)).
    set (newNode := mkNode nid _ _ _ _ _ _).
    set (s_h := mkState _ _ _ _ _ _ _ _).
    assert (Hheap_h : heap s_h
                      = heap G ++ (ext ++ map (new_Pin nid) (t_pins t))).
    { subst s_h. simpl. by rewrite Hheap, <- app_assoc. }
    assert (Hbo : pins_built s_h id (t_pins t) (node_pins n))
      by (by eapply pins_built_grow).
    assert (Hbn : pins_built s_h nid (t_pins t)
                    (seq (length (heap s)) (length (t_pins t))))
      by (by apply (pins_built_new (heap s))).
    change (node_pins newNode)
      with (seq (length (heap s)) (length (t_pins t))).
    rewrite (mapPinIds_built s_h id nid (t_pins t) _ _ m Hbo Hbn).
    assert (Hnodes_h : nodes s_h = nodes s ++ [(nid, newNode)]).
    { subst s_h. simpl. apply OMapFacts.set_fresh. by apply Hfresh. }
    assert (Hext_h : extends_graph G s_h).
    { constructor.
      - eauto.
      - exists (extra ++ [(nid, newNode)]).
        by rewrite Hnodes_h, Hnodes, <- app_assoc.
      - done.
      - done.
      - simpl. lia.
      - by apply fresh_node_ids_add.
      - intros r Hr. unfold deref. subst s_h. cbn [heap].
        destruct (decide (r < length (heap s))%nat) as [Hlt|Hge].
        + rewrite lookup_total_app_l by done. by apply Hunl.
        + rewrite lookup_total_app_r by lia. apply unlinked_lookup.
          apply Forall_fmap. by apply Forall_true. }
    destruct (IH s_h (dupMap id nid (t_pins t) m) (ns ++ [node_id newNode]))
      as (s1 & m1 & newNodes & Hdup & Hext1 & [ext1 Hheap1] & Hnodes1
          & Hnd1 & Hnone1 & Hall1 & Hout1).
    { intros id' Hid'. apply Hinfo. by right. }
    { done. }
    { intros id1 id2 loc1 loc2 H1 H2. apply Hdist; by right. }
    { done. }
    exists s1, m1, ((nid, newNode) :: newNodes).
    split.
    { rewrite Hdup. simpl. by rewrite <- app_assoc. }
    split; [done|]. split.
    { exists (map (new_Pin nid) (t_pins t) ++ ext1).
      rewrite Hheap1. subst s_h. simpl. by rewrite <- app_assoc. }
    split; [by rewrite Hnodes1, Hnodes_h, <- app_assoc|].
    assert (Hnid_new : ∀ kn, kn ∈ newNodes → fst kn ≠ nid).
    { intros kn Hkn E. specialize (Hnone1 kn Hkn).
      rewrite Hnodes_h, OMapFacts.get_app in Hnone1.
      destruct (OMap.get (nodes s) kn.1); [done|]. simpl in Hnone1.
      by rewrite decide_True in Hnone1. }
    split.
    { simpl. apply NoDup_cons. split; [|done]. intros Hin.
      apply list_elem_of_fmap in Hin as (kn & E & Hkn).
      by apply (Hnid_new kn Hkn). }
    split.
    { intros kn Hkn. apply elem_of_cons in Hkn as [->|Hkn].
      - simpl. by apply Hfresh.
      - specialize (Hnone1 kn Hkn).
        rewrite Hnodes_h, OMapFacts.get_app in Hnone1.
        by destruct (OMap.get (nodes s) kn.1). }
    split.
    { constructor; [|done].
      exists n, t, (nextId s), (length (heap s)).
      split; [done|]. split; [done|]. split.
      { rewrite Hheap, length_app. lia. }
      split.
      { eapply (pins_built_grow s_h); [exact Hheap1| |exact Hbn].
        intros r Hr. apply elem_of_seq in Hr. subst s_h. simpl.
        rewrite length_app, length_map. lia. }
      intros p Hp. rewrite Hout1.
      - by apply dupMap_get_in.
      - intros id' n' t' p' Hid' _ _ E. apply Hdist in E.
        + by subst.
        + by left.
        + by right. }
    intros key Hkey. rewrite Hout1.
    + apply dupMap_get_out. intros p Hp. apply (Hkey id n t p); [by left|done|done].
    + intros id' n' t' p' Hid'. apply Hkey. by right.
Qed.

(** A link with both ends on selected nodes. *)
Definition internal (G : State) (l : Link) : bool :=
  OSet.has (selectedNodes G) (pin_node (deref G (link_startPin l)))
  && OSet.has (selectedNodes G) (pin_node (deref G (link_endPin l))).

(** [createConnection] links two such pins directly. *)
Definition needs_no_adapter (p q : Pin) : Prop :=
  pin_type p = "exec" ∨ pin_type q = "exec" ∨ pin_type p = pin_type q
  ∨ getConversionNodeKey (pin_type p) (pin_type q) = None.

(** A selection that can be duplicated: distinct live nodes built from
    templates that are not singleton-flagged, in a graph whose links
    point to pins of the store, to current pins where they end on a
    selected node; the links inside the selection start at an output
    pin, need no adapter, and respect the capacity of their end pin. *)
Record duplicable (G : State) : Prop := mkDuplicable {
  dup_nonempty : selectedNodes G ≠ [];
  dup_sel_nodup : NoDup (selectedNodes G);
  dup_nodes : ∀ id, id ∈ selectedNodes G → ∃ n t, dup_node G id n t;
  dup_shape : ∀ id, id ∈ selectedNodes G →
                    ∃ a b, Str.split "-" id = [a; b];
  dup_fresh_nodes : fresh_node_ids G;
  dup_fresh_links : fresh_link_ids G;
  dup_links_nodup : NoDup (OMap.keys (links G));
  dup_valid : ∀ k l, (k, l) ∈ links G →
                (link_startPin l < length (heap G))%nat
                ∧ (link_endPin l < length (heap G))%nat;
  dup_owned : ∀ k l r n,
                (k, l) ∈ links G →
                r = link_startPin l ∨ r = link_endPin l →
                pin_node (deref G r) ∈ selectedNodes G →
                OMap.get (nodes G) (pin_node (deref G r)) = Some n →
                r ∈ node_pins n;
  dup_internal : ∀ k l,
                (k, l) ∈ links G → internal G l = true →
                pin_dir (deref G (link_startPin l)) = DirOut
                ∧ needs_no_adapter (deref G (link_startPin l))
                                   (deref G (link_endPin l));
  dup_capacity : ∀ k1 l1 k2 l2,
                (k1, l1) ∈ links G → (k2, l2) ∈ links G →
                internal G l1 = true → internal G l2 = true →
                link_endPin l1 = link_endPin l2 →
                getMaxLinks (deref G (link_endPin l1)) = Some 1%nat →
                k1 = k2
}.

(** The pin [r'] of a copy that stands where [r] stands in the
    original. *)
Definition copy_pin (G : State) (newNodes : list (string * Node))
    (r r' : ref) : Prop :=
  ∃ j id kn n i,
    selectedNodes G !! j = Some id ∧ newNodes !! j = Some kn
    ∧ OMap.get (nodes G) id = Some n
    ∧ node_pins n !! i = Some r ∧ node_pins (snd kn) !! i = Some r'.

Definition link_copy (G : State) (newNodes : list (string * Node))
    (kl kl' : string * Link) : Prop :=
  link_id (snd kl') = fst kl'
  ∧ copy_pin G newNodes (link_startPin (snd kl)) (link_startPin (snd kl'))
  ∧ copy_pin G newNodes (link_endPin (snd kl)) (link_endPin (snd kl')).

Lemma shape_dist (id1 id2 loc1 loc2 : string) :
  (∃ a b, Str.split "-" id1 = [a; b]) →
  (∃ a b, Str.split "-" id2 = [a; b]) →
  id1 +:+ "-" +:+ loc1 = id2 +:+ "-" +:+ loc2 → id1 = id2.
Proof.
  intros (a1 & b1 & H1) (a2 & b2 & H2) E.
  apply (f_equal (Str.split "-")) in E.
  change ("-" +:+ loc1) with (String "-" loc1) in E.
  change ("-" +:+ loc2) with (String "-" loc2) in E.
  rewrite !StrFacts.split_app, H1, H2 in E. simpl in E.
  injection E as -> -> _.
  apply StrFacts.split_two in H1, H2. by rewrite H1, H2.
Qed.

Lemma new_pin_id_inj (c1 c2 : nat) (loc1 loc2 : string) :
  ("node-" +:+ pretty c1) +:+ "-" +:+ loc1
  = ("node-" +:+ pretty c2) +:+ "-" +:+ loc2 →
  c1 = c2 ∧ loc1 = loc2.
Proof.
  intros E. pose proof E as E'.
  apply (f_equal (Str.split "-")) in E'.
  change ("node-" +:+ pretty c1) with ("node" +:+ "-" +:+ pretty c1) in E'.
  change ("node-" +:+ pretty c2) with ("node" +:+ "-" +:+ pretty c2) in E'.
  rewrite !StrFacts.split_unique_pin in E' by done.
  injection E' as Hc _. apply (inj pretty) in Hc. subst c2.
  split; [done|]. by apply StrFacts.app_inv_head, StrFacts.app_inv_head in E.
Qed.

(** What a copied pin is, in a state [s] that has the pins of [s1]. *)
Lemma copy_pin_data (G s1 s : State) (m1 : omap string)
    (newNodes : list (string * Node)) (r r' : ref) :
  Forall2 (copy_node G s1 m1) (selectedNodes G) newNodes →
  (∀ x, same_pin (deref s x) (deref s1 x)) →
  copy_pin G newNodes r r' →
  ∃ (j : nat) (id : string) (n : Node) (t : Template) (c base i : nat)
    (p : PinSpec),
    selectedNodes G !! j = Some id
    ∧ newNodes !! j
      = Some ("node-" +:+ pretty c,
              mkNode ("node-" +:+ pretty c) (node_x n + 20) (node_y n + 20)
                     (node_nodeKey n) (t_title t)
                     (seq base (length (t_pins t))) [])
    ∧ dup_node G id n t
    ∧ node_pins n !! i = Some r ∧ t_pins t !! i = Some p
    ∧ r' = (base + i)%nat ∧ (length (heap G) ≤ base)%nat
    ∧ same_pin (deref G r) (new_Pin id p)
    ∧ same_pin (deref s r') (new_Pin ("node-" +:+ pretty c) p)
    ∧ pins_built s ("node-" +:+ pretty c) (t_pins t)
                 (seq base (length (t_pins t)))
    ∧ OMap.get m1 (id +:+ "-" +:+ ps_id p)
      = Some (("node-" +:+ pretty c) +:+ "-" +:+ ps_id p).
Proof.
  intros Hall Hsame (j & id & kn & n & i & Hj & Hkn & Hn & Hr & Hr').
  destruct (Forall2_lookup_lr _ _ _ _ _ _ Hall Hj Hkn)
    as (n' & t & c & base & Hdn & -> & Hbase & Hpb & Hm).
  pose proof Hdn as (Hget & _ & _ & _ & _ & Hb & _).
  assert (n' = n) by congruence. subst n'.
  destruct (Forall2_lookup_l _ _ _ _ _ Hb Hr) as (p & Hp & Hrp).
  simpl in Hr'. apply lookup_seq in Hr' as [-> Hi].
  assert (Hpb' : pins_built s ("node-" +:+ pretty c) (t_pins t)
                   (seq base (length (t_pins t))))
    by (eapply pins_built_same; [|exact Hpb]; auto).
  exists j, id, n, t, c, base, i, p.
  repeat (split; [done|]). split.
  { eapply pins_built_id; [exact Hpb'| |exact Hp].
    apply lookup_seq. by split. }
  split; [done|]. apply Hm. by eapply list_elem_of_lookup_2.
Qed.

Lemma copy_pin_inj (G s1 : State) (m1 : omap string)
    (newNodes : list (string * Node)) (r1 r2 r' : ref) :
  Forall2 (copy_node G s1 m1) (selectedNodes G) newNodes →
  NoDup (map fst newNodes) →
  copy_pin G newNodes r1 r' → copy_pin G newNodes r2 r' → r1 = r2.
Proof.
  intros Hall Hnd H1 H2.
  destruct (copy_pin_data G s1 s1 m1 newNodes r1 r' Hall
              (fun x => eq_refl) H1)
    as (j1 & id1 & n1 & t1 & c1 & base1 & i1 & p1 & Hj1 & Hk1 & Hd1 & Hr1
        & Hp1 & E1 & _ & _ & Hs1 & _ & _).
  destruct (copy_pin_data G s1 s1 m1 newNodes r2 r' Hall
              (fun x => eq_refl) H2)
    as (j2 & id2 & n2 & t2 & c2 & base2 & i2 & p2 & Hj2 & Hk2 & Hd2 & Hr2
        & Hp2 & E2 & _ & _ & Hs2 & _ & _).
  apply same_pin_fields in Hs1 as (Hid1 & _).
  apply same_pin_fields in Hs2 as (Hid2 & _).
  rewrite Hid1 in Hid2. simpl in Hid2.
  apply new_pin_id_inj in Hid2 as [-> Hloc].
  assert (j1 = j2).
  { eapply (NoDup_lookup (map fst newNodes)); [done| |].
    - by rewrite list_lookup_fmap, Hk1.
    - by rewrite list_lookup_fmap, Hk2. }
  subst j2. rewrite Hk1 in Hk2. rewrite Hj1 in Hj2.
  injection Hj2 as <-.
  destruct Hd1 as (Hg1 & _ & Ht1 & _ & Hndt & _).
  destruct Hd2 as (Hg2 & _ & Ht2 & _).
  assert (n2 = n1) by congruence. subst n2.
  assert (t2 = t1) by congruence. subst t2.
  assert (i1 = i2).
  { eapply (NoDup_lookup (map ps_id (t_pins t1))); [done| |].
    - by rewrite list_lookup_fmap, Hp1.
    - by rewrite list_lookup_fmap, Hp2, Hloc. }
  subst i2. congruence.
Qed.

(** [createConnection] on an output pin and a pin with room, of types
    that need no adapter, is [_addLink] and the two notifications. *)
Lemma createConnection_direct (s : State) (a b : ref) :
  pin_dir (deref s a) = DirOut →
  (getMaxLinks (deref s b) = Some 1%nat → pin_links (deref s b) = []) →
  needs_no_adapter (deref s a) (deref s b) →
  createConnection nodeRegistry getConversionNodeKey getPinPosition s
    (Some a) (Some b)
  = notify [AutoSave; MarkDirty] (_addLink s a b).
Proof.
  intros Hdir Hroom Hna.
  assert (Hsp : startPinOf s a b = a).
  { unfold startPinOf. by destruct (decide _). }
  assert (Hep : endPinOf s a b = b).
  { unfold endPinOf. destruct (decide _) as [E|]; [|done]. congruence. }
  unfold createConnection. rewrite Hsp, Hep.
  assert (Hrep : replaceOnConnect s b = s).
  { unfold replaceOnConnect. case_bool_decide as Hm; [|done].
    simpl. unfold isConnected. by rewrite (Hroom Hm). }
  rewrite Hrep.
  destruct (negb _ && negb _) eqn:E; [|done].
  apply andb_true_iff in E as [E1 E2].
  apply negb_true_iff in E1, E2.
  apply orb_false_iff in E1 as [E1a E1b].
  apply bool_decide_eq_false in E1a, E1b, E2.
  destruct Hna as [?|[?|[?|Hnone]]]; try done.
  by rewrite Hnone.
Qed.

(** What the first loop of [duplicateSelectedNodes] hands to the
    second. *)
Record copied (G s1 : State) (m1 : omap string)
    (newNodes : list (string * Node)) : Prop := mkCopied {
  cp_dup : duplicable G;
  cp_ext : extends_graph G s1;
  cp_nodes : nodes s1 = nodes G ++ newNodes;
  cp_nodup : NoDup (map fst newNodes);
  cp_none : ∀ kn, kn ∈ newNodes → OMap.get (nodes G) (fst kn) = None;
  cp_all : Forall2 (copy_node G s1 m1) (selectedNodes G) newNodes
}.

(** The state of the second loop after the links [done]. *)
Record dup_inv (G s1 : State) (newNodes : list (string * Node))
    (done : list (string * Link)) (s : State) : Prop := mkDupInv {
  di_nodes : nodes s = nodes s1;
  di_sel : selectedNodes s = selectedNodes G;
  di_pin : ∀ r, same_pin (deref s r) (deref s1 r);
  di_len : length (heap s) = length (heap s1);
  di_fresh : fresh_link_ids s;
  di_old : ∀ r, (r < length (heap G))%nat → deref s r = deref G r;
  di_links :
    ∃ newLinks,
      links s = links G ++ newLinks
      ∧ Forall2 (link_copy G newNodes)
          (filter (fun kl => internal G (snd kl) = true) done) newLinks
      ∧ (∀ kl, kl ∈ newLinks → OMap.get (links G) (fst kl) = None);
  di_used :
    ∀ r', (length (heap G) ≤ r')%nat → pin_links (deref s r') ≠ [] →
      ∃ kl, kl ∈ done ∧ internal G (snd kl) = true
            ∧ (copy_pin G newNodes (link_startPin (snd kl)) r'
               ∨ copy_pin G newNodes (link_endPin (snd kl)) r')
}.

Lemma old_pin_same (G s1 s : State) (r : ref) :
  extends_graph G s1 → (∀ x, same_pin (deref s x) (deref s1 x)) →
  (r < length (heap G))%nat → same_pin (deref s r) (deref G r).
Proof.
  intros [[ext Hheap] _ _ _ _ _ _] Hsame Hr. unfold same_pin.
  rewrite Hsame. unfold deref. by rewrite Hheap, lookup_total_app_l.
Qed.

(** The pin of the copy that a pin of a selected node is mapped to, and
    that [findPinById] finds it. *)
Lemma copy_resolve (G s1 s : State) (m1 : omap string)
    (newNodes : list (string * Node)) (k : string) (l : Link) (r : ref) :
  copied G s1 m1 newNodes →
  nodes s = nodes s1 → (∀ x, same_pin (deref s x) (deref s1 x)) →
  (k, l) ∈ links G → r = link_startPin l ∨ r = link_endPin l →
  pin_node (deref G r) ∈ selectedNodes G →
  ∃ r', copy_pin G newNodes r r'
        ∧ findPinById s (OMap.get m1 (pin_id (deref G r))) = Some r'.
Proof.
  intros [Hdup Hext Hnodes Hnd Hnone Hall] Hns Hsame Hkl Hr Hsel.
  pose proof Hsel as Hsel'.
  apply list_elem_of_lookup in Hsel' as [j Hj].
  destruct (dup_nodes G Hdup _ Hsel) as (n & t & Hdn).
  pose proof Hdn as (Hget & Hid & Ht & Hsing & Hndt & Hb & Hvalid).
  pose proof (dup_owned G Hdup k l r n Hkl Hr Hsel Hget) as Hrn.
  apply list_elem_of_lookup in Hrn as [i Hi].
  destruct (Forall2_lookup_l _ _ _ _ _ Hall Hj)
    as (kn & Hkn & n' & t' & c & base & Hdn' & -> & Hbase & Hpb & Hm).
  destruct Hdn' as (Hget' & _ & Ht' & _).
  assert (n' = n) by congruence. subst n'.
  assert (t' = t) by congruence. subst t'.
  destruct (Forall2_lookup_l _ _ _ _ _ Hb Hi) as (p & Hp & Hrp).
  apply same_pin_fields in Hrp as (Hpid & _).
  set (nid := "node-" +:+ pretty c) in *.
  set (newNode := mkNode nid _ _ _ _ _ _) in *.
  assert (Hilen : (i < length (t_pins t))%nat) by (by eapply lookup_lt_Some).
  exists (base + i)%nat. split.
  - exists j, (pin_node (deref G r)), (nid, newNode), n, i.
    repeat (split; [done|]). simpl. by apply lookup_seq_lt.
  - rewrite Hpid. simpl. rewrite Hm by (by eapply list_elem_of_lookup_2).
    unfold findPinById. rewrite decide_False by apply pin_id_nonempty.
    subst nid.
    change ("node-" +:+ pretty c) with ("node" +:+ "-" +:+ pretty c).
    rewrite StrFacts.split_unique_pin by done.
    change ("node" +:+ "-" +:+ pretty c) with ("node-" +:+ pretty c).
    assert (Hgn : OMap.get (nodes s) ("node-" +:+ pretty c) = Some newNode).
    { rewrite Hns, Hnodes, OMapFacts.get_app.
      assert (Hfree : OMap.get (nodes G) ("node-" +:+ pretty c) = None).
      { apply (Hnone ("node-" +:+ pretty c, newNode)).
        by eapply list_elem_of_lookup_2. }
      rewrite Hfree.
      apply OMapFacts.get_NoDup; [done|]. by eapply list_elem_of_lookup_2. }
    rewrite Hgn. unfold node_findPinById.
    apply (find_pins_built_Some s _ (t_pins t) _ i); try done.
    + eapply pins_built_same; [|exact Hpb]. auto.
    + simpl. by apply lookup_seq_lt.
Qed.

Lemma addLink_pin_other (s : State) (a b r : ref) :
  r ≠ a → r ≠ b → deref (_addLink s a b) r = deref s r.
Proof.
  intros Ha Hb. unfold _addLink, uniqueId. simpl.
  rewrite !deref_update_pin_ne by done. done.
Qed.

Lemma getMaxLinks_same (p q : Pin) :
  pin_dir p = pin_dir q → pin_type p = pin_type q →
  getMaxLinks p = getMaxLinks q.
Proof. unfold getMaxLinks. by intros -> ->. Qed.

(** One round of the second loop. *)
Lemma duplicateLink_step (G s1 s : State) (m1 : omap string)
    (newNodes : list (string * Node)) (done todo : list (string * Link))
    (k : string) (l : Link) :
  copied G s1 m1 newNodes →
  links G = done ++ (k, l) :: todo →
  dup_inv G s1 newNodes done s →
  dup_inv G s1 newNodes (done ++ [(k, l)])
    (duplicateLinkById nodeRegistry getConversionNodeKey getPinPosition
       m1 s k).
Proof.
  intros Hc Hsplit Hinv.
  pose proof Hc as [Hdup Hext Hnodes Hnd Hnone Hall].
  destruct Hinv as [Hn Hsel Hpin Hlen Hfresh Hold
                      (newLinks & Hlinks & Hcopies & Hnew) Hused].
  assert (Hkl : (k, l) ∈ links G).
  { rewrite Hsplit. apply elem_of_app. right. left. }
  assert (Hget : OMap.get (links s) k = Some l).
  { rewrite Hlinks, OMapFacts.get_app.
    by rewrite (OMapFacts.get_NoDup (links G) k l (dup_links_nodup G Hdup)). }
  destruct (dup_valid G Hdup k l Hkl) as [Hvs Hve].
  pose proof (old_pin_same G s1 s _ Hext Hpin Hvs) as Hss.
  apply same_pin_fields in Hss as (Hsid & Hsnode & _).
  pose proof (old_pin_same G s1 s _ Hext Hpin Hve) as Hse.
  apply same_pin_fields in Hse as (Heid & Henode & _).
  unfold duplicateLinkById. rewrite Hget. unfold duplicateLink.
  rewrite Hsel, Hsid, Hsnode, Heid, Henode.
  change (OSet.has (selectedNodes G) (pin_node (deref G (link_startPin l)))
          && OSet.has (selectedNodes G)
               (pin_node (deref G (link_endPin l))))
    with (internal G l).
  destruct (internal G l) eqn:Hint.
  2:{ constructor; try done.
      - exists newLinks. split; [done|]. split; [|done].
        rewrite filter_app, filter_cons_False, filter_nil, app_nil_r.
        + done.
        + simpl. by rewrite Hint.
      - intros r' Hr' Hne. destruct (Hused r' Hr' Hne) as (kl & Hkl' & H).
        exists kl. split; [|done]. apply elem_of_app. by left. }
  pose proof Hint as Hint'. unfold internal in Hint'.
  apply andb_true_iff in Hint' as [Hs_sel He_sel].
  apply bool_decide_eq_true in Hs_sel, He_sel.
  destruct (copy_resolve G s1 s m1 newNodes k l (link_startPin l) Hc Hn Hpin
              Hkl (or_introl eq_refl) Hs_sel) as (rs' & Hcs & Hfs).
  destruct (copy_resolve G s1 s m1 newNodes k l (link_endPin l) Hc Hn Hpin
              Hkl (or_intror eq_refl) He_sel) as (re' & Hce & Hfe).
  rewrite Hfs, Hfe.
  destruct (dup_internal G Hdup k l Hkl Hint) as [Hdir Hna].
  destruct (copy_pin_data G s1 s m1 newNodes _ rs' Hall Hpin Hcs)
    as (_ & ids & _ & _ & cs & bs & is_ & ps & _ & _ & _ & _ & _ & Ers & Hbs
        & HGs & Hss' & _ & _).
  destruct (copy_pin_data G s1 s m1 newNodes _ re' Hall Hpin Hce)
    as (_ & ide & _ & _ & ce & be & ie & pe & _ & _ & _ & _ & _ & Ere & Hbe
        & HGe & Hse' & _ & _).
  apply same_pin_fields in HGs as (_ & _ & HGs_t & HGs_d & _).
  apply same_pin_fields in HGe as (_ & _ & HGe_t & HGe_d & _).
  apply same_pin_fields in Hss' as (_ & _ & Hss_t & Hss_d & _).
  apply same_pin_fields in Hse' as (_ & _ & Hse_t & Hse_d & _).
  simpl in HGs_t, HGs_d, HGe_t, HGe_d, Hss_t, Hss_d, Hse_t, Hse_d.
  assert (Hts : pin_type (deref s rs') = pin_type (deref G (link_startPin l)))
    by congruence.
  assert (Hte : pin_type (deref s re') = pin_type (deref G (link_endPin l)))
    by congruence.
  assert (Hds : pin_dir (deref s rs') = pin_dir (deref G (link_startPin l)))
    by congruence.
  assert (Hde : pin_dir (deref s re') = pin_dir (deref G (link_endPin l)))
    by congruence.
  assert (Hnew_id : OMap.get (links s) ("link-" +:+ pretty (nextId s)) = None)
    by (by apply Hfresh).
  rewrite createConnection_direct.
  - pose proof (addLink_frame s rs' re')
      as (Hf_nodes & Hf_next & _ & _ & Hf_sel & Hf_len).
    constructor.
    + change (nodes (_addLink s rs' re') = nodes s1). by rewrite Hf_nodes.
    + change (selectedNodes (_addLink s rs' re') = selectedNodes G).
      by rewrite Hf_sel.
    + intros r. unfold same_pin.
      change (deref (notify [AutoSave; MarkDirty] (_addLink s rs' re')) r)
        with (deref (_addLink s rs' re') r).
      rewrite (addLink_pin s rs' re' r). apply Hpin.
    + change (length (heap (_addLink s rs' re')) = length (heap s1)).
      by rewrite Hf_len.
    + intros n Hle.
      change (OMap.get (links (_addLink s rs' re')) ("link-" +:+ pretty n)
              = None).
      change (nextId (_addLink s rs' re') ≤ n)%nat in Hle.
      rewrite Hf_next in Hle.
      rewrite addLink_links. cbv zeta. rewrite OMapFacts.get_set_ne.
      * apply Hfresh. lia.
      * intros E. apply unique_id_inj in E. lia.
    + intros r Hr.
      change (deref (notify [AutoSave; MarkDirty] (_addLink s rs' re')) r)
        with (deref (_addLink s rs' re') r).
      rewrite addLink_pin_other by lia. by apply Hold.
    + exists (newLinks
              ++ [("link-" +:+ pretty (nextId s),
                   mkLink ("link-" +:+ pretty (nextId s)) rs' re')]).
      split; [|split].
      * change (links (notify [AutoSave; MarkDirty] (_addLink s rs' re')))
          with (links (_addLink s rs' re')).
        rewrite addLink_links. cbv zeta.
        rewrite OMapFacts.set_fresh by done.
        by rewrite Hlinks, <- app_assoc.
      * rewrite filter_app, filter_cons_True, filter_nil
          by (simpl; by rewrite Hint).
        apply Forall2_app; [done|].
        constructor; [|constructor]. by repeat split.
      * intros kl Hkl'. apply elem_of_app in Hkl' as [Hkl'|Hkl'].
        { by apply Hnew. }
        apply list_elem_of_singleton in Hkl'. subst kl. simpl.
        rewrite Hlinks, OMapFacts.get_app in Hnew_id.
        by destruct (OMap.get (links G) _).
    + intros r' Hr' Hne.
      change (deref (notify [AutoSave; MarkDirty] (_addLink s rs' re')) r')
        with (deref (_addLink s rs' re') r') in Hne.
      destruct (decide (r' = rs')) as [->|Hns].
      { exists (k, l). split; [apply elem_of_app; right; left|].
        split; [done|]. by left. }
      destruct (decide (r' = re')) as [->|Hne'].
      { exists (k, l). split; [apply elem_of_app; right; left|].
        split; [done|]. by right. }
      rewrite addLink_pin_other in Hne by done.
      destruct (Hused r' Hr' Hne) as (kl & Hkl' & H).
      exists kl. split; [|done]. apply elem_of_app. by left.
  - congruence.
  - intros Hmax.
    destruct (pin_links (deref s re')) eqn:Hpl; [done|]. exfalso.
    assert (HmaxG : getMaxLinks (deref G (link_endPin l)) = Some 1%nat).
    { rewrite <- Hmax. by apply getMaxLinks_same. }
    destruct (Hused re') as ([k2 l2] & Hkl2 & Hint2 & Hcp).
    { subst re'. lia. }
    { by rewrite Hpl. }
    assert (Hkl2G : (k2, l2) ∈ links G).
    { rewrite Hsplit. apply elem_of_app. by left. }
    simpl in Hint2, Hcp. destruct Hcp as [Hcp|Hcp].
    + pose proof (copy_pin_inj G s1 m1 newNodes _ _ re' Hall Hnd Hcp Hce)
        as E.
      destruct (dup_internal G Hdup k2 l2 Hkl2G Hint2) as [Hdir2 _].
      rewrite E in Hdir2. unfold getMaxLinks in HmaxG.
      rewrite Hdir2 in HmaxG. done.
    + pose proof (copy_pin_inj G s1 m1 newNodes _ _ re' Hall Hnd Hcp Hce)
        as E.
      assert (k2 = k).
      { apply (dup_capacity G Hdup k2 l2 k l); try done. by rewrite E. }
      subst k2. pose proof (dup_links_nodup G Hdup) as Hndl.
      rewrite Hsplit in Hndl. unfold OMap.keys in Hndl.
      rewrite map_app in Hndl. apply NoDup_app in Hndl as (_ & Hdisj & _).
      apply (Hdisj k).
      * apply list_elem_of_fmap. by exists (k, l2).
      * simpl. left.
  - destruct Hna as [H|[H|[H|H]]].
    + left. congruence.
    + right; left. congruence.
    + right; right; left. congruence.
    + right; right; right. by rewrite Hts, Hte.
Qed.

(** The second loop of [duplicateSelectedNodes]. *)
Lemma duplicateLinks_fold (G s1 : State) (m1 : omap string)
    (newNodes : list (string * Node)) (todo done : list (string * Link))
    (s : State) :
  copied G s1 m1 newNodes →
  links G = done ++ todo →
  dup_inv G s1 newNodes done s →
  dup_inv G s1 newNodes (done ++ todo)
    (fold_left
       (duplicateLinkById nodeRegistry getConversionNodeKey getPinPosition
          m1)
       (OMap.keys todo) s).
Proof.
  intros Hc. revert done s.
  induction todo as [|[k l] todo IH]; intros done s Hsplit Hinv.
  - by rewrite app_nil_r.
  - simpl. replace (done ++ (k, l) :: todo) with ((done ++ [(k, l)]) ++ todo)
      by (by rewrite <- app_assoc).
    apply IH.
    + by rewrite <- app_assoc.
    + by eapply duplicateLink_step.
Qed.

(** The third loop: selecting nodes that exist and are not selected. *)
Lemma selectNode_fold_add (ids : list string) (s : State) :
  (∀ id, id ∈ ids → is_Some (OMap.get (nodes s) id)) →
  NoDup ids → (∀ id, id ∈ ids → id ∉ selectedNodes s) →
  fold_left (fun s nodeId => selectNode s nodeId true ModeAdd) ids s
  = set_selectedNodes (selectedNodes s ++ ids) s.
Proof.
  revert s. induction ids as [|id ids IH]; intros s Hlive Hnd Hnew.
  - simpl. rewrite app_nil_r. by destruct s.
  - apply NoDup_cons in Hnd as [Hid Hnd]. simpl.
    unfold selectNode at 2.
    destruct (Hlive id) as [n Hn]; [by left|]. rewrite Hn.
    unfold OSet.add, OSet.has.
    rewrite bool_decide_eq_false_2 by (apply Hnew; by left).
    rewrite IH.
    + simpl. by rewrite <- app_assoc.
    + intros id' Hid'. simpl. apply Hlive. by right.
    + done.
    + intros id' Hid'. simpl. rewrite elem_of_app, list_elem_of_singleton.
      intros [H| ->]; [|done]. revert H. apply Hnew. by right.
Qed.

(** The copy [kn] that [duplicateSelectedNodes] makes of the selected node
    [id]: the same template key, 20 units to the right and down. *)
Definition node_copy (G : State) (id : string) (kn : string * Node) : Prop :=
  ∃ n, OMap.get (nodes G) id = Some n ∧ node_id (snd kn) = fst kn
       ∧ node_nodeKey (snd kn) = node_nodeKey n
       ∧ node_x (snd kn) = node_x n + 20 ∧ node_y (snd kn) = node_y n + 20
       ∧ length (node_pins (snd kn)) = length (node_pins n).

(** C6, as the code has it.  When the selected nodes are distinct live
    nodes built from templates that are not singleton-flagged, and the
    links inside the selection start at an output pin, need no adapter and
    respect the capacity of their end pin, [duplicateSelectedNodes]
    returns; it appends one copy per selected node to the node collection
    and one link per internal link, between the corresponding pins of the
    copies, to the link collection; every link and every pin that existed
    is as it was, so that the links crossing the boundary of the selection
    are neither changed nor copied; and the selection becomes the
    copies. *)
Theorem duplicateSelectedNodes_copies (G : State) :
  duplicable G →
  ∃ s' newNodes newLinks,
    duplicateSelectedNodes nodeRegistry getConversionNodeKey getPinPosition G
    = Returned s'
    ∧ nodes s' = nodes G ++ newNodes
    ∧ Forall2 (node_copy G) (selectedNodes G) newNodes
    ∧ NoDup (map fst newNodes)
    ∧ (∀ kn, kn ∈ newNodes → OMap.get (nodes G) (fst kn) = None)
    ∧ links s' = links G ++ newLinks
    ∧ Forall2 (link_copy G newNodes)
        (filter (fun kl => internal G (snd kl) = true) (links G)) newLinks
    ∧ (∀ kl, kl ∈ newLinks → OMap.get (links G) (fst kl) = None)
    ∧ (∀ r, (r < length (heap G))%nat → deref s' r = deref G r)
    ∧ selectedNodes s' = map fst newNodes.
Proof.
  intros Hdup.
  assert (Hext0 : extends_graph G G).
  { constructor.
    - exists []. by rewrite app_nil_r.
    - exists []. by rewrite app_nil_r.
    - done.
    - done.
    - done.
    - apply (dup_fresh_nodes G Hdup).
    - intros r Hr. unfold deref.
      by rewrite list_lookup_total_alt, lookup_ge_None_2. }
  destruct (duplicateNodes_ok G (selectedNodes G) G [] [])
    as (s1 & m1 & newNodes & Hrun & Hext1 & _ & Hnodes1 & Hnd1 & Hnone1
        & Hall1 & _).
  { apply (dup_nodes G Hdup). }
  { apply (dup_sel_nodup G Hdup). }
  { intros id1 id2 loc1 loc2 H1 H2.
    apply shape_dist; by apply (dup_shape G Hdup). }
  { done. }
  simpl in Hrun.
  assert (Hc : copied G s1 m1 newNodes) by (by constructor).
  assert (Hinv0 : dup_inv G s1 newNodes [] s1).
  { constructor; try done.
    - apply (eg_sel G s1 Hext1).
    - intros n Hn. rewrite (eg_links G s1 Hext1).
      apply (dup_fresh_links G Hdup). pose proof (eg_next G s1 Hext1). lia.
    - intros r Hr. destruct (eg_heap G s1 Hext1) as [ext Hheap].
      unfold deref. by rewrite Hheap, lookup_total_app_l.
    - exists []. rewrite app_nil_r. split; [apply (eg_links G s1 Hext1)|].
      split; [constructor|]. intros kl Hkl. by apply elem_of_nil in Hkl.
    - intros r Hr Hne. by rewrite (eg_new G s1 Hext1 r Hr) in Hne. }
  pose proof (duplicateLinks_fold G s1 m1 newNodes (links G) [] s1 Hc
                eq_refl Hinv0) as Hinv.
  simpl in Hinv. rewrite <- (eg_links G s1 Hext1) in Hinv at 2.
  destruct Hinv as [Hn2 Hsel2 Hpin2 Hlen2 Hfresh2 Hold2
                      (newLinks & Hlinks2 & Hcopies2 & Hnew2) _].
  set (s2 := fold_left _ _ s1) in *.
  assert (Hsel3 :
    fold_left (fun s nodeId => selectNode s nodeId true ModeAdd)
      (map fst newNodes) (clearSelection (clearLinkSelection s2))
    = set_selectedNodes (map fst newNodes)
        (clearSelection (clearLinkSelection s2))).
  { rewrite selectNode_fold_add; try done.
    - intros id Hid. simpl. rewrite Hn2, Hnodes1.
      apply list_elem_of_fmap in Hid as ([k n] & -> & Hkn).
      apply (OMapFacts.elem_get _ k n). apply elem_of_app. by right.
    - intros id _. simpl. apply not_elem_of_nil. }
  exists (notify [AutoSave]
            (set_selectedNodes (map fst newNodes)
               (clearSelection (clearLinkSelection s2)))),
    newNodes, newLinks.
  split.
  { unfold duplicateSelectedNodes.
    destruct (selectedNodes G) eqn:Hsel; [by destruct (dup_nonempty G Hdup)|].
    rewrite Hrun. cbv zeta. fold s2. by rewrite Hsel3. }
  split; [simpl; by rewrite Hn2|].
  split.
  { eapply Forall2_impl; [exact Hall1|].
    intros id kn (n & t & c & base & Hdn & -> & _).
    destruct Hdn as (Hget & _ & _ & _ & _ & Hb & _).
    exists n. simpl. repeat (split; [done|]).
    rewrite length_seq. symmetry. by apply (Forall2_length _ _ _ Hb). }
  repeat (split; [done|]). done.
Qed.

End Properties.

(** ** Checking the invariants on a concrete graph *)

Global Instance Pin_eq_dec : EqDecision Pin.
Proof. solve_decision. Defined.

(** A decidable proposition that evaluates to true. *)
Ltac by_evaluation := apply (bool_decide_unpack _); vm_compute; exact I.

Lemma omap_forall {V : Type} (P : string → V → Prop) (m : omap V) :
  Forall (fun kv => P (fst kv) (snd kv)) m → ∀ k v, (k, v) ∈ m → P k v.
Proof. intros H k v Hin. by apply (proj1 (Forall_forall _ _) H (k, v)). Qed.

Lemma nodes_keyed_Forall (s : State) :
  Forall (fun kn => node_id (snd kn) = fst kn) (nodes s) → nodes_keyed s.
Proof. intros H k n. exact (omap_forall (fun k n => node_id n = k) _ H k n). Qed.

Lemma links_keyed_Forall (s : State) :
  Forall (fun kl => link_id (snd kl) = fst kl) (links s) → links_keyed s.
Proof. intros H k l. exact (omap_forall (fun k l => link_id l = k) _ H k l). Qed.

Lemma list_forall {A : Type} (P : A → Prop) (l : list A) :
  Forall P l → ∀ x, x ∈ l → P x.
Proof. apply Forall_forall. Qed.

(** The keys of [m] were all handed out by [Utils.uniqueId] before the
    counter reached [next]. *)
Definition generated (prefix : string) (next : nat) (k : string) : Prop :=
  Exists (fun c : nat => k = prefix +:+ pretty c) (seq 0 next).

Global Instance generated_dec (prefix : string) (next : nat) (k : string) :
  Decision (generated prefix next k).
Proof. unfold generated. apply _. Defined.

Lemma generated_fresh {V : Type} (prefix : string) (next : nat) (m : omap V) :
  Forall (generated prefix next) (OMap.keys m) →
  ∀ n : nat, (next ≤ n)%nat → OMap.get m (prefix +:+ pretty n) = None.
Proof.
  intros H n Hn. apply OMapFacts.get_None_keys. intros Hin.
  apply (proj1 (Forall_forall _ _) H) in Hin.
  apply Exists_exists in Hin as (c & Hc & E).
  apply unique_id_inj in E. apply elem_of_seq in Hc. lia.
Qed.

Lemma fresh_link_ids_generated (s : State) :
  Forall (generated "link-" (nextId s)) (OMap.keys (links s)) →
  fresh_link_ids s.
Proof. intros H. exact (generated_fresh "link-" (nextId s) (links s) H). Qed.

Lemma fresh_node_ids_generated (s : State) :
  Forall (generated "node-" (nextId s)) (OMap.keys (nodes s)) →
  fresh_node_ids s.
Proof. intros H. exact (generated_fresh "node-" (nextId s) (nodes s) H). Qed.

Global Instance PinSpec_eq_dec : EqDecision PinSpec.
Proof. solve_decision. Defined.

Global Instance Template_eq_dec : EqDecision Template.
Proof. solve_decision. Defined.

Global Instance Node_eq_dec : EqDecision Node.
Proof. solve_decision. Defined.

Global Instance same_pin_dec (p q : Pin) : Decision (same_pin p q).
Proof. unfold same_pin. apply _. Defined.

Global Instance pins_built_dec (s : State) (id : string)
    (specs : list PinSpec) (refs : list ref) :
  Decision (pins_built s id specs refs).
Proof. unfold pins_built. apply _. Defined.

Global Instance needs_no_adapter_dec
    (getConversionNodeKey : string → string → option string) (p q : Pin) :
  Decision (needs_no_adapter getConversionNodeKey p q).
Proof. unfold needs_no_adapter. apply _. Defined.

Lemma split_two_parts (id : string) :
  length (Str.split "-" id) = 2%nat → ∃ a b, Str.split "-" id = [a; b].
Proof.
  destruct (Str.split "-" id) as [|a [|b [|c l]]]; try done. by exists a, b.
Qed.

Section Checks.

Variable nodeRegistry : string -> option Template.
Variable getConversionNodeKey : string -> string -> option string.

(** [node_built], with the template given and in a form that can be
    evaluated. *)
Definition built_from (s : State) (n : Node) (t : Template) : Prop :=
  nodeRegistry (node_nodeKey n) = Some t
  ∧ NoDup (map ps_id (t_pins t))
  ∧ pins_built s (node_id n) (t_pins t) (node_pins n)
  ∧ Forall (fun p => Str.includes (node_id n) (ps_id p) = false) (t_pins t)
  ∧ node_nodeKey n ≠ "CustomEvent"
  ∧ length (Str.split "-" (node_id n)) = 2%nat.

Global Instance built_from_dec (s : State) (n : Node) (t : Template) :
  Decision (built_from s n t).
Proof. unfold built_from. apply _. Defined.


(** [template_built], over the templates [ts]. *)
Definition template_built_checks (ts : list Template) (G : State) : Prop :=
  NoDup (OMap.keys (nodes G))
  ∧ Forall (fun kn => node_id (snd kn) = fst kn) (nodes G)
  ∧ Forall (fun kn => Exists (built_from G (snd kn)) ts) (nodes G)
  ∧ NoDup (OMap.keys (links G))
  ∧ Forall (fun kl => link_id (snd kl) = fst kl) (links G)
  ∧ Forall (fun kl =>
              Forall (fun r => Exists (fun kn => r ∈ node_pins (snd kn))
                                      (nodes G))
                     [link_startPin (snd kl); link_endPin (snd kl)])
           (links G).

Global Instance template_built_checks_dec (ts : list Template) (G : State) :
  Decision (template_built_checks ts G).
Proof. unfold template_built_checks. apply _. Defined.


(** [dup_node], over the templates [ts]. *)
Definition dup_from (G : State) (id : string) (n : Node) (t : Template)
    : Prop :=
  OMap.get (nodes G) id = Some n ∧ node_id n = id
  ∧ nodeRegistry (node_nodeKey n) = Some t ∧ t_isSingleton t = false
  ∧ NoDup (map ps_id (t_pins t))
  ∧ pins_built G id (t_pins t) (node_pins n)
  ∧ Forall (fun r => (r < length (heap G))%nat) (node_pins n).

Global Instance dup_from_dec (G : State) (id : string) (n : Node)
    (t : Template) : Decision (dup_from G id n t).
Proof. unfold dup_from. apply _. Defined.

(** [duplicable], over the templates [ts]. *)
Definition duplicable_checks (ts : list Template) (G : State) : Prop :=
  selectedNodes G ≠ []
  ∧ NoDup (selectedNodes G)
  ∧ Forall (fun id =>
              Exists (fun kn => Exists (dup_from G id (snd kn)) ts) (nodes G))
           (selectedNodes G)
  ∧ Forall (fun id => length (Str.split "-" id) = 2%nat) (selectedNodes G)
  ∧ Forall (generated "node-" (nextId G)) (OMap.keys (nodes G))
  ∧ Forall (generated "link-" (nextId G)) (OMap.keys (links G))
  ∧ NoDup (OMap.keys (links G))
  ∧ Forall (fun kl => (link_startPin (snd kl) < length (heap G))%nat
                      ∧ (link_endPin (snd kl) < length (heap G))%nat)
           (links G)
  ∧ Forall (fun kl =>
              Forall (fun r =>
                        pin_node (deref G r) ∈ selectedNodes G →
                        Forall (fun kn => fst kn = pin_node (deref G r) →
                                          r ∈ node_pins (snd kn))
                               (nodes G))
                     [link_startPin (snd kl); link_endPin (snd kl)])
           (links G)
  ∧ Forall (fun kl =>
              internal G (snd kl) = true →
              pin_dir (deref G (link_startPin (snd kl))) = DirOut
              ∧ needs_no_adapter getConversionNodeKey
                  (deref G (link_startPin (snd kl)))
                  (deref G (link_endPin (snd kl))))
           (links G)
  ∧ Forall (fun kl1 =>
              Forall (fun kl2 =>
                        internal G (snd kl1) = true →
                        internal G (snd kl2) = true →
                        link_endPin (snd kl1) = link_endPin (snd kl2) →
                        getMaxLinks (deref G (link_endPin (snd kl1)))
                        = Some 1%nat →
                        fst kl1 = fst kl2)
                     (links G))
           (links G).

Global Instance duplicable_checks_dec (ts : list Template) (G : State) :
  Decision (duplicable_checks ts G).
Proof. unfold duplicable_checks. apply _. Defined.

Lemma duplicable_checked (ts : list Template) (G : State) :
  duplicable_checks ts G → duplicable nodeRegistry getConversionNodeKey G.
Proof.
  intros (H1 & H2 & H3 & H4 & H5 & H6 & H7 & H8 & H9 & H10 & H11).
  constructor; try done.
  - intros id Hid.
    pose proof (proj1 (Forall_forall _ _) H3 id Hid) as Hex.
    apply Exists_exists in Hex as ([k n] & _ & Hex).
    apply Exists_exists in Hex as (t & _ & Hd).
    destruct Hd as (? & ? & ? & ? & ? & ? & Hr). exists n, t.
    repeat (split; [done|]). by apply Forall_forall.
  - intros id Hid. apply split_two_parts.
    by apply (proj1 (Forall_forall _ _) H4 id).
  - by apply fresh_node_ids_generated.
  - by apply fresh_link_ids_generated.
  - intros k l Hin. by apply (proj1 (Forall_forall _ _) H8 (k, l)).
  - intros k l r n Hin Hr Hsel Hget.
    pose proof (proj1 (Forall_forall _ _) H9 (k, l) Hin) as Hrs.
    assert (Hr' : r ∈ [link_startPin l; link_endPin l]).
    { destruct Hr as [->| ->]; [left|right; left]. }
    pose proof (proj1 (Forall_forall _ _) Hrs r Hr' Hsel) as Hn.
    apply OMapFacts.get_Some_elem in Hget.
    by apply (proj1 (Forall_forall _ _) Hn (pin_node (deref G r), n) Hget).
  - intros k l Hin. by apply (proj1 (Forall_forall _ _) H10 (k, l)).
  - intros k1 l1 k2 l2 Hin1 Hin2.
    pose proof (proj1 (Forall_forall _ _) H11 (k1, l1) Hin1) as Hl.
    by apply (proj1 (Forall_forall _ _) Hl (k2, l2) Hin2).
Qed.


End Checks.

(** ** A catalog and the graphs of its editor session *)

Module Scenario.

Definition pin_in (id ty : string) (d : value) : PinSpec :=
  mkPinSpec id id ty DirIn "single" d false.

Definition pin_out (id ty : string) : PinSpec :=
  mkPinSpec id id ty DirOut "single" VUndefined false.

(** Two arithmetic nodes, a printing node, a branch, the [float] to
    [string] adapter, a [float] to [bool] adapter that lacks its output
    port, and a singleton event. *)
Definition catalog : omap Template :=
  [("Add", mkTemplate "Add"
             [pin_in "a" "float" (VNum 0); pin_in "b" "float" (VNum 1);
              pin_out "out" "float"] false);
   ("Multiply", mkTemplate "Multiply"
             [pin_in "a" "float" (VNum 0); pin_in "b" "float" (VNum 1);
              pin_out "out" "float"] false);
   ("ToString", mkTemplate "To String"
             [pin_in "val_in" "float" VUndefined;
              pin_out "val_out" "string"] false);
   ("Print", mkTemplate "Print String"
             [pin_in "s" "string" (VStr "hi")] false);
   ("Branch", mkTemplate "Branch"
             [pin_in "cond" "bool" (VBool false)] false);
   ("ToBool", mkTemplate "To Bool"
             [pin_in "val_in" "float" VUndefined] false);
   ("BeginPlay", mkTemplate "Event BeginPlay"
             [pin_out "exec_out" "exec"] true)].

Definition registry (k : string) : option Template := OMap.get catalog k.

Definition adapters (a b : string) : option string :=
  if decide (a = "float") then
    if decide (b = "string") then Some "ToString"
    else if decide (b = "bool") then Some "ToBool" else None
  else None.

Definition layout (p : Pin) : Z * Z := (0, 0).

(** An [Add] node, [node-0] with the pins 0, 1, 2. *)
Definition g1 : State := snd (addNode registry initial "Add" 0 0).

(** And a [Multiply] node, [node-1] with the pins 3, 4, 5. *)
Definition g2 : State := snd (addNode registry g1 "Multiply" 100 0).

(** [node-0-out] wired to [node-1-a] by [link-2]. *)
Definition g3 : State :=
  createConnection registry adapters layout g2 (Some 2%nat) (Some 3%nat).

(** [g3] with both nodes selected. *)
Definition g3_selected : State :=
  selectNode (selectNode g3 "node-0" false ModeNew) "node-1" true ModeAdd.

(** An [Add] node and a [Branch] node, [node-1] with the pin 3. *)
Definition b2 : State := snd (addNode registry g1 "Branch" 100 0).

(** A singleton event node. *)
Definition e1 : State := snd (addNode registry initial "BeginPlay" 0 0).

(** A saved graph in which a [float] output is linked to a [string] input
    without an adapter, and the graph loaded from it, both nodes
    selected. *)
Definition saved_direct : SavedState :=
  mkSavedState
    [mkSavedNode "node-0" "Add" 0 0 None;
     mkSavedNode "node-1" "Print" 100 0 None]
    [mkSavedLink "link-2" "node-0-out" "node-1-s"].

Definition d1 : State :=
  let d0 := loadState registry (set_nextId 3 initial) saved_direct in
  selectNode (selectNode d0 "node-0" false ModeNew) "node-1" true ModeAdd.

(** [g3] with [node-0] selected. *)
Definition g3_one : State := selectNode g3 "node-0" false ModeNew.



(** C9 on [g3_one]: toggling [node-1] while keeping the selection. *)
Lemma selectNode_membership_witness :
  is_Some (OMap.get (nodes g3_one) "node-1")
  ∧ ∀ j, j ∈ selectedNodes (selectNode g3_one "node-1" true ModeToggle)
         ↔ (j = "node-1" ∧ "node-1" ∉ selectedNodes g3_one)
           ∨ (j ≠ "node-1" ∧ j ∈ selectedNodes g3_one).
Proof.
  assert (H : is_Some (OMap.get (nodes g3_one) "node-1")) by by_evaluation.
  split; [exact H|].
  exact (proj1 (selectNode_membership g3_one "node-1" true ModeToggle H)).
Defined.

(** Mode [add] without [addToSelection] drops the node that was
    selected. *)
Lemma selectNode_add_clears :
  is_Some (OMap.get (nodes g3_one) "node-1")
  ∧ "node-0" ∈ selectedNodes g3_one
  ∧ "node-0" ∉ selectedNodes (selectNode g3_one "node-1" false ModeAdd).
Proof. by_evaluation. Qed.

(** C4 on [e1]: a second [BeginPlay]. *)
Lemma addNode_singleton_rejected_witness :
  ∃ existing,
    existing ∈ OMap.values (nodes e1)
    ∧ node_nodeKey existing = "BeginPlay"
    ∧ addNode registry e1 "BeginPlay" 5 5
      = (None, set_selectedNodes [node_id existing] e1).
Proof.
  eapply (addNode_singleton_rejected registry e1 "BeginPlay" 5 5 _ "node-0").
  - reflexivity.
  - reflexivity.
  - apply nodes_keyed_Forall. by_evaluation.
  - apply OMapFacts.get_Some_elem. reflexivity.
  - reflexivity.
Defined.

(** The rejected [addNode] changes the state: it selects the existing
    instance. *)
Lemma addNode_singleton_selects :
  registry "BeginPlay" = Some (mkTemplate "Event BeginPlay"
                                 [pin_out "exec_out" "exec"] true)
  ∧ fst (addNode registry e1 "BeginPlay" 5 5) = None
  ∧ selectedNodes e1 = []
  ∧ selectedNodes (snd (addNode registry e1 "BeginPlay" 5 5)) = ["node-0"]
  ∧ snd (addNode registry e1 "BeginPlay" 5 5) ≠ e1.
Proof.
  repeat (split; [reflexivity|]).
  intros H. apply (f_equal selectedNodes) in H. vm_compute in H. discriminate H.
Qed.

(** C10 on two input pins of one node. *)
Lemma createConnection_always_links_witness :
  pin_node (deref g2 0%nat) = pin_node (deref g2 1%nat)
  ∧ pin_dir (deref g2 0%nat) = pin_dir (deref g2 1%nat)
  ∧ ∃ id link,
      OMap.get (links (createConnection registry adapters layout g2
                         (Some 0%nat) (Some 1%nat))) id = Some link
      ∧ OMap.get (links g2) id = None
      ∧ link_endPin link = endPinOf g2 0%nat 1%nat.
Proof.
  split; [reflexivity|]. split; [reflexivity|].
  apply (createConnection_always_links registry adapters layout g2).
  apply fresh_link_ids_generated. by_evaluation.
Defined.

(** C3 on [b2]: the [float] output of the [Add] node and the [bool]
    input of the [Branch] node, through the adapter without output
    port. *)
Lemma createConnection_adapter_rollback_witness :
  let s' := createConnection registry adapters layout b2
              (Some 2%nat) (Some 3%nat) in
  nodes s' = nodes b2
  ∧ links s' = [("link-3", mkLink "link-3" 2%nat 3%nat)].
Proof.
  destruct (createConnection_adapter_rollback registry adapters layout b2
              2%nat 3%nat "ToBool"
              (mkTemplate "To Bool" [pin_in "val_in" "float" VUndefined]
                          false))
    as (Hn & Hl & _).
  - by_evaluation.
  - by_evaluation.
  - by_evaluation.
  - reflexivity.
  - reflexivity.
  - reflexivity.
  - by_evaluation.
  - by_evaluation.
  - by_evaluation.
  - apply fresh_node_ids_generated. by_evaluation.
  - apply fresh_link_ids_generated. by_evaluation.
  - split; [exact Hn|exact Hl].
Defined.

(** After the adapter node is taken out again the two pins are linked all
    the same. *)
Lemma rollback_still_links :
  let s' := createConnection registry adapters layout b2
              (Some 2%nat) (Some 3%nat) in
  pin_type (deref b2 2%nat) = "float" ∧ pin_type (deref b2 3%nat) = "bool"
  ∧ adapters "float" "bool" = Some "ToBool"
  ∧ option_map (fun t => map ps_id (t_pins t)) (registry "ToBool")
    = Some ["val_in"]
  ∧ nodes s' = nodes b2
  ∧ links b2 = []
  ∧ links s' = [("link-3", mkLink "link-3" 2%nat 3%nat)]
  ∧ pin_links (deref b2 2%nat) = [] ∧ pin_links (deref s' 2%nat) = ["link-3"]
  ∧ pin_links (deref b2 3%nat) = [] ∧ pin_links (deref s' 3%nat) = ["link-3"].
Proof. repeat split; reflexivity. Qed.






(** C6 on [g3_selected]: two copies and one link between them. *)
Lemma duplicateSelectedNodes_copies_witness :
  ∃ s' newNodes newLinks,
    duplicateSelectedNodes registry adapters layout g3_selected = Returned s'
    ∧ nodes s' = nodes g3_selected ++ newNodes
    ∧ length newNodes = 2%nat
    ∧ links s' = links g3_selected ++ newLinks
    ∧ length newLinks = 1%nat
    ∧ selectedNodes s' = map fst newNodes.
Proof.
  destruct (duplicateSelectedNodes_copies registry adapters layout
              g3_selected)
    as (s' & newNodes & newLinks & Hrun & Hn & Hcn & _ & _ & Hl & Hcl & _
        & _ & Hsel).
  - apply (duplicable_checked registry adapters (OMap.values catalog)).
    by_evaluation.
  - exists s', newNodes, newLinks.
    split; [exact Hrun|]. split; [exact Hn|].
    split; [symmetry; exact (Forall2_length _ _ _ Hcn)|].
    split; [exact Hl|].
    split; [symmetry; exact (Forall2_length _ _ _ Hcl)|exact Hsel].
Defined.

(** Duplicating two selected nodes joined by one [float] to [string]
    link gives three new nodes and two new links: the link between the
    copies is made through a new adapter node. *)
Lemma duplicate_inserts_adapter :
  length (selectedNodes d1) = 2%nat
  ∧ length (filter (fun kl => internal d1 (snd kl) = true) (links d1)) = 1%nat
  ∧ ∃ s', duplicateSelectedNodes registry adapters layout d1 = Returned s'
          ∧ length (nodes s') = (length (nodes d1) + 3)%nat
          ∧ length (links s') = (length (links d1) + 2)%nat.
Proof.
  split; [reflexivity|]. split; [reflexivity|].
  eexists. split; [reflexivity|]. split; reflexivity.
Qed.

End Scenario.

(** * The rest of the two controllers *)

(** ** Selection and deletion of links *)

(** [WiringController.toggleLinkSelection]: the click on a wire. *)
Definition toggleLinkSelection (s : State) (linkId : string) : State :=
  let s := clearSelection s in
  if negb (OSet.has (selectedLinks s) linkId) then
    let s := clearLinkSelection s in
    set_selectedLinks (OSet.add (selectedLinks s) linkId) s
  else set_selectedLinks (OSet.delete (selectedLinks s) linkId) s.

(** [GraphController.deleteSelectedLinks]; the loop runs over a copy of
    the selection, [Array.from(selectedLinks)]. *)
Definition deleteSelectedLinks (s : State) : State :=
  match selectedLinks s with
  | [] => s
  | _ :: _ =>
      let linksToDelete := selectedLinks s in
      let s := fold_left breakLinkById linksToDelete s in
      let s := clearLinkSelection s in
      notify [AutoSave] s
  end.

(** ** The mouse *)

(** A [DOMRect]. *)
Record Rect : Type := mkRect {
  rect_left : Z;
  rect_top : Z;
  rect_width : Z;
  rect_height : Z
}.

Definition rect_right (r : Rect) : Z := rect_left r + rect_width r.
Definition rect_bottom (r : Rect) : Z := rect_top r + rect_height r.

(** What the handlers read from a mouse event: whether the target is a
    wire, the [data-pin-id] of the pin container around the target (the
    outer option is [closest('.pin-container')], the inner one the data
    attribute), the identifier of the node element around it, the button,
    the modifier keys, [e.code], and the pointer. *)
Record MouseEvent : Type := mkMouseEvent {
  target_isWire : bool;
  target_pin : option (option string);
  target_node : option string;
  button : Z;
  altKey : bool;
  ctrlKey : bool;
  shiftKey : bool;
  code : option string;
  clientX : Z;
  clientY : Z;
  movementX : Z;
  movementY : Z
}.

(** What is dropped on the editor: the text, the modifier keys and the
    graph coordinates of the pointer. *)
Record DropEvent : Type := mkDropEvent {
  drop_data : string;
  drop_altKey : bool;
  drop_ctrlKey : bool;
  drop_x : Z;
  drop_y : Z
}.

(** The [GraphController] with its interaction state; the zoom factor is
    left to [getGraphCoords]. *)
Record Editor : Type := mkEditor {
  graph : State;
  pan : Z * Z;
  isPanning : bool;
  isDraggingNode : bool;
  isWiring : bool;
  isRmbDown : bool;
  isMarqueeing : bool;
  hasDragged : bool;
  activePin : option ref;
  dragStart : Z * Z;
  nodeDragOffsets : omap (Z * Z);
  marqueeStart : Z * Z
}.

Definition set_graph (g : State) (ed : Editor) : Editor :=
  mkEditor g (pan ed) (isPanning ed) (isDraggingNode ed) (isWiring ed)
           (isRmbDown ed) (isMarqueeing ed) (hasDragged ed) (activePin ed)
           (dragStart ed) (nodeDragOffsets ed) (marqueeStart ed).

Definition set_pan (p : Z * Z) (ed : Editor) : Editor :=
  mkEditor (graph ed) p (isPanning ed) (isDraggingNode ed) (isWiring ed)
           (isRmbDown ed) (isMarqueeing ed) (hasDragged ed) (activePin ed)
           (dragStart ed) (nodeDragOffsets ed) (marqueeStart ed).

Definition set_isPanning (b : bool) (ed : Editor) : Editor :=
  mkEditor (graph ed) (pan ed) b (isDraggingNode ed) (isWiring ed)
           (isRmbDown ed) (isMarqueeing ed) (hasDragged ed) (activePin ed)
           (dragStart ed) (nodeDragOffsets ed) (marqueeStart ed).

Definition set_isDraggingNode (b : bool) (ed : Editor) : Editor :=
  mkEditor (graph ed) (pan ed) (isPanning ed) b (isWiring ed)
           (isRmbDown ed) (isMarqueeing ed) (hasDragged ed) (activePin ed)
           (dragStart ed) (nodeDragOffsets ed) (marqueeStart ed).

Definition set_isWiring (b : bool) (ed : Editor) : Editor :=
  mkEditor (graph ed) (pan ed) (isPanning ed) (isDraggingNode ed) b
           (isRmbDown ed) (isMarqueeing ed) (hasDragged ed) (activePin ed)
           (dragStart ed) (nodeDragOffsets ed) (marqueeStart ed).

Definition set_isRmbDown (b : bool) (ed : Editor) : Editor :=
  mkEditor (graph ed) (pan ed) (isPanning ed) (isDraggingNode ed)
           (isWiring ed) b (isMarqueeing ed) (hasDragged ed) (activePin ed)
           (dragStart ed) (nodeDragOffsets ed) (marqueeStart ed).

Definition set_isMarqueeing (b : bool) (ed : Editor) : Editor :=
  mkEditor (graph ed) (pan ed) (isPanning ed) (isDraggingNode ed)
           (isWiring ed) (isRmbDown ed) b (hasDragged ed) (activePin ed)
           (dragStart ed) (nodeDragOffsets ed) (marqueeStart ed).

Definition set_hasDragged (b : bool) (ed : Editor) : Editor :=
  mkEditor (graph ed) (pan ed) (isPanning ed) (isDraggingNode ed)
           (isWiring ed) (isRmbDown ed) (isMarqueeing ed) b (activePin ed)
           (dragStart ed) (nodeDragOffsets ed) (marqueeStart ed).

Definition set_activePin (p : option ref) (ed : Editor) : Editor :=
  mkEditor (graph ed) (pan ed) (isPanning ed) (isDraggingNode ed)
           (isWiring ed) (isRmbDown ed) (isMarqueeing ed) (hasDragged ed) p
           (dragStart ed) (nodeDragOffsets ed) (marqueeStart ed).

Definition set_dragStart (p : Z * Z) (ed : Editor) : Editor :=
  mkEditor (graph ed) (pan ed) (isPanning ed) (isDraggingNode ed)
           (isWiring ed) (isRmbDown ed) (isMarqueeing ed) (hasDragged ed)
           (activePin ed) p (nodeDragOffsets ed) (marqueeStart ed).

Definition set_nodeDragOffsets (m : omap (Z * Z)) (ed : Editor) : Editor :=
  mkEditor (graph ed) (pan ed) (isPanning ed) (isDraggingNode ed)
           (isWiring ed) (isRmbDown ed) (isMarqueeing ed) (hasDragged ed)
           (activePin ed) (dragStart ed) m (marqueeStart ed).

Definition set_marqueeStart (p : Z * Z) (ed : Editor) : Editor :=
  mkEditor (graph ed) (pan ed) (isPanning ed) (isDraggingNode ed)
           (isWiring ed) (isRmbDown ed) (isMarqueeing ed) (hasDragged ed)
           (activePin ed) (dragStart ed) (nodeDragOffsets ed) p.

(** The editor at start-up, around a graph. *)
Definition idle_editor (g : State) : Editor :=
  mkEditor g (0, 0) false false false false false false None (0, 0) []
           (0, 0).

(** [data.startsWith(prefix)]. *)
Definition startsWith (prefix data : string) : bool :=
  match Str.drop_prefix prefix data with Some _ => true | None => false end.

(** [`${prefix}${data.split(':')[1]}`]; a missing part prints as
    [undefined]. *)
Definition second_part (data : string) : string :=
  default "undefined" (Str.split ":" data !! 1%nat).

Section Gestures.

Variable nodeRegistry : string -> option Template.
Variable getConversionNodeKey : string -> string -> option string.
Variable getPinPosition : Pin -> Z * Z.
(** [getGraphCoords(clientX, clientY)], which depends on the pan (and on
    the zoom and the place of the editor on the page). *)
Variable getGraphCoords : Z * Z -> Z -> Z -> Z * Z.
(** [node.element.getBoundingClientRect()]. *)
Variable nodeBounds : Node -> Rect.

(** [handleDrop]: a variable dropped with Alt or Ctrl, or a palette entry,
    becomes a node; the action menu of a plain variable drop is outside
    the model. *)
Definition handleDrop (s : State) (e : DropEvent) : State :=
  if startsWith "VARIABLE:" (drop_data e) then
    let varName := second_part (drop_data e) in
    let nodeKey :=
      if drop_altKey e then Some ("Set_" +:+ varName)
      else if drop_ctrlKey e then Some ("Get_" +:+ varName)
      else None in
    match nodeKey with
    | Some nodeKey =>
        let s := snd (addNode nodeRegistry s nodeKey (drop_x e) (drop_y e)) in
        notify [AutoSave] s
    | None => s
    end
  else if startsWith "PALETTE_NODE:" (drop_data e) then
    let nodeType := second_part (drop_data e) in
    let s := snd (addNode nodeRegistry s nodeType (drop_x e) (drop_y e)) in
    notify [AutoSave] s
  else s.

(** The test of [selectNodesInRect]: the centre of the node's rectangle
    lies in [rect]; the halves are cleared by doubling both sides. *)
Definition centreInside (rect : Rect) (node : Node) : bool :=
  let nodeRect := nodeBounds node in
  let cx2 := 2 * rect_left nodeRect + rect_width nodeRect in
  let cy2 := 2 * rect_top nodeRect + rect_height nodeRect in
  ((2 * rect_left rect <=? cx2)%Z && (cx2 <=? 2 * rect_right rect)%Z
   && (2 * rect_top rect <=? cy2)%Z && (cy2 <=? 2 * rect_bottom rect)%Z).

Definition selectNodesInRect (s : State) (rect : Rect) (mode : selectMode)
    : State :=
  fold_left
    (fun s node =>
       if centreInside rect node then selectNode s (node_id node) true mode
       else s)
    (OMap.values (nodes s)) s.

(** The last three branches of [handleEditorMouseDown]: panning with the
    middle button (or the left one with [e.code] equal to [Space]), the
    right button, and the marquee. *)
Definition mouseDownOnBackground (ed : Editor) (e : MouseEvent) : Editor :=
  if bool_decide (button e = 1)
     || (bool_decide (button e = 0) && bool_decide (code e = Some "Space"))
  then set_dragStart (clientX e, clientY e) (set_isPanning true ed)
  else if decide (button e = 2) then
    set_dragStart (clientX e, clientY e) (set_isRmbDown true ed)
  else if decide (button e = 0) then
    let ed := set_isMarqueeing true ed in
    let ed := set_marqueeStart (clientX e, clientY e) ed in
    if negb (ctrlKey e) && negb (shiftKey e) && negb (altKey e)
    then set_graph (clearSelection (graph ed)) ed
    else ed
  else ed.

(** The branch [if (nodeElement && e.button === 0)]: the node under the
    pointer is selected according to the modifier keys, and the offset of
    the pointer to every selected node is recorded. *)
Definition mouseDownOnNode (ed : Editor) (e : MouseEvent) (nodeId : string)
    : Editor :=
  let ed := set_isDraggingNode true ed in
  let mode := if ctrlKey e then ModeToggle
              else if shiftKey e then ModeAdd else ModeNew in
  let g := graph ed in
  let g :=
    match mode with
    | ModeNew =>
        if negb (OSet.has (selectedNodes g) nodeId)
        then selectNode g nodeId false ModeNew else g
    | _ => selectNode g nodeId true mode
    end in
  let ed := set_graph g ed in
  let m := getGraphCoords (pan ed) (clientX e) (clientY e) in
  let offsets :=
    fold_left
      (fun offsets nodeId =>
         match OMap.get (nodes g) nodeId with
         | Some node =>
             OMap.set offsets nodeId
                      (fst m - node_x node, snd m - node_y node)
         | None => offsets
         end)
      (selectedNodes g) [] in
  set_nodeDragOffsets offsets ed.

(** The branch [if (pinElement && e.button === 0)]: wiring starts at the
    pin; with Alt the links of a connected pin are broken first. *)
Definition mouseDownOnPin (ed : Editor) (e : MouseEvent)
    (pinId : option string) : Editor :=
  let ed := set_isWiring true ed in
  let ed := set_activePin (findPinById (graph ed) pinId) ed in
  match activePin ed with
  | Some p =>
      if altKey e && isConnected (deref (graph ed) p)
      then set_graph (breakPinLinks (graph ed) (pin_id (deref (graph ed) p)))
                     ed
      else ed
  | None => ed
  end.

(** [handleEditorMouseDown]. *)
Definition handleEditorMouseDown (ed : Editor) (e : MouseEvent) : Editor :=
  let ed := set_hasDragged false ed in
  let ed := set_graph (clearLinkSelection (graph ed)) ed in
  let ed := if isMarqueeing ed then set_isMarqueeing false ed else ed in
  if target_isWire e then ed
  else
    match target_pin e, decide (button e = 0) with
    | Some pinId, left _ => mouseDownOnPin ed e pinId
    | _, _ =>
        match target_node e, decide (button e = 0) with
        | Some nodeId, left _ => mouseDownOnNode ed e nodeId
        | _, _ => mouseDownOnBackground ed e
        end
    end.

(** [handleGlobalMouseMove]: panning, dragging the selected nodes; the
    ghost wire and the marquee are drawn outside the model. *)
Definition handleGlobalMouseMove (ed : Editor) (e : MouseEvent) : Editor :=
  let ed :=
    if negb (bool_decide (movementX e = 0))
       || negb (bool_decide (movementY e = 0))
    then set_hasDragged true ed else ed in
  if isPanning ed || isRmbDown ed then
    let dx := clientX e - fst (dragStart ed) in
    let dy := clientY e - snd (dragStart ed) in
    let ed := set_pan (fst (pan ed) + dx, snd (pan ed) + dy) ed in
    set_dragStart (clientX e, clientY e) ed
  else if isDraggingNode ed then
    let m := getGraphCoords (pan ed) (clientX e) (clientY e) in
    let g :=
      fold_left
        (fun g nodeId =>
           match OMap.get (nodes g) nodeId,
                 OMap.get (nodeDragOffsets ed) nodeId with
           | Some node, Some offset =>
               set_nodes
                 (OMap.set (nodes g) nodeId
                    (set_node_pos (fst m - fst offset) (snd m - snd offset)
                                  node)) g
           | _, _ => g
           end)
        (selectedNodes (graph ed)) (graph ed) in
    set_graph g ed
  else ed.

(** The mode of a marquee selection, from the modifier keys. *)
Definition marqueeMode (e : MouseEvent) : selectMode :=
  if shiftKey e then ModeAdd
  else if ctrlKey e then ModeToggle
  else if altKey e then ModeRemove
  else ModeNew.

(** [handleGlobalMouseUp]; [marqueeRect] is the rectangle of the marquee
    element.  Releasing a wire over no pin opens the action menu and
    returns at once. *)
Definition handleGlobalMouseUp (ed : Editor) (e : MouseEvent)
    (marqueeRect : Rect) : Editor :=
  let finish (ed : Editor) : Editor :=
    let ed :=
      if isDraggingNode ed then
        let ed := set_isDraggingNode false ed in
        let ed := set_graph (snapSelectedNodesToGrid (graph ed)) ed in
        let ed := set_nodeDragOffsets [] ed in
        set_graph (notify [AutoSave; MarkDirty] (graph ed)) ed
      else ed in
    let ed :=
      if isMarqueeing ed then
        let ed := set_isMarqueeing false ed in
        set_graph (selectNodesInRect (graph ed) marqueeRect (marqueeMode e))
                  ed
      else ed in
    let ed := if isRmbDown ed then set_isRmbDown false ed else ed in
    let ed := set_isPanning false ed in
    let ed := set_hasDragged false ed in
    set_dragStart (0, 0) ed in
  if isWiring ed then
    match target_pin e, activePin ed with
    | Some endPinId, Some active =>
        let endPin := findPinById (graph ed) endPinId in
        let ed :=
          match endPin with
          | Some _ =>
              if canConnect getConversionNodeKey (graph ed) (activePin ed)
                            endPin
              then set_graph
                     (createConnection nodeRegistry getConversionNodeKey
                        getPinPosition (graph ed) (activePin ed) endPin) ed
              else ed
          | None => ed
          end in
        finish (set_activePin None (set_isWiring false ed))
    | None, Some _ => set_isWiring false ed
    | _, None => finish (set_activePin None (set_isWiring false ed))
    end
  else finish ed.

End Gestures.

(** * The link lists of the pins and the link collection *)

(** [wired s]: the link collection and the link lists of the pins agree.
    Links are stored once, under their identifier; both ends of a link are
    pins of the store that list it; and a link listed by a pin of a live
    node is in the collection and ends on that pin. *)
Record wired (s : State) : Prop := mkWired {
  wd_nodup : NoDup (OMap.keys (links s));
  wd_keyed : links_keyed s;
  wd_ends : ∀ k l, (k, l) ∈ links s →
              ((link_startPin l < length (heap s))%nat
               ∧ (link_endPin l < length (heap s))%nat)
              ∧ k ∈ pin_links (deref s (link_startPin l))
              ∧ k ∈ pin_links (deref s (link_endPin l));
  wd_lists : ∀ id n r k,
              (id, n) ∈ nodes s → r ∈ node_pins n →
              k ∈ pin_links (deref s r) →
              ∃ l, (k, l) ∈ links s
                   ∧ (link_startPin l = r ∨ link_endPin l = r)
}.

Lemma elem_keep (k x : string) (l : list string) :
  x ∈ List.filter (fun id => negb (bool_decide (id = k))) l ↔ x ≠ k ∧ x ∈ l.
Proof.
  rewrite list_elem_of_In, filter_In, <- list_elem_of_In.
  rewrite negb_true_iff, bool_decide_eq_false. tauto.
Qed.

Lemma keep_idem (k : string) (l : list string) :
  List.filter (fun id => negb (bool_decide (id = k)))
    (List.filter (fun id => negb (bool_decide (id = k))) l)
  = List.filter (fun id => negb (bool_decide (id = k))) l.
Proof.
  induction l as [|x l IH]; simpl; [done|].
  destruct (negb (bool_decide (x = k))) eqn:E; simpl; [|done].
  by rewrite E, IH.
Qed.

(** What [breakLinkById] does to a link that is there. *)
Lemma breakLinkById_spec (s : State) (k : string) (l : Link) :
  OMap.get (links s) k = Some l →
  let s' := breakLinkById s k in
  links s' = OMap.delete (links s) k
  ∧ nodes s' = nodes s
  ∧ length (heap s') = length (heap s)
  ∧ selectedNodes s' = selectedNodes s
  ∧ nextId s' = nextId s
  ∧ ∀ r, pin_links (deref s' r)
         = if decide (r = link_startPin l ∨ r = link_endPin l)
           then List.filter (fun id => negb (bool_decide (id = k)))
                            (pin_links (deref s r))
           else pin_links (deref s r).
Proof.
  intros Hget. unfold breakLinkById. rewrite Hget. cbv zeta.
  split; [done|]. split; [done|].
  split; [simpl; by rewrite !length_alter|].
  split; [done|]. split; [done|].
  intros r.
  change (deref (defer [AutoSave; MarkDirty] ?x) r) with (deref x r).
  set (keep := List.filter (fun id => negb (bool_decide (id = k)))).
  set (f := fun p : Pin => set_pin_links (keep (pin_links p)) p).
  change (pin_links
            (deref (update_pin (link_endPin l) f
                      (update_pin (link_startPin l) f s)) r)
          = if decide (r = link_startPin l ∨ r = link_endPin l)
            then keep (pin_links (deref s r)) else pin_links (deref s r)).
  rewrite !deref_update_pin.
  assert (Hlen : length (heap (update_pin (link_startPin l) f s))
                 = length (heap s)) by (simpl; by rewrite length_alter).
  rewrite Hlen.
  assert (Hout : ∀ x, ¬ (x < length (heap s))%nat →
                      pin_links (deref s x) = []).
  { intros x Hx. unfold deref.
    rewrite list_lookup_total_alt, lookup_ge_None_2 by lia. done. }
  destruct (decide (r = link_startPin l ∨ r = link_endPin l)) as [Hd|Hd].
  - destruct (decide (link_endPin l = r ∧ _)) as [[Ee He]|Hne].
    + destruct (decide (link_startPin l = link_endPin l ∧ _)) as [[E Hs]|Hns].
      * subst f. simpl. rewrite <- Ee, E. apply keep_idem.
      * by rewrite <- Ee.
    + destruct (decide (link_startPin l = r ∧ _)) as [[Es Hs]|Hns].
      * by rewrite <- Es.
      * rewrite Hout; [done|]. intros Hr. destruct Hd as [->| ->]; tauto.
  - rewrite decide_False by (intros [E _]; apply Hd; by right).
    rewrite decide_False by (intros [E _]; apply Hd; by left). done.
Qed.

Lemma breakLinkById_wired (s : State) (linkId : string) :
  wired s → wired (breakLinkById s linkId).
Proof.
  intros Hw. destruct (OMap.get (links s) linkId) as [l0|] eqn:Hget.
  2:{ unfold breakLinkById. by rewrite Hget. }
  destruct (breakLinkById_spec s linkId l0 Hget)
    as (Hl & Hn & Hlen & _ & _ & Hp).
  destruct Hw as [Hnd Hk He Hls].
  assert (Hin : ∀ k l, (k, l) ∈ links (breakLinkById s linkId) →
                       (k, l) ∈ links s ∧ k ≠ linkId).
  { intros k l H. rewrite Hl in H.
    apply OMapFacts.elem_delete in H as [? ?]. done. }
  constructor.
  - rewrite Hl. by apply OMapFacts.keys_delete_NoDup.
  - intros k l H. apply Hin in H as [H _]. by apply Hk.
  - intros k l H. apply Hin in H as [H Hne].
    destruct (He k l H) as (Hv & H1 & H2). rewrite Hlen. split; [done|].
    rewrite !Hp. split; case_decide; try done; apply elem_keep; done.
  - intros id n r k Hidn Hr Hkr. rewrite Hn in Hidn. rewrite Hp in Hkr.
    assert (Hold : k ∈ pin_links (deref s r) ∧ k ≠ linkId).
    { case_decide as Hd.
      - apply elem_keep in Hkr. tauto.
      - split; [done|]. intros ->.
        destruct (Hls id n r linkId Hidn Hr Hkr) as (l & Hl' & Hor).
        apply (OMapFacts.get_NoDup _ _ _ Hnd) in Hl'.
        assert (l = l0) by congruence. subst l.
        apply Hd. destruct Hor as [<-| <-]; tauto. }
    destruct Hold as [Hold Hne].
    destruct (Hls id n r k Hidn Hr Hold) as (l & Hl' & Hor).
    exists l. split; [|done]. rewrite Hl.
    apply OMapFacts.elem_delete. done.
Qed.

(** A state with the same links, the same link lists and no new live pin
    that lists a link is wired as well. *)
Lemma wired_transfer (s s' : State) :
  wired s → links s' = links s →
  (length (heap s) ≤ length (heap s'))%nat →
  (∀ r, pin_links (deref s' r) = pin_links (deref s r)) →
  (∀ id n, (id, n) ∈ nodes s' →
           (id, n) ∈ nodes s
           ∨ ∀ r, r ∈ node_pins n → pin_links (deref s' r) = []) →
  wired s'.
Proof.
  intros [Hnd Hk He Hls] Hl Hlen Hp Hn. constructor.
  - by rewrite Hl.
  - intros k l H. rewrite Hl in H. by apply Hk.
  - intros k l H. rewrite Hl in H. destruct (He k l H) as ([? ?] & ? & ?).
    rewrite !Hp. split; [lia|done].
  - intros id n r k Hidn Hr Hkr. rewrite Hl.
    destruct (Hn id n Hidn) as [Hold|Hnew].
    + rewrite Hp in Hkr. by apply (Hls id n).
    + rewrite (Hnew r Hr) in Hkr. by apply elem_of_nil in Hkr.
Qed.

Lemma notify_wired (evs : list Notification) (s : State) :
  wired s → wired (notify evs s).
Proof. intros H. apply (wired_transfer s); auto. Qed.

Lemma breakLinks_wired (found : list Link) (s : State) :
  wired s →
  wired (fold_left (fun s link => breakLinkById s (link_id link)) found s).
Proof.
  revert s. induction found as [|x found IH]; intros s H; simpl; [done|].
  apply IH. by apply breakLinkById_wired.
Qed.

Lemma breakPinLinks_wired (s : State) (pinId : string) :
  wired s → wired (breakPinLinks s pinId).
Proof. apply breakLinks_wired. Qed.

Lemma replaceOnConnect_wired (s : State) (endPin : ref) :
  wired s → wired (replaceOnConnect s endPin).
Proof.
  intros H. unfold replaceOnConnect.
  destruct (_ && _); [by apply breakPinLinks_wired|done].
Qed.

Lemma addLink_fresh (s : State) (a b : ref) :
  fresh_link_ids s → fresh_link_ids (_addLink s a b).
Proof.
  intros Hf n Hn. destruct (addLink_frame s a b) as (_ & Hnext & _).
  rewrite Hnext in Hn. rewrite addLink_links. cbv zeta.
  rewrite OMapFacts.get_set_ne.
  - apply Hf. lia.
  - intros E. apply unique_id_inj in E. lia.
Qed.

Lemma addLink_lists (s : State) (a b r : ref) :
  (r < length (heap s))%nat →
  pin_links (deref (_addLink s a b) r)
  = pin_links (deref s r)
    ++ (if decide (r = a) then ["link-" +:+ pretty (nextId s)] else [])
    ++ (if decide (r = b) then ["link-" +:+ pretty (nextId s)] else []).
Proof.
  intros Hr. unfold _addLink, uniqueId, deref, update_pin. simpl.
  rewrite !list_lookup_total_alter, !length_alter.
  repeat case_decide; destruct_and?; subst; simpl;
    rewrite ?app_nil_r, <- ?app_assoc; try done; exfalso; lia.
Qed.

Lemma addLink_wired (s : State) (a b : ref) :
  wired s → fresh_link_ids s →
  (a < length (heap s))%nat → (b < length (heap s))%nat →
  wired (_addLink s a b).
Proof.
  intros [Hnd Hk He Hls] Hf Ha Hb.
  set (id := "link-" +:+ pretty (nextId s)).
  assert (Hnone : OMap.get (links s) id = None) by (by apply Hf).
  assert (Hl : links (_addLink s a b) = links s ++ [(id, mkLink id a b)]).
  { rewrite addLink_links. cbv zeta. by apply OMapFacts.set_fresh. }
  destruct (addLink_frame s a b) as (Hn & _ & _ & _ & _ & Hlen).
  assert (Hgrow : ∀ r k, k ∈ pin_links (deref s r) →
                         k ∈ pin_links (deref (_addLink s a b) r)).
  { intros r k Hin. destruct (decide (r < length (heap s))%nat) as [Hr|Hr].
    - rewrite addLink_lists by done. apply elem_of_app. by left.
    - rewrite addLink_pin_other by lia. done. }
  constructor.
  - rewrite Hl. unfold OMap.keys. rewrite map_app. simpl.
    apply NoDup_app. split; [done|]. split.
    + intros x Hx Hx'. apply list_elem_of_singleton in Hx'. subst x.
      by apply OMapFacts.get_None_keys in Hnone.
    + apply NoDup_singleton.
  - intros k l H. rewrite Hl in H. apply elem_of_app in H as [H|H].
    + by apply Hk.
    + apply list_elem_of_singleton in H. by injection H as -> ->.
  - intros k l H. rewrite Hl in H. rewrite Hlen.
    apply elem_of_app in H as [H|H].
    + destruct (He k l H) as (Hv & H1 & H2). split; [done|].
      split; by apply Hgrow.
    + apply list_elem_of_singleton in H. injection H as -> ->. simpl.
      split; [done|]. rewrite !addLink_lists by done. fold id.
      split.
      * rewrite decide_True by done. rewrite !elem_of_app.
        right; left. left.
      * rewrite (decide_True (P := b = b)) by done. rewrite !elem_of_app.
        right; right. left.
  - intros id0 n r k Hidn Hr Hkr. rewrite Hn in Hidn. rewrite Hl.
    assert (Hcases : k ∈ pin_links (deref s r)
                     ∨ (k = id ∧ (r = a ∨ r = b))).
    { destruct (decide (r = a ∨ r = b)) as [Hab|Hab].
      - assert (Hrv : (r < length (heap s))%nat)
          by (destruct Hab as [->| ->]; done).
        rewrite addLink_lists in Hkr by done. fold id in Hkr.
        rewrite !elem_of_app in Hkr. destruct Hkr as [?|[Hx|Hx]]; [by left| |].
        + case_decide; [|by apply elem_of_nil in Hx].
          apply list_elem_of_singleton in Hx. right. tauto.
        + case_decide; [|by apply elem_of_nil in Hx].
          apply list_elem_of_singleton in Hx. right. tauto.
      - rewrite addLink_pin_other in Hkr by tauto. by left. }
    destruct Hcases as [Hold|[-> Hab]].
    + destruct (Hls id0 n r k Hidn Hr Hold) as (l & Hl' & Hor).
      exists l. split; [|done]. apply elem_of_app. by left.
    + exists (mkLink id a b). split.
      * apply elem_of_app. right. left.
      * simpl. destruct Hab as [->| ->]; tauto.
Qed.

Section WiredOperations.

Variable nodeRegistry : string -> option Template.
Variable getConversionNodeKey : string -> string -> option string.
Variable getPinPosition : Pin -> Z * Z.

(** What [addNode] has done when it returns a node. *)
Lemma addNode_added (s : State) (key : string) (x y : Z) (node : Node)
    (s' : State) :
  addNode nodeRegistry s key x y = (Some node, s') →
  ∃ t, nodeRegistry key = Some t
       ∧ node = mkNode ("node-" +:+ pretty (nextId s)) x y key (t_title t)
                  (seq (length (heap s)) (length (t_pins t))) []
       ∧ s' = mkState
                (heap s ++ map (new_Pin ("node-" +:+ pretty (nextId s)))
                               (t_pins t))
                (OMap.set (nodes s) ("node-" +:+ pretty (nextId s)) node)
                (links s) (selectedNodes s) (selectedLinks s)
                (S (nextId s)) (log s ++ [MarkDirty]) (pending s).
Proof.
  unfold addNode. destruct (nodeRegistry key) as [t|]; [|done].
  assert (∃ o : option Node,
            (if t_isSingleton t
             then List.find (fun n => bool_decide (node_nodeKey n = key))
                            (OMap.values (nodes s))
             else None) = o) as [[e|] ->] by eauto; [done|].
  simpl. intros [= <- <-]. by exists t.
Qed.

(** What [addNode] has done when it returns no node: at most a change
    of the selection. *)
Lemma addNode_refused (s : State) (key : string) (x y : Z) (s' : State) :
  addNode nodeRegistry s key x y = (None, s') →
  heap s' = heap s ∧ nodes s' = nodes s ∧ links s' = links s
  ∧ nextId s' = nextId s ∧ log s' = log s ∧ pending s' = pending s.
Proof.
  unfold addNode. destruct (nodeRegistry key) as [t|]; [|by intros [= <-]].
  assert (∃ o : option Node,
            (if t_isSingleton t
             then List.find (fun n => bool_decide (node_nodeKey n = key))
                            (OMap.values (nodes s))
             else None) = o) as [[e|] ->] by eauto; [|done].
  intros [= <-]. apply selectNode_frame.
Qed.

Lemma new_pins_unlinked (h : list Pin) (id : string) (specs : list PinSpec)
    (r : ref) :
  pin_links ((h ++ map (new_Pin id) specs) !!! r) = pin_links (h !!! r).
Proof.
  destruct (decide (r < length h)%nat) as [Hr|Hr].
  - by rewrite lookup_total_app_l.
  - rewrite lookup_total_app_r by lia.
    rewrite (list_lookup_total_alt h), (lookup_ge_None_2 h) by lia.
    apply unlinked_lookup. apply Forall_fmap. by apply Forall_true.
Qed.

Lemma addNode_wired (s : State) (key : string) (x y : Z) :
  wired s → wired (snd (addNode nodeRegistry s key x y)).
Proof.
  intros Hw.
  destruct (addNode nodeRegistry s key x y) as [[node|] s'] eqn:E; simpl.
  - apply addNode_added in E as (t & _ & Hnode & ->).
    apply (wired_transfer s); try done.
    + simpl. rewrite length_app. lia.
    + intros r. unfold deref. simpl. apply new_pins_unlinked.
    + intros id n Hin. simpl in Hin.
      apply OMapFacts.elem_set in Hin as [[-> ->]|Hin]; [|by left].
      right. intros r Hr. unfold deref. simpl.
      rewrite new_pins_unlinked. rewrite Hnode in Hr. simpl in Hr.
      apply elem_of_seq in Hr.
      by rewrite list_lookup_total_alt, lookup_ge_None_2 by lia.
  - apply addNode_refused in E as (Hh & Hn & Hl & _).
    apply (wired_transfer s); try done.
    + rewrite Hh. lia.
    + intros r. unfold deref. by rewrite Hh.
    + intros id n Hin. left. by rewrite <- Hn.
Qed.

Lemma addNode_fresh_links (s : State) (key : string) (x y : Z) :
  fresh_link_ids s → fresh_link_ids (snd (addNode nodeRegistry s key x y)).
Proof.
  intros Hf n Hn.
  destruct (addNode_frame nodeRegistry s key x y) as (Hl & Hnext & _).
  rewrite Hl. apply Hf. lia.
Qed.

(** X1. [createConnection] keeps the link collection and the link lists of
    the pins in agreement, and the identifiers still to be generated
    unused: whichever path it takes (direct link, adapter node, adapter
    rolled back), every link it leaves is listed by both of its pins, and
    every link listed by a pin of a live node is in the collection. *)
Theorem createConnection_keeps_wired (s : State) (a b : ref) :
  wired s → fresh_link_ids s →
  (a < length (heap s))%nat → (b < length (heap s))%nat →
  wired (createConnection nodeRegistry getConversionNodeKey getPinPosition
           s (Some a) (Some b))
  ∧ fresh_link_ids
      (createConnection nodeRegistry getConversionNodeKey getPinPosition
         s (Some a) (Some b)).
Proof.
  intros Hw Hf Ha Hb.
  assert (Hsv : (startPinOf s a b < length (heap s))%nat)
    by (unfold startPinOf; by destruct (decide _)).
  assert (Hev : (endPinOf s a b < length (heap s))%nat)
    by (unfold endPinOf; by destruct (decide _)).
  unfold createConnection.
  set (startPin := startPinOf s a b) in *.
  set (endPin := endPinOf s a b) in *.
  pose proof (replaceOnConnect_shrinks s endPin) as Hs1.
  pose proof (replaceOnConnect_wired s endPin Hw) as Hw1.
  pose proof (shrinks_fresh_links _ _ Hs1 Hf) as Hf1.
  pose proof (shr_len _ _ Hs1) as Hlen1.
  set (s1 := replaceOnConnect s endPin) in *.
  assert (Hdirect : ∀ s2, wired s2 → fresh_link_ids s2 →
            (length (heap s) ≤ length (heap s2))%nat →
            wired (notify [AutoSave; MarkDirty] (_addLink s2 startPin endPin))
            ∧ fresh_link_ids
                (notify [AutoSave; MarkDirty] (_addLink s2 startPin endPin))).
  { intros s2 Hw2 Hf2 Hlen2. split.
    - apply notify_wired, addLink_wired; try done; lia.
    - by apply addLink_fresh. }
  destruct (negb _ && negb _); [|apply Hdirect; [done|done|lia]].
  destruct (getConversionNodeKey _ _) as [convKey|];
    [|apply Hdirect; [done|done|lia]].
  match goal with
  | |- context [addNode nodeRegistry s1 convKey ?x ?y] =>
      pose proof (addNode_wired s1 convKey x y Hw1) as Hw2;
      pose proof (addNode_fresh_links s1 convKey x y Hf1) as Hf2;
      pose proof (addNode_frame nodeRegistry s1 convKey x y)
        as (_ & _ & _ & Hlen2);
      destruct (addNode nodeRegistry s1 convKey x y) as [[convNode|] s2] eqn:E
  end; simpl in Hw2, Hf2, Hlen2; [|apply Hdirect; [done|done|lia]].
  apply addNode_added in E as (t & _ & Hnode & Hs2).
  assert (Hpins : ∀ r, r ∈ node_pins convNode → (r < length (heap s2))%nat).
  { intros r Hr. rewrite Hnode in Hr. simpl in Hr. apply elem_of_seq in Hr.
    rewrite Hs2. simpl. rewrite length_app, length_map. lia. }
  assert (Hfind : ∀ fullId r, node_findPinById s2 convNode fullId = Some r →
                              (r < length (heap s2))%nat).
  { intros fullId r Hfr. apply find_some in Hfr as [Hin _].
    apply Hpins. by apply list_elem_of_In. }
  destruct (node_findPinById s2 convNode (node_id convNode +:+ "-val_in"))
    as [convIn|] eqn:Ein;
    [destruct (node_findPinById s2 convNode (node_id convNode +:+ "-val_out"))
       as [convOut|] eqn:Eout|].
  - pose proof (Hfind _ _ Ein) as Hin. pose proof (Hfind _ _ Eout) as Hout.
    destruct (addLink_frame s2 startPin convIn) as (_ & _ & _ & _ & _ & Hl3).
    split.
    + apply notify_wired, addLink_wired.
      * apply addLink_wired; try done; lia.
      * by apply addLink_fresh.
      * by rewrite Hl3.
      * rewrite Hl3. lia.
    + by apply addLink_fresh, addLink_fresh.
  - apply Hdirect; [|done|simpl; lia].
    apply (wired_transfer s2); try done.
    intros id n Hidn. left. simpl in Hidn.
    by apply OMapFacts.elem_delete in Hidn as [? _].
  - apply Hdirect; [|done|simpl; lia].
    apply (wired_transfer s2); try done.
    intros id n Hidn. left. simpl in Hidn.
    by apply OMapFacts.elem_delete in Hidn as [? _].
Qed.

(** The order of the two pins does not matter to [createConnection] when
    their directions differ. *)
Lemma pins_ordered (s : State) (a b : ref) :
  pin_dir (deref s a) ≠ pin_dir (deref s b) →
  startPinOf s a b = startPinOf s b a ∧ endPinOf s a b = endPinOf s b a.
Proof.
  unfold startPinOf, endPinOf. intros Hd.
  destruct (pin_dir (deref s a)), (pin_dir (deref s b)); try done;
    repeat case_decide; done.
Qed.

(** The two ways [createConnection] ends: one link from the start pin to
    the end pin, in a state that has the links left by the
    replace-on-connect step; or two links through the pins [convIn] and
    [convOut] of an adapter node just made. *)
Lemma createConnection_cases (s : State) (a b : ref) :
  let startPin := startPinOf s a b in
  let endPin := endPinOf s a b in
  let s1 := replaceOnConnect s endPin in
  let s' := createConnection nodeRegistry getConversionNodeKey getPinPosition
              s (Some a) (Some b) in
  (∃ s2, s' = notify [AutoSave; MarkDirty] (_addLink s2 startPin endPin)
         ∧ links s2 = links s1
         ∧ (nextId s1 ≤ nextId s2)%nat
         ∧ (length (heap s1) ≤ length (heap s2))%nat)
  ∨ (∃ s2 convIn convOut,
       s' = notify [AutoSave; MarkDirty]
              (_addLink (_addLink s2 startPin convIn) convOut endPin)
       ∧ links s2 = links s1
       ∧ (nextId s1 ≤ nextId s2)%nat
       ∧ (length (heap s1) ≤ convIn < length (heap s2))%nat
       ∧ (length (heap s1) ≤ convOut < length (heap s2))%nat).
Proof.
  intros startPin endPin s1 s'. subst s'. unfold createConnection.
  fold startPin endPin s1.
  assert (Hdirect :
    ∃ s2, notify [AutoSave; MarkDirty] (_addLink s1 startPin endPin)
          = notify [AutoSave; MarkDirty] (_addLink s2 startPin endPin)
          ∧ links s2 = links s1 ∧ (nextId s1 ≤ nextId s2)%nat
          ∧ (length (heap s1) ≤ length (heap s2))%nat)
    by (by exists s1).
  destruct (negb _ && negb _); [|by left].
  destruct (getConversionNodeKey _ _) as [convKey|]; [|by left].
  match goal with
  | |- context [addNode nodeRegistry s1 convKey ?x ?y] =>
      pose proof (addNode_frame nodeRegistry s1 convKey x y)
        as (Hl2 & Hn2 & _ & Hlen2);
      destruct (addNode nodeRegistry s1 convKey x y) as [[convNode|] s2] eqn:E
  end; simpl in Hl2, Hn2, Hlen2; [|left; by exists s2].
  apply addNode_added in E as (t & _ & Hnode & Hs2).
  assert (Hfind : ∀ fullId r, node_findPinById s2 convNode fullId = Some r →
                              (length (heap s1) ≤ r < length (heap s2))%nat).
  { intros fullId r Hfr. apply find_some in Hfr as [Hin _].
    apply list_elem_of_In in Hin. rewrite Hnode in Hin. simpl in Hin.
    apply elem_of_seq in Hin.
    rewrite Hs2. simpl. rewrite length_app, length_map. lia. }
  destruct (node_findPinById s2 convNode (node_id convNode +:+ "-val_in"))
    as [convIn|] eqn:Ein;
    [destruct (node_findPinById s2 convNode (node_id convNode +:+ "-val_out"))
       as [convOut|] eqn:Eout|].
  - right. exists s2, convIn, convOut. split; [done|]. split; [done|].
    split; [done|]. split; by eapply Hfind.
  - left. eexists. split; [done|]. by repeat split.
  - left. eexists. split; [done|]. by repeat split.
Qed.

Lemma addLink_appends (s : State) (x y : ref) :
  fresh_link_ids s →
  links (_addLink s x y)
  = links s ++ [("link-" +:+ pretty (nextId s),
                 mkLink ("link-" +:+ pretty (nextId s)) x y)].
Proof.
  intros Hf. rewrite addLink_links. cbv zeta.
  apply OMapFacts.set_fresh. by apply Hf.
Qed.

Lemma fresh_links_later (s s2 : State) :
  fresh_link_ids s → links s2 = links s → (nextId s ≤ nextId s2)%nat →
  fresh_link_ids s2.
Proof. intros Hf Hl Hn n Hle. rewrite Hl. apply Hf. lia. Qed.

(** X2. Replace-on-connect.  When the end pin takes one link at most,
    [createConnection] leaves exactly one link on it, a new one that ends
    there: the links it had are broken first, and the link made towards an
    adapter does not touch it. *)
Theorem createConnection_replaces (s : State) (a b : ref) :
  wired s → fresh_link_ids s →
  (a < length (heap s))%nat → (b < length (heap s))%nat → a ≠ b →
  getMaxLinks (deref s (endPinOf s a b)) = Some 1%nat →
  let endPin := endPinOf s a b in
  let s' := createConnection nodeRegistry getConversionNodeKey getPinPosition
              s (Some a) (Some b) in
  ∃ id l,
    (id, l) ∈ links s' ∧ link_endPin l = endPin
    ∧ OMap.get (links s) id = None
    ∧ ∀ k l', (k, l') ∈ links s' →
              link_startPin l' = endPin ∨ link_endPin l' = endPin → k = id.
Proof.
  intros Hw Hf Ha Hb Hab Hmax endPin s'.
  set (startPin := startPinOf s a b).
  assert (Hev : (endPin < length (heap s))%nat)
    by (unfold endPin, endPinOf; by destruct (decide _)).
  assert (Hin : pin_dir (deref s endPin) = DirIn).
  { unfold getMaxLinks in Hmax. fold endPin in Hmax.
    by destruct (pin_dir (deref s endPin)). }
  assert (Hse : startPin ≠ endPin).
  { unfold startPin, endPin, startPinOf, endPinOf in *.
    destruct (decide (pin_dir (deref s a) = DirOut)) as [Eo|Eo];
      destruct (decide (pin_dir (deref s a) = DirIn)) as [Ei|Ei];
      try congruence. by destruct (pin_dir (deref s a)). }
  pose proof (replaceOnConnect_shrinks s endPin) as Hs1.
  pose proof (shrinks_fresh_links _ _ Hs1 Hf) as Hf1.
  pose proof (shr_len _ _ Hs1) as Hlen1.
  pose proof (shr_nextId _ _ Hs1) as Hn1.
  assert (Hclean : ∀ k l, (k, l) ∈ links (replaceOnConnect s endPin) →
                          link_startPin l ≠ endPin ∧ link_endPin l ≠ endPin).
  { intros k l Hkl. unfold replaceOnConnect in Hkl.
    rewrite (bool_decide_eq_true_2 _ Hmax) in Hkl. simpl in Hkl.
    destruct (isConnected (deref s endPin)) eqn:Ec.
    - apply breakPinLinks_clears in Hkl as [H1 H2];
        [|apply (wd_keyed s Hw)].
      split; intros E; [apply H1|apply H2]; by rewrite E.
    - unfold isConnected in Ec.
      destruct (pin_links (deref s endPin)) eqn:El; [|done].
      destruct (wd_ends s Hw k l Hkl) as (_ & H1 & H2).
      split; intros E; [rewrite E, El in H1|rewrite E, El in H2];
        by apply elem_of_nil in H1 || by apply elem_of_nil in H2. }
  destruct (createConnection_cases s a b)
    as [(s2 & Hrun & Hl2 & Hn2 & Hlen2)
       |(s2 & convIn & convOut & Hrun & Hl2 & Hn2 & Hci & Hco)];
    fold startPin endPin s' in Hrun;
    fold endPin in Hl2, Hn2; try fold endPin in Hlen2;
    try fold endPin in Hci, Hco.
  - pose proof (fresh_links_later _ _ Hf1 Hl2 Hn2) as Hf2.
    assert (Hls : links s'
                  = links (replaceOnConnect s endPin)
                    ++ [("link-" +:+ pretty (nextId s2),
                         mkLink ("link-" +:+ pretty (nextId s2))
                                startPin endPin)]).
    { rewrite Hrun.
      change (links (notify [AutoSave; MarkDirty] ?x)) with (links x).
      by rewrite addLink_appends, Hl2. }
    eexists _, _. split; [rewrite Hls; apply elem_of_app; right; left|].
    split; [done|]. split; [apply Hf; lia|].
    intros k l' Hkl Htouch. rewrite Hls in Hkl.
    apply elem_of_app in Hkl as [Hkl|Hkl].
    + destruct (Hclean k l' Hkl). tauto.
    + apply list_elem_of_singleton in Hkl. by injection Hkl as -> _.
  - pose proof (fresh_links_later _ _ Hf1 Hl2 Hn2) as Hf2.
    pose proof (addLink_fresh s2 startPin convIn Hf2) as Hf3.
    destruct (addLink_frame s2 startPin convIn) as (_ & Hn3 & _).
    assert (Hls : links s'
                  = links (replaceOnConnect s endPin)
                    ++ [("link-" +:+ pretty (nextId s2),
                         mkLink ("link-" +:+ pretty (nextId s2))
                                startPin convIn);
                        ("link-" +:+ pretty (S (nextId s2)),
                         mkLink ("link-" +:+ pretty (S (nextId s2)))
                                convOut endPin)]).
    { rewrite Hrun.
      change (links (notify [AutoSave; MarkDirty] ?x)) with (links x).
      rewrite addLink_appends by done. rewrite addLink_appends by done.
      by rewrite Hn3, Hl2, <- app_assoc. }
    eexists _, _.
    split; [rewrite Hls; apply elem_of_app; right; right; left|].
    split; [done|]. split; [apply Hf; lia|].
    intros k l' Hkl Htouch. rewrite Hls in Hkl.
    apply elem_of_app in Hkl as [Hkl|Hkl].
    + destruct (Hclean k l' Hkl). tauto.
    + apply elem_of_cons in Hkl as [Hkl|Hkl].
      * injection Hkl as -> ->. simpl in Htouch.
        destruct Htouch as [E|E]; [done|]. lia.
      * apply list_elem_of_singleton in Hkl. by injection Hkl as -> _.
Qed.

(** X3. For two pins of different directions the order of the arguments
    does not matter: [createConnection(p, q)] and [createConnection(q, p)]
    do the same. *)
Theorem createConnection_symmetric (s : State) (a b : ref) :
  pin_dir (deref s a) ≠ pin_dir (deref s b) →
  createConnection nodeRegistry getConversionNodeKey getPinPosition
    s (Some a) (Some b)
  = createConnection nodeRegistry getConversionNodeKey getPinPosition
      s (Some b) (Some a).
Proof.
  intros Hd. destruct (pins_ordered s a b Hd) as [Hs He].
  unfold createConnection. by rewrite Hs, He.
Qed.

(** X4. The adapter path.  When neither pin is [exec], the types differ,
    an adapter is registered whose template is not singleton-flagged and
    has the ports [val_in] and [val_out], [createConnection] adds one
    adapter node and two links, from the start pin to [val_in] and from
    [val_out] to the end pin, and fires [markDirty] (for the node) and
    then [autoSave] and [markDirty]. *)
Theorem createConnection_through_adapter (s : State) (a b : ref)
    (convKey : string) (t : Template) (i j : nat) (pin pout : PinSpec) :
  let startPin := startPinOf s a b in
  let endPin := endPinOf s a b in
  let s1 := replaceOnConnect s endPin in
  let s' := createConnection nodeRegistry getConversionNodeKey
              getPinPosition s (Some a) (Some b) in
  let nid := "node-" +:+ pretty (nextId s) in
  let id1 := "link-" +:+ pretty (S (nextId s)) in
  let id2 := "link-" +:+ pretty (S (S (nextId s))) in
  let base := length (heap s) in
  pin_type (deref s startPin) ≠ "exec" →
  pin_type (deref s endPin) ≠ "exec" →
  pin_type (deref s startPin) ≠ pin_type (deref s endPin) →
  getConversionNodeKey (pin_type (deref s startPin))
                       (pin_type (deref s endPin)) = Some convKey →
  nodeRegistry convKey = Some t →
  t_isSingleton t = false →
  NoDup (map ps_id (t_pins t)) →
  t_pins t !! i = Some pin → ps_id pin = "val_in" →
  t_pins t !! j = Some pout → ps_id pout = "val_out" →
  fresh_node_ids s → fresh_link_ids s →
  (∃ x y, nodes s'
          = nodes s ++ [(nid, mkNode nid x y convKey (t_title t)
                                (seq base (length (t_pins t))) [])])
  ∧ links s' = links s1 ++ [(id1, mkLink id1 startPin (base + i)%nat);
                            (id2, mkLink id2 (base + j)%nat endPin)]
  ∧ log s' = log s ++ [MarkDirty; AutoSave; MarkDirty].
Proof.
  intros startPin endPin s1 s' nid id1 id2 base Hes Hee Hty Hconv Ht Hsing
    Hnd Hi Hin Hj Hout Hfn Hfl.
  pose proof (replaceOnConnect_shrinks s endPin) as Hs1. fold s1 in Hs1.
  assert (Hts : pin_type (deref s1 startPin) = pin_type (deref s startPin))
    by (by destruct (same_pin_fields _ _ (shr_pin _ _ Hs1 startPin))
          as (_ & _ & ? & _)).
  assert (Hte : pin_type (deref s1 endPin) = pin_type (deref s endPin))
    by (by destruct (same_pin_fields _ _ (shr_pin _ _ Hs1 endPin))
          as (_ & _ & ? & _)).
  subst s'. unfold createConnection. fold startPin endPin s1.
  rewrite Hts, Hte.
  rewrite (bool_decide_eq_false_2 _ Hes), (bool_decide_eq_false_2 _ Hee),
    (bool_decide_eq_false_2 _ Hty). simpl. rewrite Hconv.
  rewrite (addNode_plain nodeRegistry _ _ _ _ _ Ht Hsing). cbv zeta.
  rewrite (shr_nextId _ _ Hs1), (shr_len _ _ Hs1). fold nid base.
  set (s2 := mkState _ _ _ _ _ _ _ _).
  set (convNode := mkNode _ _ _ _ _ _ _).
  assert (Hheap2 : heap s2 = heap s1 ++ map (new_Pin nid) (t_pins t)) by done.
  assert (Hbuilt : pins_built s2 nid (t_pins t) (node_pins convNode)).
  { subst convNode; simpl. unfold base. rewrite <- (shr_len _ _ Hs1).
    by apply pins_built_new. }
  assert (Hfi : node_findPinById s2 convNode (node_id convNode +:+ "-val_in")
                = Some (base + i)%nat).
  { change (node_id convNode +:+ "-val_in") with (nid +:+ "-" +:+ "val_in").
    rewrite <- Hin. unfold node_findPinById.
    apply (find_pins_built_Some s2 nid (t_pins t) _ i); try done.
    subst convNode; simpl. apply lookup_seq. split; [done|].
    by eapply lookup_lt_Some. }
  assert (Hfo : node_findPinById s2 convNode (node_id convNode +:+ "-val_out")
                = Some (base + j)%nat).
  { change (node_id convNode +:+ "-val_out") with (nid +:+ "-" +:+ "val_out").
    rewrite <- Hout. unfold node_findPinById.
    apply (find_pins_built_Some s2 nid (t_pins t) _ j); try done.
    subst convNode; simpl. apply lookup_seq. split; [done|].
    by eapply lookup_lt_Some. }
  rewrite Hfi, Hfo.
  split; [|split].
  - eexists _, _. simpl. rewrite (shr_nodes _ _ Hs1).
    apply OMapFacts.set_fresh. by apply Hfn.
  - change (links (notify [AutoSave; MarkDirty] ?x)) with (links x).
    assert (Hf2 : fresh_link_ids s2).
    { intros n Hn. simpl in *. apply (shr_get _ _ Hs1). apply Hfl. lia. }
    rewrite addLink_appends by (by apply addLink_fresh).
    rewrite addLink_appends by done. simpl. by rewrite <- app_assoc.
  - simpl. rewrite (shr_log _ _ Hs1). by rewrite <- app_assoc.
Qed.

End WiredOperations.

(** ** Selecting and deleting links *)

Lemma breakLinkById_links (s : State) (k : string) :
  links (breakLinkById s k) = OMap.delete (links s) k.
Proof.
  unfold breakLinkById. destruct (OMap.get (links s) k) eqn:E; [done|].
  by rewrite OMapFacts.delete_fresh.
Qed.

Lemma breakLinkById_frame (s : State) (k : string) :
  nodes (breakLinkById s k) = nodes s
  ∧ selectedNodes (breakLinkById s k) = selectedNodes s
  ∧ log (breakLinkById s k) = log s
  ∧ nextId (breakLinkById s k) = nextId s.
Proof. unfold breakLinkById. by destruct (OMap.get (links s) k). Qed.

Lemma breakLinks_by_id (ids : list string) (s : State) :
  let s' := fold_left breakLinkById ids s in
  (∀ k, OMap.get (links s') k
        = if decide (k ∈ ids) then None else OMap.get (links s) k)
  ∧ nodes s' = nodes s ∧ selectedNodes s' = selectedNodes s
  ∧ log s' = log s ∧ (wired s → wired s').
Proof.
  revert s. induction ids as [|id ids IH]; intros s; cbn [fold_left].
  - split; [|done]. intros k. rewrite decide_False; [done|].
    apply not_elem_of_nil.
  - destruct (IH (breakLinkById s id)) as (Hl & Hn & Hs & Hlog & Hw).
    destruct (breakLinkById_frame s id) as (Hn1 & Hs1 & Hlog1 & _).
    split; [|split; [congruence|split; [congruence|split; [congruence|]]]].
    + intros k. rewrite Hl, breakLinkById_links.
      destruct (decide (k ∈ ids)) as [Hin|Hin].
      * rewrite decide_True; [done|]. by right.
      * destruct (decide (id = k)) as [->|Hne].
        -- rewrite decide_True by left. apply OMapFacts.get_delete_eq.
        -- rewrite decide_False.
           ++ by apply OMapFacts.get_delete_ne.
           ++ intros H. apply elem_of_cons in H as [?|?]; congruence.
    + intros H. by apply Hw, breakLinkById_wired.
Qed.

(** X5. [deleteSelectedLinks] on a selection that is not empty: the
    selected links, and no others, leave the link collection; the nodes
    and the node selection stay; the link selection ends empty;
    [autoSave] fires; and the link lists of the pins still agree with the
    collection. *)
Theorem deleteSelectedLinks_removes (s : State) :
  selectedLinks s ≠ [] →
  let s' := deleteSelectedLinks s in
  selectedLinks s' = []
  ∧ (∀ k, OMap.get (links s') k
          = if decide (k ∈ selectedLinks s) then None
            else OMap.get (links s) k)
  ∧ nodes s' = nodes s ∧ selectedNodes s' = selectedNodes s
  ∧ log s' = log s ++ [AutoSave]
  ∧ (wired s → wired s').
Proof.
  intros Hne s'. subst s'. unfold deleteSelectedLinks.
  destruct (selectedLinks s) as [|x sel] eqn:E; [done|]. rewrite <- E.
  destruct (breakLinks_by_id (selectedLinks s) s) as (Hl & Hn & Hs & Hlog & Hw).
  split; [done|]. split; [exact Hl|]. split; [exact Hn|].
  split; [exact Hs|]. split; [simpl; by rewrite Hlog|].
  intros H. apply notify_wired. apply (wired_transfer _ _ (Hw H)); auto.
Qed.

(** [toggleLinkSelection] empties the node selection; it selects the link
    alone when it was not selected, and only deselects it when it was.
    The graph is not touched. *)
Lemma toggleLinkSelection_spec (s : State) (linkId : string) :
  let s' := toggleLinkSelection s linkId in
  selectedNodes s' = []
  ∧ (linkId ∉ selectedLinks s → selectedLinks s' = [linkId])
  ∧ (linkId ∈ selectedLinks s →
     selectedLinks s' = filter (fun x => x ≠ linkId) (selectedLinks s))
  ∧ ((length (selectedLinks s) ≤ 1)%nat → (length (selectedLinks s') ≤ 1)%nat)
  ∧ heap s' = heap s ∧ nodes s' = nodes s ∧ links s' = links s
  ∧ log s' = log s.
Proof.
  intros s'. subst s'. unfold toggleLinkSelection, OSet.has. simpl.
  case_bool_decide as Hin; simpl.
  - split; [done|]. split; [done|]. split; [done|].
    split; [|done]. intros Hlen. unfold OSet.delete.
    etransitivity; [apply length_filter|done].
  - split; [done|]. split; [done|]. split; [done|]. split; [|done].
    intros _. unfold OSet.add, OSet.has. simpl. lia.
Qed.

(** X7. A click on a wire that is not selected, followed by
    [deleteSelectedLinks], deletes that link and no other. *)
Theorem click_wire_then_delete (s : State) (linkId : string) :
  linkId ∉ selectedLinks s →
  let s' := deleteSelectedLinks (toggleLinkSelection s linkId) in
  OMap.get (links s') linkId = None
  ∧ (∀ k, k ≠ linkId → OMap.get (links s') k = OMap.get (links s) k)
  ∧ nodes s' = nodes s
  ∧ selectedLinks s' = [] ∧ selectedNodes s' = [].
Proof.
  intros Hnot s'. subst s'.
  assert (Ht : toggleLinkSelection s linkId
               = set_selectedLinks [linkId] (clearSelection s)).
  { unfold toggleLinkSelection, OSet.has. simpl.
    rewrite bool_decide_eq_false_2 by done. simpl.
    unfold OSet.add, OSet.has. simpl. done. }
  rewrite Ht. unfold deleteSelectedLinks. cbn [selectedLinks set_selectedLinks].
  destruct (breakLinks_by_id [linkId]
              (set_selectedLinks [linkId] (clearSelection s)))
    as (Hl & Hn & Hs & _).
  split.
  { cbn [links notify clearLinkSelection set_selectedLinks].
    rewrite Hl. apply decide_True. left. }
  split.
  { intros k Hk. cbn [links notify clearLinkSelection set_selectedLinks].
    rewrite Hl. apply decide_False.
    intros H. by apply list_elem_of_singleton in H. }
  split; [exact Hn|]. split; [done|]. exact Hs.
Qed.

(** ** Nodes and their pins *)

Section NodeProperties.

Variable nodeRegistry : string -> option Template.
Variable getConversionNodeKey : string -> string -> option string.
Variable getPinPosition : Pin -> Z * Z.


(** The number of live nodes made from the template [key]. *)
Definition instances (s : State) (key : string) : nat :=
  length (filter (fun n => node_nodeKey n = key) (OMap.values (nodes s))).

(** No singleton-flagged template has two live nodes. *)
Definition singletons_kept (s : State) : Prop :=
  ∀ key t, nodeRegistry key = Some t → t_isSingleton t = true →
           (instances s key ≤ 1)%nat.

Lemma count_set (P : Node → Prop) `{∀ n, Decision (P n)} (m : omap Node)
    (k : string) (v : Node) :
  (length (filter P (OMap.values (OMap.set m k v)))
   ≤ length (filter P (OMap.values m)) + (if decide (P v) then 1 else 0))%nat.
Proof.
  unfold OMap.values. induction m as [|[k' v'] m IH]; simpl.
  - rewrite filter_cons, filter_nil. destruct (decide (P v)); simpl; lia.
  - destruct (decide (k' = k)) as [->|Hne]; simpl.
    + rewrite !filter_cons.
      destruct (decide (P v)), (decide (P v')); simpl; lia.
    + rewrite !filter_cons. destruct (decide (P v')); simpl; lia.
Qed.

Lemma count_delete (P : Node → Prop) `{∀ n, Decision (P n)} (m : omap Node)
    (k : string) :
  (length (filter P (OMap.values (OMap.delete m k)))
   ≤ length (filter P (OMap.values m)))%nat.
Proof.
  unfold OMap.values. induction m as [|[k' v'] m IH]; simpl; [done|].
  destruct (decide (k' = k)); simpl; rewrite !filter_cons;
    destruct (decide (P v')); simpl; lia.
Qed.

Lemma find_none_count (key : string) (l : list Node) :
  List.find (fun n => bool_decide (node_nodeKey n = key)) l = None →
  length (filter (fun n => node_nodeKey n = key) l) = 0%nat.
Proof.
  induction l as [|n l IH]; simpl; [done|].
  case_bool_decide as E; [done|]. intros H.
  rewrite filter_cons, decide_False by done. by apply IH.
Qed.

Lemma addNode_instances (s : State) (key : string) (x y : Z) (key' : string)
    (t' : Template) :
  nodeRegistry key' = Some t' → t_isSingleton t' = true →
  (instances s key' ≤ 1)%nat →
  (instances (snd (addNode nodeRegistry s key x y)) key' ≤ 1)%nat.
Proof.
  intros Ht' Hs' Hle. unfold addNode.
  destruct (nodeRegistry key) as [t|] eqn:Ht; [|done].
  destruct (t_isSingleton t) eqn:Hsing.
  - destruct (List.find _ (OMap.values (nodes s))) as [e|] eqn:Ef.
    + simpl. unfold instances.
      by destruct (selectNode_frame s (node_id e) false ModeNew)
        as (_ & -> & _).
    + simpl. unfold instances in *. simpl.
      etransitivity; [apply count_set|]. simpl.
      destruct (decide (key = key')) as [->|Hne].
      * rewrite (find_none_count _ _ Ef). lia.
      * lia.
  - simpl. unfold instances in *. simpl.
    etransitivity; [apply count_set|]. simpl.
    rewrite decide_False; [lia|]. intros ->. congruence.
Qed.

(** X9. [addNode] and [createConnection] keep the singleton rule: when no
    singleton-flagged template has two live nodes before, none has
    after, whichever key is added and whichever adapter is inserted. *)
Theorem singletons_preserved (s : State) :
  singletons_kept s →
  (∀ key x y, singletons_kept (snd (addNode nodeRegistry s key x y)))
  ∧ (∀ a b, singletons_kept
              (createConnection nodeRegistry getConversionNodeKey
                 getPinPosition s (Some a) (Some b))).
Proof.
  intros Hk. split.
  - intros key x y key' t' Ht' Hs'. apply addNode_instances with t'; auto.
    by apply (Hk key' t').
  - intros a b key' t' Ht' Hs'. unfold createConnection.
    set (startPin := startPinOf s a b). set (endPin := endPinOf s a b).
    pose proof (replaceOnConnect_shrinks s endPin) as Hs1.
    set (s1 := replaceOnConnect s endPin) in *.
    assert (H1 : (instances s1 key' ≤ 1)%nat).
    { unfold instances. rewrite (shr_nodes _ _ Hs1). by apply (Hk key' t'). }
    assert (Hlink : ∀ s2 p q,
              (instances s2 key' ≤ 1)%nat →
              (instances (notify [AutoSave; MarkDirty] (_addLink s2 p q)) key'
               ≤ 1)%nat) by (intros s2 p q H; exact H).
    destruct (negb _ && negb _); [|by apply Hlink].
    destruct (getConversionNodeKey _ _) as [convKey|]; [|by apply Hlink].
    match goal with
    | |- context [addNode nodeRegistry s1 convKey ?x ?y] =>
        pose proof (addNode_instances s1 convKey x y key' t' Ht' Hs' H1) as H2;
        destruct (addNode nodeRegistry s1 convKey x y) as [[convNode|] s2]
    end; simpl in H2; [|by apply Hlink].
    destruct (node_findPinById s2 convNode _) as [convIn|];
      [destruct (node_findPinById s2 convNode _) as [convOut|]|].
    + exact H2.
    + apply Hlink. unfold instances in *. simpl.
      etransitivity; [apply count_delete|done].
    + apply Hlink. unfold instances in *. simpl.
      etransitivity; [apply count_delete|done].
Qed.

Lemma addNode_Some_plain (s : State) (key : string) (x y : Z) (node : Node)
    (s' : State) (n : Node) :
  addNode nodeRegistry s key x y = (Some node, s') →
  n ∈ OMap.values (nodes s) → node_nodeKey n = key →
  ∃ t, nodeRegistry key = Some t ∧ t_isSingleton t = false.
Proof.
  unfold addNode. intros Hadd Hn Hkey.
  destruct (nodeRegistry key) as [t|]; [|done]. exists t. split; [done|].
  destruct (t_isSingleton t); [|done]. exfalso.
  destruct (List.find _ (OMap.values (nodes s))) as [e|] eqn:Ef; [done|].
  apply list_elem_of_In in Hn. pose proof (find_none _ _ Ef n Hn) as Hno.
  by apply bool_decide_eq_false in Hno.
Qed.

Lemma mapPinIds_Some (s : State) (oldPins newPins : list ref)
    (m m' : omap string) :
  mapPinIds s oldPins newPins m = Some m' →
  (length oldPins ≤ length newPins)%nat.
Proof.
  revert newPins m. induction oldPins as [|o oldPins IH];
    intros newPins m; simpl; [lia|].
  destruct newPins as [|n newPins]; [done|]. intros H.
  apply IH in H. simpl. lia.
Qed.

Lemma duplicateNodes_inr (rest : list string) (s : State) (m : omap string)
    (ns : list string) (r : State * omap string * list string) :
  fresh_node_ids s →
  duplicateNodes nodeRegistry s rest m ns = inr r →
  ∀ id n, id ∈ rest → OMap.get (nodes s) id = Some n →
          ∃ t, nodeRegistry (node_nodeKey n) = Some t
               ∧ t_isSingleton t = false
               ∧ (length (node_pins n) ≤ length (t_pins t))%nat.
Proof.
  revert s m ns. induction rest as [|id0 rest IH]; intros s m ns Hf Hrun id n
    Hid Hn.
  { by apply elem_of_nil in Hid. }
  cbn [duplicateNodes] in Hrun.
  destruct (OMap.get (nodes s) id0) as [old|] eqn:Hold.
  2:{ apply elem_of_cons in Hid as [->|Hid]; [congruence|].
      by apply (IH s m ns Hf Hrun id n). }
  destruct (addNode nodeRegistry s (node_nodeKey old) (node_x old + 20)
                    (node_y old + 20)) as [[newNode|] s2] eqn:Eadd; [|done].
  destruct (mapPinIds s2 (node_pins old) (node_pins newNode) m)
    as [m2|] eqn:Emap; [|done].
  destruct (addNode_Some_plain _ _ _ _ _ _ old Eadd) as (t & Ht & Hsing);
    [|done|].
  { unfold OMap.values. apply list_elem_of_fmap. exists (id0, old).
    split; [done|]. by apply OMapFacts.get_Some_elem. }
  apply addNode_added in Eadd as (t' & Ht' & Hnew & Hs2).
  assert (t' = t) by congruence. subst t'.
  apply elem_of_cons in Hid as [->|Hid].
  - assert (n = old) by congruence. subst n. exists t.
    split; [done|]. split; [done|].
    apply mapPinIds_Some in Emap. rewrite Hnew in Emap. simpl in Emap.
    by rewrite length_seq in Emap.
  - apply (IH s2 m2 (ns ++ [node_id newNode])) with id; try done.
    + rewrite Hs2. by apply fresh_node_ids_add.
    + rewrite Hs2. simpl. rewrite OMapFacts.get_set_ne; [done|].
      intros <-. rewrite Hf in Hn; [done|lia].
Qed.

(** X10. [duplicateSelectedNodes] returns only for a selection it can
    copy: the selection is not empty (the call made for an empty one is to
    a method [WiringController] does not have), and every selected live
    node has a registered template that is not singleton-flagged and has
    at least as many pins as the node; otherwise [newNode.id], or
    [newPin.id], is read on nothing and the call throws. *)
Theorem duplicateSelectedNodes_returns (s s' : State) :
  fresh_node_ids s →
  duplicateSelectedNodes nodeRegistry getConversionNodeKey getPinPosition s
  = Returned s' →
  selectedNodes s ≠ []
  ∧ ∀ id n, id ∈ selectedNodes s → OMap.get (nodes s) id = Some n →
            ∃ t, nodeRegistry (node_nodeKey n) = Some t
                 ∧ t_isSingleton t = false
                 ∧ (length (node_pins n) ≤ length (t_pins t))%nat.
Proof.
  intros Hf. unfold duplicateSelectedNodes.
  destruct (selectedNodes s) as [|x sel] eqn:Esel; [done|].
  destruct (duplicateNodes nodeRegistry s (x :: sel) [] [])
    as [?|r] eqn:Edup; [done|].
  intros _. split; [done|]. by eapply duplicateNodes_inr.
Qed.

(** *** Renaming a variable *)






End NodeProperties.


(** ** Deleting nodes *)











(** ** Snapping to the grid *)



(** ** Loading a saved graph *)

Section Loading.

Variable nodeRegistry : string -> option Template.

Lemma restoreLiteral_frame (s : State) (node : Node) (sp : SavedPin) :
  set_node_pinLiterals [] (restoreLiteral s node sp)
  = set_node_pinLiterals [] node.
Proof.
  unfold restoreLiteral. destruct (node_findPinById s node _); [|done].
  by destruct (decide _).
Qed.

Lemma restoreLiterals_frame (s : State) (sps : list SavedPin) (node : Node) :
  set_node_pinLiterals [] (fold_left (restoreLiteral s) sps node)
  = set_node_pinLiterals [] node.
Proof.
  revert node. induction sps as [|sp sps IH]; intros node; simpl; [done|].
  by rewrite IH, restoreLiteral_frame.
Qed.

(** The pin specifications [loadState] builds a node from: the template's,
    but for a [CustomEvent] whose saved pins, the legacy delegate pin left
    out, are more than the template's. *)
Definition pinsToLoad (t : Template) (nd : SavedNode) : list PinSpec :=
  if decide (sn_nodeKey nd = "CustomEvent") then
    match sn_pins nd with
    | Some pins =>
        let kept :=
          List.filter
            (fun p => negb (bool_decide (sp_id p = "delegate_out"))
                      && negb (bool_decide (sp_name p = "Output Delegate")))
            pins in
        if decide (length (t_pins t) < length kept)%nat
        then map spec_of_saved kept else t_pins t
    | None => t_pins t
    end
  else t_pins t.

Lemma loadNode_spec (s : State) (nd : SavedNode) :
  match nodeRegistry (sn_nodeKey nd) with
  | None => loadNode nodeRegistry s nd = s
  | Some t =>
      ∃ node,
        loadNode nodeRegistry s nd
        = set_nodes (OMap.set (nodes s) (sn_id nd) node)
            (set_heap (heap s ++ map (new_Pin (sn_id nd)) (pinsToLoad t nd)) s)
        ∧ set_node_pinLiterals [] node
          = mkNode (sn_id nd) (sn_x nd) (sn_y nd) (sn_nodeKey nd) (t_title t)
              (seq (length (heap s)) (length (pinsToLoad t nd))) []
  end.
Proof.
  unfold loadNode. destruct (nodeRegistry (sn_nodeKey nd)) as [t|]; [|done].
  unfold new_Node. cbv zeta.
  set (specs := if bool_decide (sn_nodeKey nd = "CustomEvent") then _ else _).
  assert (Hspecs : specs = pinsToLoad t nd).
  { subst specs. unfold pinsToLoad.
    case_bool_decide as Hc.
    - rewrite decide_True by done. destruct (sn_pins nd) as [pins|]; [|done].
      simpl. case_bool_decide; by case_decide.
    - by rewrite decide_False. }
  rewrite Hspecs.
  set (node0 := mkNode _ _ _ _ _ _ _).
  set (s1 := set_heap _ s).
  set (node := match _ with Some pins => fold_left _ pins node0
                          | None => node0 end).
  assert (Hnode : set_node_pinLiterals [] node = node0).
  { subst node. clear Hspecs. clear specs.
    destruct (if bool_decide _ then _ else _); [|done].
    by rewrite restoreLiterals_frame. }
  assert (Hid : node_id node = sn_id nd).
  { change (node_id node) with (node_id (set_node_pinLiterals [] node)).
    by rewrite Hnode. }
  rewrite Hid. by exists node.
Qed.

Lemma loadNode_frame (s : State) (nd : SavedNode) :
  links (loadNode nodeRegistry s nd) = links s
  ∧ selectedNodes (loadNode nodeRegistry s nd) = selectedNodes s
  ∧ log (loadNode nodeRegistry s nd) = log s
  ∧ pending (loadNode nodeRegistry s nd) = pending s
  ∧ ∃ ext, heap (loadNode nodeRegistry s nd) = heap s ++ ext.
Proof.
  pose proof (loadNode_spec s nd) as H.
  destruct (nodeRegistry (sn_nodeKey nd)) as [t|].
  - destruct H as (node & -> & _). simpl. repeat split; eauto.
  - rewrite H. repeat split; try done. exists []. by rewrite app_nil_r.
Qed.

(** A saved node and the node loaded from it. *)
Definition loaded_from (nd : SavedNode) (n : Node) : Prop :=
  ∃ t, nodeRegistry (sn_nodeKey nd) = Some t
       ∧ node_id n = sn_id nd ∧ node_nodeKey n = sn_nodeKey nd
       ∧ node_x n = sn_x nd ∧ node_y n = sn_y nd
       ∧ node_title n = t_title t
       ∧ length (node_pins n) = length (pinsToLoad t nd).

Lemma loadNodes_nodes (nds : list SavedNode) (s : State) :
  let s' := fold_left (loadNode nodeRegistry) nds s in
  (∀ id n, OMap.get (nodes s') id = Some n →
           OMap.get (nodes s) id = Some n
           ∨ ∃ nd, nd ∈ nds ∧ sn_id nd = id ∧ loaded_from nd n)
  ∧ (∀ id, is_Some (OMap.get (nodes s) id) →
           is_Some (OMap.get (nodes s') id))
  ∧ (∀ nd, nd ∈ nds → is_Some (nodeRegistry (sn_nodeKey nd)) →
           is_Some (OMap.get (nodes s') (sn_id nd)))
  ∧ links s' = links s ∧ selectedNodes s' = selectedNodes s
  ∧ log s' = log s ∧ pending s' = pending s.
Proof.
  revert s. induction nds as [|nd nds IH]; intros s; cbn [fold_left].
  - cbv zeta. split; [by left|]. split; [done|]. split; [|done].
    intros nd H. by apply elem_of_nil in H.
  - specialize (IH (loadNode nodeRegistry s nd)). cbv zeta in IH.
    destruct IH as (H1 & H2 & H3 & Hl & Hs & Hlog & Hp).
    destruct (loadNode_frame s nd) as (Hl0 & Hs0 & Hlog0 & Hp0 & _).
    pose proof (loadNode_spec s nd) as Hspec.
    split; [|split; [|split; [|by rewrite Hl, Hs, Hlog, Hp]]].
    + intros id n Hn. destruct (H1 id n Hn) as [Hold|(nd' & Hin & Hid & Hfrom)].
      * destruct (nodeRegistry (sn_nodeKey nd)) as [t|] eqn:Ht.
        -- destruct Hspec as (node & Hrun & Hnode). rewrite Hrun in Hold.
           simpl in Hold. destruct (decide (sn_id nd = id)) as [E|E].
           ++ subst id. rewrite OMapFacts.get_set_eq in Hold.
              injection Hold as ->. right. exists nd. split; [left|].
              split; [done|]. exists t. split; [done|].
              apply (f_equal node_id) in Hnode as Hi.
              apply (f_equal node_nodeKey) in Hnode as Hk.
              apply (f_equal node_x) in Hnode as Hx.
              apply (f_equal node_y) in Hnode as Hy.
              apply (f_equal node_title) in Hnode as Hti.
              apply (f_equal node_pins) in Hnode as Hpi.
              simpl in *. repeat (split; [done|]).
              by rewrite Hpi, length_seq.
           ++ rewrite OMapFacts.get_set_ne in Hold by done. by left.
        -- rewrite Hspec in Hold. by left.
      * right. exists nd'. split; [by right|done].
    + intros id Hid. apply H2.
      destruct (nodeRegistry (sn_nodeKey nd)) as [t|].
      * destruct Hspec as (node & -> & _). simpl.
        destruct (decide (sn_id nd = id)) as [<-|E].
        -- rewrite OMapFacts.get_set_eq. eauto.
        -- by rewrite OMapFacts.get_set_ne.
      * by rewrite Hspec.
    + intros nd' Hin Hreg. apply elem_of_cons in Hin as [->|Hin];
        [|by apply H3].
      apply H2. destruct Hreg as [t Ht]. rewrite Ht in Hspec.
      destruct Hspec as (node & -> & _). simpl.
      rewrite OMapFacts.get_set_eq. eauto.
Qed.

Lemma loadLink_frame (s : State) (ld : SavedLink) :
  nodes (loadLink s ld) = nodes s
  ∧ (∀ r, same_pin (deref (loadLink s ld) r) (deref s r))
  ∧ selectedNodes (loadLink s ld) = selectedNodes s
  ∧ log (loadLink s ld) = log s ∧ pending (loadLink s ld) = pending s
  ∧ length (heap (loadLink s ld)) = length (heap s).
Proof.
  unfold loadLink.
  destruct (findPinById s (Some (sl_startPinId ld))) as [r1|]; [|done].
  destruct (findPinById s (Some (sl_endPinId ld))) as [r2|]; [|done].
  split; [done|]. split.
  - intros r. unfold same_pin, deref. simpl. by rewrite !alter_links_lookup.
  - simpl. by rewrite !length_alter.
Qed.

(** A saved link and the link loaded from it, in a state [s] where its
    pin identifiers are resolved. *)
Definition link_loaded_from (s : State) (ld : SavedLink) (l : Link) : Prop :=
  link_id l = sl_id ld
  ∧ findPinById s (Some (sl_startPinId ld)) = Some (link_startPin l)
  ∧ findPinById s (Some (sl_endPinId ld)) = Some (link_endPin l).

Lemma loadLinks_links (lds : list SavedLink) (s : State) :
  let s' := fold_left loadLink lds s in
  nodes s' = nodes s
  ∧ (∀ r, same_pin (deref s' r) (deref s r))
  ∧ selectedNodes s' = selectedNodes s
  ∧ log s' = log s ∧ pending s' = pending s
  ∧ (∀ k l, OMap.get (links s') k = Some l →
            OMap.get (links s) k = Some l
            ∨ ∃ ld, ld ∈ lds ∧ sl_id ld = k ∧ link_loaded_from s ld l)
  ∧ (∀ k, is_Some (OMap.get (links s) k) → is_Some (OMap.get (links s') k))
  ∧ (∀ ld, ld ∈ lds →
           is_Some (findPinById s (Some (sl_startPinId ld))) →
           is_Some (findPinById s (Some (sl_endPinId ld))) →
           is_Some (OMap.get (links s') (sl_id ld))).
Proof.
  revert s. induction lds as [|ld lds IH]; intros s; cbn [fold_left].
  - cbv zeta. repeat (split; [done|]). split; [by left|]. split; [done|].
    intros ld H. by apply elem_of_nil in H.
  - specialize (IH (loadLink s ld)). cbv zeta in IH.
    destruct IH as (Hn & Hp & Hs & Hlog & Hpe & H1 & H2 & H3).
    destruct (loadLink_frame s ld) as (Hn0 & Hp0 & Hs0 & Hlog0 & Hpe0 & _).
    assert (Hpid : ∀ r, pin_id (deref (loadLink s ld) r) = pin_id (deref s r))
      by (intros r; by destruct (same_pin_fields _ _ (Hp0 r)) as (? & _)).
    assert (Hfind : ∀ x, findPinById (loadLink s ld) x = findPinById s x)
      by (intros x; by apply findPinById_stable).
    split; [congruence|]. split.
    { intros r. unfold same_pin in *. by rewrite Hp. }
    split; [congruence|]. split; [congruence|]. split; [congruence|].
    assert (Hstep : ∀ k,
      OMap.get (links (loadLink s ld)) k
      = match findPinById s (Some (sl_startPinId ld)),
              findPinById s (Some (sl_endPinId ld)) with
        | Some r1, Some r2 =>
            if decide (sl_id ld = k) then Some (mkLink (sl_id ld) r1 r2)
            else OMap.get (links s) k
        | _, _ => OMap.get (links s) k
        end).
    { intros k. unfold loadLink.
      destruct (findPinById s (Some (sl_startPinId ld))) as [r1|]; [|done].
      destruct (findPinById s (Some (sl_endPinId ld))) as [r2|]; [|done].
      simpl. destruct (decide (sl_id ld = k)) as [<-|E].
      - apply OMapFacts.get_set_eq.
      - by apply OMapFacts.get_set_ne. }
    split; [|split].
    + intros k l Hl. destruct (H1 k l Hl) as [Hold|(ld' & Hin & Hid & Hfrom)].
      * rewrite Hstep in Hold.
        destruct (findPinById s (Some (sl_startPinId ld))) as [r1|] eqn:E1;
          [|by left].
        destruct (findPinById s (Some (sl_endPinId ld))) as [r2|] eqn:E2;
          [|by left].
        destruct (decide (sl_id ld = k)) as [<-|E]; [|by left].
        injection Hold as <-. right. exists ld. split; [left|].
        split; [done|]. by repeat split.
      * right. exists ld'. split; [by right|]. split; [done|].
        destruct Hfrom as (? & ? & ?). unfold link_loaded_from.
        by rewrite <- !Hfind.
    + intros k Hk. apply H2. rewrite Hstep.
      destruct (findPinById s (Some (sl_startPinId ld))); [|done].
      destruct (findPinById s (Some (sl_endPinId ld))); [|done].
      case_decide; eauto.
    + intros ld' Hin Hr1 Hr2. apply elem_of_cons in Hin as [->|Hin].
      * apply H2. rewrite Hstep. destruct Hr1 as [r1 ->], Hr2 as [r2 ->].
        rewrite decide_True by done. eauto.
      * apply H3; [done|by rewrite Hfind|by rewrite Hfind].
Qed.

(** X14. [loadState] replaces the graph: every node afterwards is loaded
    from a saved node of that identifier whose key is registered, with
    its key, position and the title of its template; saved nodes with an
    unknown key are skipped and all others are there; the selection is
    left as it was, and neither [autoSave] nor [markDirty] fires. *)
Theorem loadState_nodes (s : State) (st : SavedState) :
  let s' := loadState nodeRegistry s st in
  (∀ id n, OMap.get (nodes s') id = Some n →
           ∃ nd, nd ∈ st_nodes st ∧ sn_id nd = id ∧ loaded_from nd n)
  ∧ (∀ nd, nd ∈ st_nodes st →
           (is_Some (nodeRegistry (sn_nodeKey nd))
            → is_Some (OMap.get (nodes s') (sn_id nd)))
           ∧ ((∀ nd', nd' ∈ st_nodes st → sn_id nd' = sn_id nd →
                      nodeRegistry (sn_nodeKey nd') = None)
              → OMap.get (nodes s') (sn_id nd) = None))
  ∧ selectedNodes s' = selectedNodes s
  ∧ log s' = log s ∧ pending s' = pending s.
Proof.
  intros s'. subst s'. unfold loadState.
  set (s0 := set_links [] (set_nodes [] s)).
  destruct (loadNodes_nodes (st_nodes st) s0)
    as (H1 & _ & H3 & _ & Hs & Hlog & Hp).
  destruct (loadLinks_links (st_links st)
              (fold_left (loadNode nodeRegistry) (st_nodes st) s0))
    as (Hn & _ & Hs' & Hlog' & Hp' & _).
  rewrite Hn, Hs', Hlog', Hp', Hs, Hlog, Hp.
  assert (Hfrom : ∀ id n,
    OMap.get (nodes (fold_left (loadNode nodeRegistry) (st_nodes st) s0)) id
    = Some n →
    ∃ nd, nd ∈ st_nodes st ∧ sn_id nd = id ∧ loaded_from nd n).
  { intros id n Hn'. by destruct (H1 id n Hn') as [?|?]. }
  split; [exact Hfrom|]. split; [|done].
  intros nd Hin. split; [by apply H3|].
  intros Hnone.
  destruct (OMap.get (nodes (fold_left _ (st_nodes st) s0)) (sn_id nd))
    as [n|] eqn:E; [|done].
  destruct (Hfrom _ _ E) as (nd' & Hin' & Hid & t & Ht & _).
  by rewrite (Hnone nd' Hin' Hid) in Ht.
Qed.

(** X15. Every link of the loaded graph is a saved link both of whose pin
    identifiers resolve in the loaded graph, and joins the two pins they
    resolve to; a saved link with an unresolved end is dropped, and every
    saved link that resolves is there. *)
Theorem loadState_links (s : State) (st : SavedState) :
  let s' := loadState nodeRegistry s st in
  (∀ k l, OMap.get (links s') k = Some l →
          ∃ ld, ld ∈ st_links st ∧ sl_id ld = k ∧ link_loaded_from s' ld l)
  ∧ (∀ ld, ld ∈ st_links st →
           is_Some (findPinById s' (Some (sl_startPinId ld))) →
           is_Some (findPinById s' (Some (sl_endPinId ld))) →
           is_Some (OMap.get (links s') (sl_id ld))).
Proof.
  intros s'. subst s'. unfold loadState.
  set (s0 := set_links [] (set_nodes [] s)).
  set (sN := fold_left (loadNode nodeRegistry) (st_nodes st) s0).
  destruct (loadNodes_nodes (st_nodes st) s0) as (_ & _ & _ & Hl0 & _).
  fold sN in Hl0.
  destruct (loadLinks_links (st_links st) sN)
    as (Hn & Hp & _ & _ & _ & H1 & _ & H3).
  assert (Hfind : ∀ x, findPinById (fold_left loadLink (st_links st) sN) x
                       = findPinById sN x).
  { intros x. apply findPinById_stable; [done|].
    intros r. by destruct (same_pin_fields _ _ (Hp r)) as (? & _). }
  split.
  - intros k l Hl. destruct (H1 k l Hl) as [Hold|(ld & Hin & Hid & Hfrom)].
    + by rewrite Hl0 in Hold.
    + exists ld. split; [done|]. split; [done|].
      unfold link_loaded_from in *. by rewrite !Hfind.
  - intros ld Hin Hr1 Hr2. rewrite Hfind in Hr1, Hr2. by apply H3.
Qed.

End Loading.

(** ** The mouse *)

Section Marquee.

Variable nodeBounds : Node -> Rect.

(** The selection after [selectNode(id, true, mode)] on a live node. *)
Definition selectInto (mode : selectMode) (sel : oset) (id : string) : oset :=
  match mode with
  | ModeAdd | ModeNew => OSet.add sel id
  | ModeRemove => OSet.delete sel id
  | ModeToggle => if OSet.has sel id then OSet.delete sel id
                  else OSet.add sel id
  end.

Lemma selectNode_keeping (s : State) (id : string) (mode : selectMode) :
  is_Some (OMap.get (nodes s) id) →
  selectNode s id true mode
  = set_selectedNodes (selectInto mode (selectedNodes s) id) s.
Proof.
  intros [n Hn]. unfold selectNode, selectInto. rewrite Hn.
  destruct mode; try done. by destruct (OSet.has _ _).
Qed.

Lemma selectInto_elem (mode : selectMode) (sel : oset) (id j : string) :
  j ∈ selectInto mode sel id
  ↔ match mode with
    | ModeAdd | ModeNew => j = id ∨ j ∈ sel
    | ModeRemove => j ≠ id ∧ j ∈ sel
    | ModeToggle => (j = id ∧ (id ∉ sel)) ∨ (j ≠ id ∧ j ∈ sel)
    end.
Proof.
  unfold selectInto. destruct mode.
  - apply OSet_elem_add.
  - apply OSet_elem_delete.
  - unfold OSet.has. case_bool_decide as Hin.
    + rewrite OSet_elem_delete. split; [tauto|].
      intros [[_ ?]|?]; [done|tauto].
    + rewrite OSet_elem_add. split.
      * intros [->|Hj]; [by left|]. right. split; [|done]. by intros ->.
      * intros [[-> _]|[_ ?]]; [by left|by right].
  - apply OSet_elem_add.
Qed.

(** Some node of [ns] with the identifier [j] has its centre in [rect]. *)
Definition hitAmong (rect : Rect) (ns : list Node) (j : string) : bool :=
  existsb (fun n => bool_decide (node_id n = j) && centreInside nodeBounds rect n)
          ns.

Lemma selectNodes_fold (rect : Rect) (mode : selectMode) (s : State)
    (ns : list Node) (sel0 : oset) :
  (∀ n, n ∈ ns → is_Some (OMap.get (nodes s) (node_id n))) →
  NoDup (map node_id ns) →
  ∃ sel',
    fold_left
      (fun s node =>
         if centreInside nodeBounds rect node
         then selectNode s (node_id node) true mode else s)
      ns (set_selectedNodes sel0 s)
    = set_selectedNodes sel' s
    ∧ ∀ j, j ∈ sel'
           ↔ match mode with
             | ModeAdd | ModeNew => j ∈ sel0 ∨ hitAmong rect ns j = true
             | ModeRemove => j ∈ sel0 ∧ hitAmong rect ns j = false
             | ModeToggle =>
                 (j ∈ sel0 ∧ hitAmong rect ns j = false)
                 ∨ ((j ∉ sel0) ∧ hitAmong rect ns j = true)
             end.
Proof.
  revert sel0. induction ns as [|n ns IH]; intros sel0 Hlive Hnd;
    cbn [fold_left].
  - exists sel0. split; [done|]. intros j. simpl.
    destruct mode; intuition congruence.
  - simpl in Hnd. apply NoDup_cons in Hnd as [Hn Hnd].
    assert (Hrest : ∀ j, hitAmong rect ns j = true → j ≠ node_id n).
    { intros j Hj ->. apply Hn. unfold hitAmong in Hj.
      apply existsb_exists in Hj as (n' & Hin & Hb).
      apply andb_true_iff in Hb as [Hb _]. apply bool_decide_eq_true in Hb.
      apply list_elem_of_fmap. exists n'. split; [done|].
      by apply list_elem_of_In. }
    assert (Hlive' : ∀ n', n' ∈ ns →
                           is_Some (OMap.get (nodes s) (node_id n')))
      by (intros; apply Hlive; by right).
    assert (Hcons : ∀ j, hitAmong rect (n :: ns) j
                         = (bool_decide (node_id n = j)
                            && centreInside nodeBounds rect n)
                           || hitAmong rect ns j) by done.
    destruct (centreInside nodeBounds rect n) eqn:Ec.
    + rewrite selectNode_keeping by (apply Hlive; left).
      change (set_selectedNodes
                (selectInto mode (selectedNodes (set_selectedNodes sel0 s))
                            (node_id n))
                (set_selectedNodes sel0 s))
        with (set_selectedNodes (selectInto mode sel0 (node_id n)) s).
      destruct (IH (selectInto mode sel0 (node_id n)) Hlive' Hnd)
        as (sel' & Hrun & Hsel).
      exists sel'. split; [exact Hrun|].
      intros j. rewrite Hsel, Hcons, andb_true_r.
      pose proof (selectInto_elem mode sel0 (node_id n) j) as Hin.
      specialize (Hrest j).
      destruct (hitAmong rect ns j) eqn:Eh;
        destruct (decide (node_id n = j)) as [E|E];
        try (rewrite (bool_decide_eq_true_2 _ E));
        try (rewrite (bool_decide_eq_false_2 _ E)); simpl;
        destruct mode; try (exfalso; by apply Hrest);
        rewrite ?Hin;
        destruct (decide (j ∈ sel0));
        try subst j; intuition congruence.
    + destruct (IH sel0 Hlive' Hnd) as (sel' & Hrun & Hsel).
      exists sel'. split; [exact Hrun|]. intros j. rewrite Hsel, Hcons.
      by rewrite andb_false_r.
Qed.

(** X16. The marquee.  In a graph whose nodes are stored once, under
    their identifier, [selectNodesInRect] changes nothing but the node
    selection; with the nodes whose centre lies in the rectangle, [add]
    and [new] enlarge the selection, [remove] reduces it, and [toggle]
    flips each of them once. *)
Theorem selectNodesInRect_selects (s : State) (rect : Rect)
    (mode : selectMode) :
  nodes_keyed s → NoDup (OMap.keys (nodes s)) →
  let s' := selectNodesInRect nodeBounds s rect mode in
  let hit j := ∃ n, OMap.get (nodes s) j = Some n
                    ∧ centreInside nodeBounds rect n = true in
  s' = set_selectedNodes (selectedNodes s') s
  ∧ ∀ j, j ∈ selectedNodes s'
         ↔ match mode with
           | ModeAdd | ModeNew => j ∈ selectedNodes s ∨ hit j
           | ModeRemove => j ∈ selectedNodes s ∧ ¬ hit j
           | ModeToggle =>
               (j ∈ selectedNodes s ∧ ¬ hit j)
               ∨ ((j ∉ selectedNodes s) ∧ hit j)
           end.
Proof.
  intros Hk Hnd s' hit. subst s'. unfold selectNodesInRect.
  assert (Hids : map node_id (OMap.values (nodes s)) = OMap.keys (nodes s))
    by (apply keyed_ids; exact Hk).
  assert (Hin : ∀ n, n ∈ OMap.values (nodes s) →
                     OMap.get (nodes s) (node_id n) = Some n).
  { intros n Hn. unfold OMap.values in Hn.
    apply list_elem_of_fmap in Hn as ([k n'] & -> & Hkn). simpl.
    rewrite (Hk k n' Hkn). by apply OMapFacts.get_NoDup. }
  destruct (selectNodes_fold rect mode s (OMap.values (nodes s))
              (selectedNodes s)) as (sel' & Hrun & Hsel).
  { intros n Hn. rewrite (Hin n Hn). eauto. }
  { by rewrite Hids. }
  replace (set_selectedNodes (selectedNodes s) s) with s in Hrun
    by (by destruct s).
  rewrite Hrun. split; [done|]. simpl.
  assert (Hhit : ∀ j, hitAmong rect (OMap.values (nodes s)) j = true ↔ hit j).
  { intros j. unfold hitAmong, hit. rewrite existsb_exists. split.
    - intros (n & Hn & Hb). apply andb_true_iff in Hb as [Hb Hc].
      apply bool_decide_eq_true in Hb. apply list_elem_of_In in Hn.
      exists n. split; [|done]. rewrite <- Hb. by apply Hin.
    - intros (n & Hn & Hc). exists n.
      apply OMapFacts.get_Some_elem in Hn as Hel.
      split.
      + apply list_elem_of_In. unfold OMap.values.
        apply list_elem_of_fmap. by exists (j, n).
      + rewrite (bool_decide_eq_true_2 _ (Hk j n Hel)). done. }
  intros j. rewrite Hsel.
  destruct (hitAmong rect (OMap.values (nodes s)) j) eqn:Eh.
  - assert (hit j) by (by apply Hhit). destruct mode; intuition congruence.
  - assert (¬ hit j) by (intros H; apply Hhit in H; congruence).
    destruct mode; intuition congruence.
Qed.

End Marquee.

Section Gesturing.

Variable nodeRegistry : string -> option Template.
Variable getConversionNodeKey : string -> string -> option string.
Variable getPinPosition : Pin -> Z * Z.
Variable getGraphCoords : Z * Z -> Z -> Z -> Z * Z.
Variable nodeBounds : Node -> Rect.

(** The five modes of the pointer. *)
Definition modes (ed : Editor) : bool * bool * bool * bool * bool :=
  (isPanning ed, isDraggingNode ed, isWiring ed, isRmbDown ed,
   isMarqueeing ed).

Definition idle (ed : Editor) : Prop :=
  modes ed = (false, false, false, false, false).

(** At most one mode is on. *)
Definition one_mode (ed : Editor) : Prop :=
  modes ed ∈ [(false, false, false, false, false);
              (true, false, false, false, false);
              (false, true, false, false, false);
              (false, false, true, false, false);
              (false, false, false, true, false);
              (false, false, false, false, true)].

Lemma mouseDown_modes (ed : Editor) (e : MouseEvent) :
  idle ed → one_mode (handleEditorMouseDown getGraphCoords ed e).
Proof.
  unfold idle, one_mode, modes. intros [= Hp Hd Hw Hr Hm].
  unfold handleEditorMouseDown. cbn [isMarqueeing set_graph set_hasDragged].
  rewrite Hm. destruct (target_isWire e).
  { simpl. rewrite Hp, Hd, Hw, Hr, Hm. left. }
  assert (Hbg : ∀ ed0, modes ed0 = (false, false, false, false, false) →
                       modes (mouseDownOnBackground ed0 e)
                       ∈ [(false, false, false, false, false);
                          (true, false, false, false, false);
                          (false, true, false, false, false);
                          (false, false, true, false, false);
                          (false, false, false, true, false);
                          (false, false, false, false, true)]).
  { intros ed0 [= Hp0 Hd0 Hw0 Hr0 Hm0]. unfold mouseDownOnBackground, modes.
    destruct (_ || _); simpl.
    { rewrite Hd0, Hw0, Hr0, Hm0. right; left. }
    destruct (decide (button e = 2)); simpl.
    { rewrite Hp0, Hd0, Hw0, Hm0. do 4 right; left. }
    destruct (decide (button e = 0)); simpl.
    - destruct (_ && _); simpl; rewrite Hp0, Hd0, Hw0, Hr0; do 5 right; left.
    - rewrite Hp0, Hd0, Hw0, Hr0, Hm0. left. }
  set (ed1 := set_graph _ _).
  assert (H1 : modes ed1 = (false, false, false, false, false))
    by (unfold modes; simpl; by rewrite Hp, Hd, Hw, Hr, Hm).
  assert (Hnode :
    modes (match target_node e, decide (button e = 0) with
           | Some nodeId, left _ => mouseDownOnNode getGraphCoords ed1 e nodeId
           | _, _ => mouseDownOnBackground ed1 e
           end)
    ∈ [(false, false, false, false, false);
       (true, false, false, false, false);
       (false, true, false, false, false);
       (false, false, true, false, false);
       (false, false, false, true, false);
       (false, false, false, false, true)]).
  { destruct (target_node e) as [nodeId|]; [|by apply Hbg].
    destruct (decide (button e = 0)); [|by apply Hbg].
    unfold mouseDownOnNode, modes. simpl. injection H1 as -> _ -> -> ->.
    do 2 right; left. }
  fold (modes (match target_pin e, decide (button e = 0) with
               | Some pinId, left _ => mouseDownOnPin ed1 e pinId
               | _, _ => match target_node e, decide (button e = 0) with
                         | Some nodeId, left _ =>
                             mouseDownOnNode getGraphCoords ed1 e nodeId
                         | _, _ => mouseDownOnBackground ed1 e
                         end
               end)).
  destruct (target_pin e) as [pinId|]; [|exact Hnode].
  destruct (decide (button e = 0)); [|exact Hnode].
  unfold mouseDownOnPin, modes. cbn [activePin set_activePin].
  injection H1 as Hp1 Hd1 _ Hr1 Hm1.
  destruct (findPinById _ pinId) as [p|]; [destruct (_ && _)|]; simpl;
    rewrite ?Hp1, ?Hd1, ?Hr1, ?Hm1; do 3 right; left.
Qed.

Lemma mouseMove_modes (ed : Editor) (e : MouseEvent) :
  modes (handleGlobalMouseMove getGraphCoords ed e) = modes ed.
Proof.
  unfold handleGlobalMouseMove, modes.
  set (ed1 := if negb (bool_decide (movementX e = 0))
                 || negb (bool_decide (movementY e = 0))
              then set_hasDragged true ed else ed).
  assert (H1 : (isPanning ed1, isDraggingNode ed1, isWiring ed1,
                isRmbDown ed1, isMarqueeing ed1)
               = (isPanning ed, isDraggingNode ed, isWiring ed,
                  isRmbDown ed, isMarqueeing ed))
    by (subst ed1; by destruct (negb _ || negb _)).
  rewrite <- H1. clearbody ed1.
  destruct (isPanning ed1 || isRmbDown ed1); [done|].
  destruct (isDraggingNode ed1) eqn:Ed; [|by rewrite Ed].
  simpl. by rewrite Ed.
Qed.

Lemma mouseMoves_modes (moves : list MouseEvent) (ed : Editor) :
  modes (fold_left (handleGlobalMouseMove getGraphCoords) moves ed)
  = modes ed.
Proof.
  revert ed. induction moves as [|e moves IH]; intros ed; simpl; [done|].
  by rewrite IH, mouseMove_modes.
Qed.

Lemma mouseUp_idle (ed : Editor) (e : MouseEvent) (marqueeRect : Rect) :
  one_mode ed →
  idle (handleGlobalMouseUp nodeRegistry getConversionNodeKey getPinPosition
          nodeBounds ed e marqueeRect).
Proof.
  unfold one_mode, idle, modes. intros H.
  destruct ed as [g pn bp bd bw br bm hd ap ds off ms]; simpl in H.
  unfold handleGlobalMouseUp.
  repeat (apply elem_of_cons in H as [H|H]);
    [..|by apply elem_of_nil in H]; injection H as -> -> -> -> ->;
    try reflexivity.
  cbn [isWiring activePin graph].
  destruct (target_pin e) as [endPinId|], ap as [a|]; try reflexivity.
  destruct (findPinById g endPinId) as [b|]; [|reflexivity].
  by destruct (canConnect _ _ _ _).
Qed.

(** X17. A gesture ends where it began: from an editor in no mode, after
    the pointer went down (on whatever, with whatever button and keys),
    moved any number of times and came up, the editor is in no mode
    again; in between at most one of panning, dragging, wiring,
    right-button panning and marquee selection is on. *)
Theorem gesture_returns_to_idle (ed : Editor) (down up : MouseEvent)
    (moves : list MouseEvent) (marqueeRect : Rect) :
  idle ed →
  let ed1 := handleEditorMouseDown getGraphCoords ed down in
  let ed2 := fold_left (handleGlobalMouseMove getGraphCoords) moves ed1 in
  one_mode ed1 ∧ modes ed2 = modes ed1
  ∧ idle (handleGlobalMouseUp nodeRegistry getConversionNodeKey
            getPinPosition nodeBounds ed2 up marqueeRect).
Proof.
  intros Hidle ed1 ed2.
  pose proof (mouseDown_modes ed down Hidle) as H1. fold ed1 in H1.
  pose proof (mouseMoves_modes moves ed1) as H2. fold ed2 in H2.
  split; [done|]. split; [done|].
  apply mouseUp_idle. unfold one_mode. by rewrite H2.
Qed.

(** X6. A click on a wire selects that wire, and nothing else.  The
    button going down on a wire passes through [handleEditorMouseDown],
    which empties the link selection before it sees the wire and starts
    no gesture; the click that follows therefore finds the wire
    unselected, whatever was selected before: [toggleLinkSelection] never
    deselects, and afterwards the wire is the one selected link, no node
    is selected, and the graph is as it was. *)
Theorem wire_click_selects (ed : Editor) (e : MouseEvent) (linkId : string) :
  target_isWire e = true →
  let ed1 := handleEditorMouseDown getGraphCoords ed e in
  let s' := toggleLinkSelection (graph ed1) linkId in
  selectedLinks (graph ed1) = []
  ∧ selectedLinks s' = [linkId] ∧ selectedNodes s' = []
  ∧ heap s' = heap (graph ed) ∧ nodes s' = nodes (graph ed)
  ∧ links s' = links (graph ed) ∧ log s' = log (graph ed)
  ∧ isWiring ed1 = isWiring ed ∧ isDraggingNode ed1 = isDraggingNode ed
  ∧ isPanning ed1 = isPanning ed ∧ isMarqueeing ed1 = false.
Proof.
  intros Hwire ed1 s'.
  assert (E1 : graph ed1 = clearLinkSelection (graph ed)
               ∧ isWiring ed1 = isWiring ed
               ∧ isDraggingNode ed1 = isDraggingNode ed
               ∧ isPanning ed1 = isPanning ed ∧ isMarqueeing ed1 = false).
  { subst ed1. unfold handleEditorMouseDown. rewrite Hwire. cbv zeta.
    cbn [isMarqueeing set_graph set_hasDragged].
    by destruct (isMarqueeing ed) eqn:Em. }
  destruct E1 as (Eg & Ew & Ed & Ep & Em).
  assert (Hsel : selectedLinks (graph ed1) = []) by by rewrite Eg.
  assert (Hout : linkId ∉ selectedLinks (graph ed1))
    by (rewrite Hsel; apply not_elem_of_nil).
  destruct (toggleLinkSelection_spec (graph ed1) linkId)
    as (Hn & Hadd & _ & _ & Hh & Hnodes & Hlinks & Hlog).
  fold s' in Hn, Hadd, Hh, Hnodes, Hlinks, Hlog.
  rewrite Hn, (Hadd Hout), Hh, Hnodes, Hlinks, Hlog, Eg.
  by split_and!.
Qed.

End Gesturing.

Section Dragging.

Variable getGraphCoords : Z * Z -> Z -> Z -> Z * Z.

(** The offsets recorded by a press on a node: one for every selected
    node of the graph, none for the others. *)
Lemma offsets_fold (g : State) (m : Z * Z) (sel : list string)
    (acc : omap (Z * Z)) (id : string) :
  OMap.get
    (fold_left
       (fun offsets nodeId =>
          match OMap.get (nodes g) nodeId with
          | Some node =>
              OMap.set offsets nodeId
                       (fst m - node_x node, snd m - node_y node)
          | None => offsets
          end) sel acc) id
  = match OMap.get (nodes g) id with
    | Some node =>
        if decide (id ∈ sel)
        then Some (fst m - node_x node, snd m - node_y node)
        else OMap.get acc id
    | None => OMap.get acc id
    end.
Proof.
  revert acc. induction sel as [|k sel IH]; intros acc; cbn [fold_left].
  { destruct (OMap.get (nodes g) id); [|done].
    by rewrite decide_False by apply not_elem_of_nil. }
  rewrite IH. destruct (OMap.get (nodes g) id) as [node|] eqn:Eid.
  - destruct (decide (id ∈ sel)) as [Hin|Hout].
    + by rewrite decide_True by (by right).
    + destruct (decide (k = id)) as [->|Hne].
      * rewrite Eid, OMapFacts.get_set_eq. by rewrite decide_True by left.
      * rewrite decide_False
          by (intros H; apply elem_of_cons in H as [?|?]; congruence).
        destruct (OMap.get (nodes g) k); [|done].
        by rewrite OMapFacts.get_set_ne.
  - destruct (OMap.get (nodes g) k) eqn:Ek; [|done].
    rewrite OMapFacts.get_set_ne; [done|]. intros ->. congruence.
Qed.

(** One move of the pointer while dragging: every listed node that has an
    offset goes to the pointer less its offset. *)
Lemma drag_fold (offsets : omap (Z * Z)) (m : Z * Z) (sel : list string)
    (g : State) (id : string) :
  let g' :=
    fold_left
      (fun g nodeId =>
         match OMap.get (nodes g) nodeId, OMap.get offsets nodeId with
         | Some node, Some offset =>
             set_nodes
               (OMap.set (nodes g) nodeId
                  (set_node_pos (fst m - fst offset) (snd m - snd offset)
                                node)) g
         | _, _ => g
         end) sel g in
  OMap.get (nodes g') id
  = match OMap.get (nodes g) id, OMap.get offsets id with
    | Some node, Some offset =>
        Some (if decide (id ∈ sel)
              then set_node_pos (fst m - fst offset) (snd m - snd offset)
                                node
              else node)
    | other, _ => other
    end
  ∧ heap g' = heap g ∧ links g' = links g
  ∧ selectedNodes g' = selectedNodes g ∧ log g' = log g.
Proof.
  revert g. induction sel as [|k sel IH]; intros g; cbn [fold_left].
  { cbv zeta. split; [|done].
    destruct (OMap.get (nodes g) id); [|done].
    destruct (OMap.get offsets id); [|done].
    by rewrite decide_False by apply not_elem_of_nil. }
  cbv zeta. set (g1 := match OMap.get (nodes g) k with
                       | Some node =>
                           match OMap.get offsets k with
                           | Some offset => _
                           | None => g
                           end
                       | None => g
                       end).
  specialize (IH g1). cbv zeta in IH.
  destruct IH as (IH & -> & -> & -> & ->). rewrite IH. clear IH.
  assert (H1 : heap g1 = heap g ∧ links g1 = links g
               ∧ selectedNodes g1 = selectedNodes g ∧ log g1 = log g).
  { subst g1. destruct (OMap.get (nodes g) k); [|done].
    by destruct (OMap.get offsets k). }
  split; [|done].
  destruct (decide (k = id)) as [->|Hne].
  - subst g1. destruct (OMap.get (nodes g) id) as [node|] eqn:Eid; [|by rewrite Eid].
    destruct (OMap.get offsets id) as [offset|] eqn:Eo.
    + cbn [nodes set_nodes]. rewrite OMapFacts.get_set_eq.
      rewrite (decide_True (P := id ∈ id :: sel)) by left.
      by destruct (decide (id ∈ sel)).
    + by rewrite Eid.
  - assert (Hg : OMap.get (nodes g1) id = OMap.get (nodes g) id).
    { subst g1. destruct (OMap.get (nodes g) k); [|done].
      destruct (OMap.get offsets k); [|done].
      cbn [nodes set_nodes]. by rewrite OMapFacts.get_set_ne. }
    rewrite Hg. destruct (OMap.get (nodes g) id); [|done].
    destruct (OMap.get offsets id); [|done].
    destruct (decide (id ∈ sel)) as [Hin|Hout].
    + by rewrite decide_True by (by right).
    + by rewrite decide_False
        by (intros H; apply elem_of_cons in H as [?|?]; congruence).
Qed.

(** X18. Dragging moves the selection with the pointer.  After the left
    button went down on a node (not on a pin or a wire) while no panning
    is under way, one move of the pointer puts every selected node at the
    pointer less the offset the pointer had to it at the press, and
    leaves the other nodes, the pins, the links and the selection as they
    were. *)
Theorem drag_moves_selection (ed : Editor) (down move : MouseEvent)
    (nodeId : string) :
  isPanning ed = false → isRmbDown ed = false →
  target_isWire down = false → target_pin down = None →
  target_node down = Some nodeId → button down = 0 →
  let ed1 := handleEditorMouseDown getGraphCoords ed down in
  let ed2 := handleGlobalMouseMove getGraphCoords ed1 move in
  let m0 := getGraphCoords (pan ed) (clientX down) (clientY down) in
  let m1 := getGraphCoords (pan ed) (clientX move) (clientY move) in
  (∀ id,
     OMap.get (nodes (graph ed2)) id
     = match OMap.get (nodes (graph ed)) id with
       | Some node =>
           Some (if decide (id ∈ selectedNodes (graph ed1))
                 then set_node_pos (fst m1 - (fst m0 - node_x node))
                                   (snd m1 - (snd m0 - node_y node)) node
                 else node)
       | None => None
       end)
  ∧ heap (graph ed2) = heap (graph ed)
  ∧ links (graph ed2) = links (graph ed)
  ∧ selectedNodes (graph ed2) = selectedNodes (graph ed1).
Proof.
  intros Hp Hr Hwire Hpin Hnode Hb ed1 ed2 m0 m1.
  assert (E1 : ∃ g1,
    nodes g1 = nodes (graph ed) ∧ heap g1 = heap (graph ed)
    ∧ links g1 = links (graph ed)
    ∧ ed1 = set_nodeDragOffsets
              (fold_left
                 (fun offsets nodeId =>
                    match OMap.get (nodes g1) nodeId with
                    | Some node =>
                        OMap.set offsets nodeId
                          (fst m0 - node_x node, snd m0 - node_y node)
                    | None => offsets
                    end) (selectedNodes g1) [])
              (set_graph g1
                 (set_isDraggingNode true
                    (if isMarqueeing ed
                     then set_isMarqueeing false
                            (set_graph (clearLinkSelection (graph ed))
                               (set_hasDragged false ed))
                     else set_graph (clearLinkSelection (graph ed))
                            (set_hasDragged false ed))))).
  { subst ed1. unfold handleEditorMouseDown. rewrite Hwire, Hpin, Hnode.
    cbv zeta. cbn [isMarqueeing set_graph set_hasDragged].
    destruct (decide (button down = 0)) as [_|?]; [|done].
    unfold mouseDownOnNode. cbv zeta.
    set (ed0 := if isMarqueeing ed then _ else _).
    assert (H0 : graph ed0 = clearLinkSelection (graph ed) ∧ pan ed0 = pan ed)
      by (subst ed0; by destruct (isMarqueeing ed)).
    destruct H0 as [Hg0 Hpan0].
    cbn [graph pan set_isDraggingNode set_graph]. rewrite Hg0, Hpan0.
    fold m0.
    set (g1 := match (if ctrlKey down then ModeToggle
                      else if shiftKey down then ModeAdd else ModeNew) with
               | ModeNew => _
               | _ => _
               end).
    exists g1. split_and!; [..|done].
    all: subst g1; destruct (ctrlKey down), (shiftKey down);
      try destruct (negb _);
      try (by destruct (selectNode_frame (clearLinkSelection (graph ed))
                          nodeId true ModeToggle) as (? & ? & ? & _));
      try (by destruct (selectNode_frame (clearLinkSelection (graph ed))
                          nodeId true ModeAdd) as (? & ? & ? & _));
      try (by destruct (selectNode_frame (clearLinkSelection (graph ed))
                          nodeId false ModeNew) as (? & ? & ? & _));
      done. }
  destruct E1 as (g1 & Hn1 & Hh1 & Hl1 & E1).
  assert (Hflags : isPanning ed1 = false ∧ isRmbDown ed1 = false
                   ∧ isDraggingNode ed1 = true ∧ graph ed1 = g1
                   ∧ pan ed1 = pan ed).
  { rewrite E1. destruct (isMarqueeing ed); simpl; by rewrite Hp, Hr. }
  destruct Hflags as (Hp1 & Hr1 & Hd1 & Hg1 & Hpan1).
  assert (Hoff : ∀ id,
    OMap.get (nodeDragOffsets ed1) id
    = match OMap.get (nodes g1) id with
      | Some node =>
          if decide (id ∈ selectedNodes g1)
          then Some (fst m0 - node_x node, snd m0 - node_y node)
          else None
      | None => None
      end).
  { intros id. rewrite E1. cbn [nodeDragOffsets set_nodeDragOffsets].
    rewrite offsets_fold. by destruct (OMap.get (nodes g1) id). }
  clear E1. subst ed2. unfold handleGlobalMouseMove. cbv zeta.
  set (ed1' := if negb (bool_decide (movementX move = 0))
                  || negb (bool_decide (movementY move = 0))
               then set_hasDragged true ed1 else ed1).
  assert (H1' : isPanning ed1' = false ∧ isRmbDown ed1' = false
                ∧ isDraggingNode ed1' = true ∧ graph ed1' = g1
                ∧ pan ed1' = pan ed
                ∧ nodeDragOffsets ed1' = nodeDragOffsets ed1).
  { subst ed1'. by destruct (negb _ || negb _). }
  destruct H1' as (-> & -> & -> & Hg1' & Hpan1' & Hoff').
  cbn [orb graph set_graph]. rewrite Hg1', Hpan1', Hoff', Hg1. fold m1.
  pose proof (drag_fold (nodeDragOffsets ed1) m1 (selectedNodes g1) g1) as H.
  cbv zeta in H. split.
  - intros id. destruct (H id) as (-> & _). rewrite Hoff, Hn1.
    destruct (OMap.get (nodes (graph ed)) id) as [node|]; [|done].
    repeat case_decide; done.
  - destruct (H "") as (_ & -> & -> & -> & _). by rewrite Hh1, Hl1.
Qed.

End Dragging.

Section Releasing.

Variable nodeRegistry : string -> option Template.
Variable getConversionNodeKey : string -> string -> option string.
Variable getPinPosition : Pin -> Z * Z.
Variable nodeBounds : Node -> Rect.



End Releasing.

Section Dropping.

Variable nodeRegistry : string -> option Template.

(** The text between the first and the second colon of
    [prefix ++ ":" ++ name], for a prefix without a colon. *)
Lemma second_part_app (prefix name : string) :
  Str.free_of ":" prefix = true →
  second_part (prefix +:+ String ":" name)
  = default "" (head (Str.split ":" name)).
Proof.
  intros Hfree. unfold second_part.
  rewrite StrFacts.split_app, (StrFacts.split_free _ _ Hfree).
  pose proof (StrFacts.split_nonempty ":" name) as Hne.
  by destruct (Str.split ":" name).
Qed.

(** X20. What a drop adds.  A dropped text [PALETTE_NODE:name] asks
    [addNode] for the part of [name] before its first colon ([name]
    itself when it has none) and saves, whether a node was added or not;
    [VARIABLE:name] asks for [Set_] and that part with Alt, for [Get_]
    and that part with Ctrl alone, and leaves the graph alone with
    neither. *)
Theorem handleDrop_adds (s : State) (e : DropEvent) (name : string) :
  let part := default "" (head (Str.split ":" name)) in
  let add key :=
    notify [AutoSave]
           (snd (addNode nodeRegistry s key (drop_x e) (drop_y e))) in
  (Str.free_of ":" name = true → part = name)
  ∧ (drop_data e = "PALETTE_NODE:" +:+ name →
     handleDrop nodeRegistry s e = add part)
  ∧ (drop_data e = "VARIABLE:" +:+ name →
     handleDrop nodeRegistry s e
     = if drop_altKey e then add ("Set_" +:+ part)
       else if drop_ctrlKey e then add ("Get_" +:+ part)
       else s).
Proof.
  intros part add. split; [|split].
  - intros Hfree. unfold part. by rewrite (StrFacts.split_free _ _ Hfree).
  - intros Hd. unfold handleDrop. rewrite Hd.
    change (startsWith "VARIABLE:" ("PALETTE_NODE:" +:+ name)) with false.
    unfold startsWith. rewrite StrFacts.drop_prefix_app. cbv zeta.
    change ("PALETTE_NODE:" +:+ name)
      with ("PALETTE_NODE" +:+ String ":" name).
    by rewrite second_part_app.
  - intros Hd. unfold handleDrop. rewrite Hd.
    unfold startsWith. rewrite StrFacts.drop_prefix_app. cbv zeta.
    change ("VARIABLE:" +:+ name) with ("VARIABLE" +:+ String ":" name).
    rewrite second_part_app by done. fold part.
    by destruct (drop_altKey e), (drop_ctrlKey e).
Qed.

End Dropping.

(** * The script around the controllers *)

(** [restore_graph.py] reads [graph.js], looks for the first line with
    [getPinsData() {], keeps the lines before it and writes them back
    followed by the text of the controllers.  The file is modelled by its
    text as Python reads it in text mode (line ends already [\n]). *)

Module Restore.

Definition newline : ascii := "010"%char.

(** [f.readlines()]: the lines of the text, each with its newline. *)
Fixpoint readlines (text : string) : list string :=
  match text with
  | EmptyString => []
  | String c rest =>
      if Ascii.eqb c newline then String c EmptyString :: readlines rest
      else match readlines rest with
           | [] => [String c EmptyString]
           | line :: lines => String c line :: lines
           end
  end.

(** [f.writelines(lines)]. *)
Definition writelines (lines : list string) : string :=
  fold_right String.append EmptyString lines.

Definition marker : string := "getPinsData() {".

(** The loop over [enumerate(lines)]: the index of the first line with
    the marker, [None] for the [-1] of the script. *)
Fixpoint start_index (lines : list string) : option nat :=
  match lines with
  | [] => None
  | line :: rest =>
      if Str.includes marker line then Some 0%nat
      else S <$> start_index rest
  end.

Inductive ending : Type :=
  | Exit (status : Z)
  | Done.

(** The file after the run, what was printed, and how the run ended. *)
Record Run : Type := mkRun {
  file : string;
  printed : list string;
  ended : ending
}.

(** The script, for the text [correct_code] it appends. *)
Definition restore_graph (correct_code text : string) : Run :=
  let lines := readlines text in
  match start_index lines with
  | None => mkRun text ["Could not find getPinsData"] (Exit 1)
  | Some i =>
      let new_content := take i lines in
      mkRun (writelines new_content +:+ correct_code)
            ["Successfully restored graph.js"] Done
  end.

(** The first line of [correct_code] in the script. *)
Definition first_line : string := "    getPinsData() {".

(** A full line: no newline but the one that ends it. *)
Definition full_line (line : string) : Prop :=
  ∃ body, line = body +:+ String newline EmptyString
          ∧ Str.free_of newline body = true.

Lemma full_line_cons (c : ascii) (line : string) :
  Ascii.eqb c newline = false → full_line line → full_line (String c line).
Proof.
  intros Hc (body & -> & Hfree). exists (String c body). split; [done|].
  simpl. by rewrite Hc.
Qed.

Lemma readlines_full (text : string) (i : nat) :
  (i < length (readlines text))%nat →
  Forall full_line (take i (readlines text)).
Proof.
  revert i. induction text as [|c rest IH]; intros i; simpl; [lia|].
  destruct (Ascii.eqb c newline) eqn:Ec.
  - destruct i as [|j]; simpl; [constructor|]. intros Hj.
    apply Forall_cons. split; [|apply IH; lia].
    apply Ascii.eqb_eq in Ec as ->. by exists EmptyString.
  - destruct (readlines rest) as [|line lines] eqn:El; simpl.
    + intros Hi. replace i with 0%nat by lia. constructor.
    + destruct i as [|j]; simpl; [constructor|]. intros Hj.
      specialize (IH (S j)). simpl in IH.
      assert (Hall : Forall full_line (line :: take j lines))
        by (apply IH; lia).
      apply Forall_cons in Hall as [Hline Hrest].
      apply Forall_cons. split; [|done]. by apply full_line_cons.
Qed.

Lemma readlines_line (line text : string) :
  full_line line → readlines (line +:+ text) = line :: readlines text.
Proof.
  intros (body & -> & Hfree). induction body as [|c body IH]; simpl.
  - done.
  - simpl in Hfree. apply andb_true_iff in Hfree as [Hc Hfree].
    apply negb_true_iff in Hc. rewrite Hc.
    change (readlines ((body +:+ String newline "") +:+ text))
      with (readlines ((body +:+ String newline EmptyString) +:+ text)).
    by rewrite (IH Hfree).
Qed.

Lemma readlines_lines (lines : list string) (text : string) :
  Forall full_line lines →
  readlines (writelines lines +:+ text) = lines ++ readlines text.
Proof.
  induction 1 as [|line lines Hline _ IH]; simpl; [done|].
  rewrite StrFacts.app_assoc, readlines_line by done. by rewrite IH.
Qed.



Lemma start_index_Some (lines : list string) (i : nat) :
  start_index lines = Some i →
  ∃ line after,
    lines = take i lines ++ line :: after
    ∧ length (take i lines) = i
    ∧ Forall (fun l => Str.includes marker l = false) (take i lines)
    ∧ Str.includes marker line = true.
Proof.
  revert i. induction lines as [|l lines IH]; intros i; simpl; [done|].
  destruct (Str.includes marker l) eqn:El.
  - intros [= <-]. by exists l, lines.
  - destruct (start_index lines) as [j|]; [|done]. intros [= <-].
    destruct (IH j eq_refl) as (line & after & Heq & Hlen & Hno & Hyes).
    exists line, after. simpl. split_and!; try done.
    + by rewrite <- Heq.
    + by rewrite Hlen.
    + by apply Forall_cons.
Qed.

Lemma start_index_app (before after : list string) (line : string) :
  Forall (fun l => Str.includes marker l = false) before →
  Str.includes marker line = true →
  start_index (before ++ line :: after) = Some (length before).
Proof.
  intros Hno Hyes. induction Hno as [|l before Hl _ IH]; simpl.
  - by rewrite Hyes.
  - by rewrite Hl, IH.
Qed.


Lemma restore_graph_found (correct_code text : string) (i : nat) :
  start_index (readlines text) = Some i →
  restore_graph correct_code text
  = mkRun (writelines (take i (readlines text)) +:+ correct_code)
          ["Successfully restored graph.js"] Done.
Proof. intros H. unfold restore_graph. by rewrite H. Qed.

Lemma restore_graph_missing (correct_code text : string) :
  start_index (readlines text) = None →
  restore_graph correct_code text
  = mkRun text ["Could not find getPinsData"] (Exit 1).
Proof. intros H. unfold restore_graph. by rewrite H. Qed.

(** X22. Running the restore script twice is running it once: with the
    appended code beginning with the line of [getPinsData() {], as it
    does, the second run finds the marker where the first run put it and
    writes the same file again; a file without the marker is left as it
    is by both. *)
Theorem restore_graph_idempotent (rest text : string) :
  let correct_code := first_line +:+ String newline rest in
  let once := restore_graph correct_code text in
  let twice := restore_graph correct_code (file once) in
  file twice = file once ∧ ended twice = ended once
  ∧ printed twice = printed once.
Proof.
  intros correct_code once twice. subst twice once.
  destruct (start_index (readlines text)) as [i|] eqn:Ei.
  - rewrite (restore_graph_found correct_code text i Ei).
    cbn [file ended printed].
    destruct (start_index_Some _ _ Ei)
      as (line & after & Heq & Hlen & Hno & Hyes).
    assert (Hi : (i < length (readlines text))%nat).
    { rewrite Heq, length_app, Hlen. simpl. lia. }
    pose proof (readlines_full text i Hi) as Hfull.
    assert (Hcode : readlines correct_code
                    = (first_line +:+ String newline EmptyString)
                        :: readlines rest).
    { unfold correct_code.
      change (first_line +:+ String newline rest)
        with ((first_line +:+ String newline EmptyString) +:+ rest).
      apply readlines_line. by exists first_line. }
    rewrite (restore_graph_found correct_code _ i).
    + cbn [file ended printed]. rewrite readlines_lines by done.
      rewrite <- Hlen at 1. by rewrite take_app_length.
    + rewrite readlines_lines, Hcode by done.
      rewrite <- Hlen at 2. by apply start_index_app.
  - rewrite (restore_graph_missing correct_code text Ei).
    cbn [file ended printed].
    by rewrite (restore_graph_missing correct_code text Ei).
Qed.

End Restore.

(** * The properties on concrete graphs *)

(** [wired], in a form that can be evaluated. *)
Definition wired_checks (s : State) : Prop :=
  NoDup (OMap.keys (links s))
  ∧ Forall (fun kl => link_id (snd kl) = fst kl) (links s)
  ∧ Forall (fun kl =>
              ((link_startPin (snd kl) < length (heap s))%nat
               ∧ (link_endPin (snd kl) < length (heap s))%nat)
              ∧ fst kl ∈ pin_links (deref s (link_startPin (snd kl)))
              ∧ fst kl ∈ pin_links (deref s (link_endPin (snd kl))))
           (links s)
  ∧ Forall (fun kn =>
              Forall (fun r =>
                        Forall (fun k =>
                                  Exists (fun kl =>
                                            fst kl = k
                                            ∧ (link_startPin (snd kl) = r
                                               ∨ link_endPin (snd kl) = r))
                                         (links s))
                               (pin_links (deref s r)))
                     (node_pins (snd kn)))
           (nodes s).

Global Instance wired_checks_dec (s : State) : Decision (wired_checks s).
Proof. unfold wired_checks. apply _. Defined.

Lemma wired_checked (s : State) : wired_checks s → wired s.
Proof.
  intros (H1 & H2 & H3 & H4). split.
  - done.
  - by apply links_keyed_Forall.
  - intros k l Hin. exact (proj1 (Forall_forall _ _) H3 (k, l) Hin).
  - intros id n r k Hn Hr Hk.
    pose proof (proj1 (Forall_forall _ _) H4 (id, n) Hn) as Hrs.
    pose proof (proj1 (Forall_forall _ _) Hrs r Hr) as Hks.
    pose proof (proj1 (Forall_forall _ _) Hks k Hk) as Hex.
    apply Exists_exists in Hex as ([k' l] & Hin & Hk' & Hends).
    simpl in Hk', Hends. subst k'. by exists l.
Qed.

(** [singletons_kept], for a registry given by its list of templates. *)
Lemma singletons_checked (catalog : omap Template) (s : State) :
  Forall (fun kt => t_isSingleton (snd kt) = true →
                    (instances s (fst kt) ≤ 1)%nat) catalog →
  singletons_kept (OMap.get catalog) s.
Proof.
  intros H key t Hget. apply OMapFacts.get_Some_elem in Hget.
  exact (proj1 (Forall_forall _ _) H (key, t) Hget).
Qed.

Module Session.

Import Scenario.

(** An [Add] node and a [Print] node, [node-1] with the pin 3. *)
Definition p2 : State := snd (addNode registry g1 "Print" 100 0).

(** [g3] after a click on its wire. *)
Definition g3_wire : State := toggleLinkSelection g3 "link-2".

(** The pointer at zoom 1. *)
Definition coords (pan : Z * Z) (x y : Z) : Z * Z :=
  (x - fst pan, y - snd pan).

(** Every node is 80 wide and 30 high. *)
Definition bounds (n : Node) : Rect := mkRect (node_x n) (node_y n) 80 30.

Definition press (pin : option (option string)) (node : option string)
    (x y : Z) : MouseEvent :=
  mkMouseEvent false pin node 0 false false false None x y 0 0.

Definition move_to (x y dx dy : Z) : MouseEvent :=
  mkMouseEvent false None None 0 false false false None x y dx dy.


(** X1 on [g2]: the first link. *)
Lemma createConnection_keeps_wired_witness :
  wired g3 ∧ fresh_link_ids g3.
Proof.
  apply (createConnection_keeps_wired registry adapters layout g2
           2%nat 3%nat).
  - apply wired_checked. by_evaluation.
  - apply fresh_link_ids_generated. by_evaluation.
  - by_evaluation.
  - by_evaluation.
Defined.

(** X2 on [g3]: the same two pins connected again. *)
Lemma createConnection_replaces_witness :
  ∃ id l,
    (id, l) ∈ links (createConnection registry adapters layout g3
                       (Some 2%nat) (Some 3%nat))
    ∧ link_endPin l = 3%nat
    ∧ OMap.get (links g3) id = None
    ∧ ∀ k l', (k, l') ∈ links (createConnection registry adapters layout g3
                                 (Some 2%nat) (Some 3%nat)) →
              link_startPin l' = 3%nat ∨ link_endPin l' = 3%nat → k = id.
Proof.
  apply (createConnection_replaces registry adapters layout g3 2%nat 3%nat).
  - apply wired_checked. by_evaluation.
  - apply fresh_link_ids_generated. by_evaluation.
  - by_evaluation.
  - by_evaluation.
  - by_evaluation.
  - reflexivity.
Defined.

(** X3 on [g2]: from the input to the output. *)
Lemma createConnection_symmetric_witness :
  createConnection registry adapters layout g2 (Some 3%nat) (Some 2%nat)
  = createConnection registry adapters layout g2 (Some 2%nat) (Some 3%nat).
Proof.
  apply (createConnection_symmetric registry adapters layout g2 3%nat 2%nat).
  by_evaluation.
Defined.

(** X4 on [p2]: a [float] output to a [string] input. *)
Lemma createConnection_through_adapter_witness :
  (∃ x y,
     nodes (createConnection registry adapters layout p2
              (Some 2%nat) (Some 3%nat))
     = nodes p2 ++ [("node-2", mkNode "node-2" x y "ToString" "To String"
                                 [4; 5]%nat [])])
  ∧ links (createConnection registry adapters layout p2
             (Some 2%nat) (Some 3%nat))
    = [("link-3", mkLink "link-3" 2%nat 4%nat);
       ("link-4", mkLink "link-4" 5%nat 3%nat)]
  ∧ log (createConnection registry adapters layout p2
           (Some 2%nat) (Some 3%nat))
    = log p2 ++ [MarkDirty; AutoSave; MarkDirty].
Proof.
  apply (createConnection_through_adapter registry adapters layout p2
           2%nat 3%nat "ToString"
           (mkTemplate "To String"
              [pin_in "val_in" "float" VUndefined;
               pin_out "val_out" "string"] false)
           0%nat 1%nat
           (pin_in "val_in" "float" VUndefined)
           (pin_out "val_out" "string")).
  - by_evaluation.
  - by_evaluation.
  - by_evaluation.
  - reflexivity.
  - reflexivity.
  - reflexivity.
  - by_evaluation.
  - reflexivity.
  - reflexivity.
  - reflexivity.
  - reflexivity.
  - apply fresh_node_ids_generated. by_evaluation.
  - apply fresh_link_ids_generated. by_evaluation.
Defined.

(** X5 on [g3_wire]: the one link goes. *)
Lemma deleteSelectedLinks_removes_witness :
  selectedLinks g3_wire = ["link-2"]
  ∧ selectedLinks (deleteSelectedLinks g3_wire) = []
  ∧ (∀ k, OMap.get (links (deleteSelectedLinks g3_wire)) k
          = if decide (k ∈ selectedLinks g3_wire) then None
            else OMap.get (links g3_wire) k).
Proof.
  split; [reflexivity|].
  destruct (deleteSelectedLinks_removes g3_wire) as (H1 & H2 & _).
  - by_evaluation.
  - split; [exact H1|exact H2].
Defined.

(** X6 on [g3_wire], where the wire is selected already: the next click
    on it selects it again. *)
Lemma wire_click_selects_witness :
  selectedLinks g3_wire = ["link-2"]
  ∧ selectedLinks
      (toggleLinkSelection
         (graph (handleEditorMouseDown coords (idle_editor g3_wire)
                   (mkMouseEvent true None None 0 false false false None
                                 50 20 0 0)))
         "link-2") = ["link-2"].
Proof.
  split; [reflexivity|].
  destruct (wire_click_selects coords (idle_editor g3_wire)
              (mkMouseEvent true None None 0 false false false None
                            50 20 0 0) "link-2") as (_ & H & _).
  - reflexivity.
  - exact H.
Defined.

(** X7 on [g3]. *)
Lemma click_wire_then_delete_witness :
  OMap.get (links (deleteSelectedLinks (toggleLinkSelection g3 "link-2")))
           "link-2" = None
  ∧ nodes (deleteSelectedLinks (toggleLinkSelection g3 "link-2"))
    = nodes g3.
Proof.
  destruct (click_wire_then_delete g3 "link-2") as (H1 & _ & H2 & _).
  - by_evaluation.
  - split; [exact H1|exact H2].
Defined.


(** X9 on [e1], which has the one [BeginPlay] node. *)
Lemma singletons_preserved_witness :
  (∀ key x y, singletons_kept registry (snd (addNode registry e1 key x y)))
  ∧ (∀ a b, singletons_kept registry
              (createConnection registry adapters layout e1
                 (Some a) (Some b))).
Proof.
  apply (singletons_preserved registry adapters layout e1).
  apply singletons_checked. by_evaluation.
Defined.

(** X10 on [g3_selected], which [duplicateSelectedNodes] copies. *)
Lemma duplicateSelectedNodes_returns_witness :
  selectedNodes g3_selected ≠ []
  ∧ ∀ id n, id ∈ selectedNodes g3_selected →
            OMap.get (nodes g3_selected) id = Some n →
            ∃ t, registry (node_nodeKey n) = Some t
                 ∧ t_isSingleton t = false
                 ∧ (length (node_pins n) ≤ length (t_pins t))%nat.
Proof.
  apply (duplicateSelectedNodes_returns registry adapters layout g3_selected
           (match duplicateSelectedNodes registry adapters layout
                    g3_selected with
            | Returned s' => s'
            | TypeError _ => g3_selected
            end)).
  - apply fresh_node_ids_generated. by_evaluation.
  - vm_compute. reflexivity.
Defined.


(** X16 on [g3]: a marquee around [node-0] only. *)
Lemma selectNodesInRect_selects_witness :
  selectedNodes (selectNodesInRect bounds g3 (mkRect 0 0 60 60) ModeAdd)
  = ["node-0"]
  ∧ ∀ j, j ∈ selectedNodes
               (selectNodesInRect bounds g3 (mkRect 0 0 60 60) ModeAdd)
         ↔ j ∈ selectedNodes g3
           ∨ ∃ n, OMap.get (nodes g3) j = Some n
                  ∧ centreInside bounds (mkRect 0 0 60 60) n = true.
Proof.
  split; [reflexivity|].
  apply (selectNodesInRect_selects bounds g3 (mkRect 0 0 60 60) ModeAdd).
  - apply nodes_keyed_Forall. by_evaluation.
  - by_evaluation.
Defined.

(** X17: a press on the background, two moves and the release. *)
Lemma gesture_returns_to_idle_witness :
  one_mode (handleEditorMouseDown coords (idle_editor g3)
              (press None None 300 300))
  ∧ idle (handleGlobalMouseUp registry adapters layout bounds
            (fold_left (handleGlobalMouseMove coords)
               [move_to 310 300 10 0; move_to 310 320 0 20]
               (handleEditorMouseDown coords (idle_editor g3)
                  (press None None 300 300)))
            (move_to 310 320 0 0) (mkRect 300 300 10 20)).
Proof.
  destruct (gesture_returns_to_idle registry adapters layout coords bounds
              (idle_editor g3) (press None None 300 300)
              (move_to 310 320 0 0)
              [move_to 310 300 10 0; move_to 310 320 0 20]
              (mkRect 300 300 10 20)) as (H1 & _ & H2).
  - reflexivity.
  - split; [exact H1|exact H2].
Defined.

(** X18: [node-0] of [g3] held at (20, 10) and taken to (55, 40). *)
Lemma drag_moves_selection_witness :
  OMap.get
    (nodes (graph (handleGlobalMouseMove coords
                     (handleEditorMouseDown coords (idle_editor g3)
                        (press None (Some "node-0") 20 10))
                     (move_to 55 40 35 30)))) "node-0"
  = Some (mkNode "node-0" 35 30 "Add" "Add" [0; 1; 2]%nat [])
  ∧ links (graph (handleGlobalMouseMove coords
                    (handleEditorMouseDown coords (idle_editor g3)
                       (press None (Some "node-0") 20 10))
                    (move_to 55 40 35 30)))
    = links g3.
Proof.
  destruct (drag_moves_selection coords (idle_editor g3)
              (press None (Some "node-0") 20 10) (move_to 55 40 35 30)
              "node-0") as (H1 & _ & H2 & _); try reflexivity.
  split; [|exact H2]. rewrite (H1 "node-0"). reflexivity.
Defined.




End Session.
